(** * A discrete-time multi-server queue (Mesa agents): model and properties

    The development embeds the two programs of the repository,
    [server.py] (module [ServerPy]) and [mesa.py] (module [MesaPy]),
    and settles the properties stated for them.

    Conventions of the embedding.
    - Python integers are [Z]; the floats that the code only compares
      (the draw of [random.random()], the two rates) are the rationals
      they denote, [Q].  The float that [random.expovariate] returns is
      a [float]: a finite number, an infinity (the quotient overflows
      for a rate close to zero) or NaN, and [int] fails on the last two.
    - [TaskAgent] objects are shared: a server mutates the task it serves
      while the scheduler still lists it.  Tasks therefore live in a
      store, the list of all tasks in order of creation, and servers hold
      references (positions in the store).
    - Mesa's scheduler is taken at its interface: [schedule.add] records
      an agent, [schedule.agents] lists the recorded agents, and
      [schedule.step] activates every agent once, in an order of its own
      choosing.  Agents are recorded whatever their [unique_id] (a task
      takes the step number as id, which can equal the id of a server).
      [TaskAgent.step] is [pass], so an activation order is a list of
      server positions.  The data collector is a sink and the [print]
      calls are not modelled.
    - The pseudorandom draws of one model step are an input, [Draws]. *)

From Stdlib Require Import ZArith QArith Lia.
From stdpp Require Import base option list.

Local Open Scope Z_scope.

(** ** Outcomes of a call *)

(** The exceptions a call can end with.  [ValueError] is raised by
    [min] on an empty sequence and by [int] on NaN, [ZeroDivisionError]
    by a division by zero and [OverflowError] by [int] on an infinity.
    [StoreFault] is not a Python exception: it marks a reference that
    designates no task of the store, which no run produces. *)
Inductive exn : Type :=
| ValueError
| ZeroDivisionError
| OverflowError
| StoreFault.

Inductive result (A : Type) : Type :=
| Returned (a : A)
| Raised (e : exn).

Arguments Returned {A} a.
Arguments Raised {A} e.

Definition result_bind {A B : Type} (f : A -> result B) (r : result A) : result B :=
  match r with
  | Returned a => f a
  | Raised e => Raised e
  end.

#[global] Instance result_mbind : MBind result := @result_bind.
#[global] Instance result_mret : MRet result := @Returned.

(** ** Python primitives used by the code *)

(** A float as [random.expovariate] returns it: a finite number, taken
    as the rational it denotes, an infinity of either sign, or NaN. *)
Inductive float : Type :=
| finite (x : Q)
| infinity
| nan.

(** Truncation of a rational towards zero. *)
Definition truncate (x : Q) : Z := Z.quot (Qnum x) (Zpos (Qden x)).

(** [int(x)] on a float: truncation towards zero; [OverflowError] on an
    infinity and [ValueError] on NaN. *)
Definition int (x : float) : result Z :=
  match x with
  | finite q => Returned (truncate q)
  | infinity => Raised OverflowError
  | nan => Raised ValueError
  end.

(** [x < y] on floats. *)
Definition Qltb (x y : Q) : bool :=
  (Qnum x * Zpos (Qden y) <? Qnum y * Zpos (Qden x)).

(** [a / b] on integers: true division, [ZeroDivisionError] when [b] is
    zero.  The quotient is the exact rational (the float is its
    rounding). *)
Definition truediv (a b : Z) : result Q :=
  if b =? 0 then Raised ZeroDivisionError
  else Returned (Qdiv (inject_Z a) (inject_Z b)).

(** [random.expovariate(lambd)] computes [-log(1 - random()) / lambd]:
    it raises [ZeroDivisionError] when [lambd] is zero and otherwise
    returns the quotient, a float that is infinite when the division
    overflows; [x] is the float returned. *)
Definition expovariate (lambd : Q) (x : float) : result float :=
  if Qeq_bool lambd 0 then Raised ZeroDivisionError else Returned x.

(** The scan of [for x in xs: if p(x): return x]: the first element that
    satisfies [p], with its position. *)
Fixpoint first_index {A : Type} (p : A -> bool) (i : nat) (l : list A) : option (nat * A) :=
  match l with
  | [] => None
  | x :: l' => if p x then Some (i, x) else first_index p (S i) l'
  end.

(** [min(xs, key=key)]: one pass that keeps the best element seen so far
    and replaces it only by a strictly smaller one. *)
Fixpoint min_scan {A : Type} (key : A -> nat) (best : nat) (best_key : nat)
    (i : nat) (l : list A) : nat :=
  match l with
  | [] => best
  | x :: l' =>
      if (key x <? best_key)%nat
      then min_scan key i (key x) (S i) l'
      else min_scan key best best_key (S i) l'
  end.

Definition py_min {A : Type} (key : A -> nat) (l : list A) : result nat :=
  match l with
  | [] => Raised ValueError
  | x :: l' => Returned (min_scan key 0%nat (key x) 1%nat l')
  end.

(** [random.randint(a, b)] is [a + _randbelow(b - a + 1)]; [raw] is the
    integer the generator draws, reduced below the width of the range. *)
Definition randint (a b : Z) (raw : Z) : Z := a + raw mod (b - a + 1).


(** ** server.py *)

Module ServerPy.

Record TaskAgent : Type := mkTaskAgent {
  task_unique_id : Z;
  initial_service_time : Z;
  remaining_service_time : Z;
  assigned_server : option Z;      (* the server, by its unique_id *)
  arrival_time : Z;
  queue_wait_time : Z
}.

Record ServerAgent : Type := mkServerAgent {
  unique_id : Z;
  busy : bool;
  current_task : option nat;       (* reference into the store *)
  total_service_time : Z;
  queue : list nat;                (* references into the store *)
  total_tasks_served : Z
}.

Abbreviation store := (list TaskAgent).

(** The pseudorandom draws of one model step. *)
Record Draws : Type := mkDraws {
  arrival_draw : Q;          (* random.random() *)
  service_draw : float;      (* random.expovariate(...), drawn on arrival *)
  activation : list nat      (* order in which the scheduler steps the servers *)
}.

(** [ServerAgent.__init__] *)
Definition ServerAgent_init (uid : Z) : ServerAgent :=
  {| unique_id := uid; busy := false; current_task := None;
     total_service_time := 0; queue := []; total_tasks_served := 0 |}.

(** [TaskAgent.__init__]: [arrival_time] is the model's clock. *)
Definition TaskAgent_init (uid : Z) (clock : Z) (service_time : Z) : TaskAgent :=
  {| task_unique_id := uid; initial_service_time := service_time;
     remaining_service_time := service_time; assigned_server := None;
     arrival_time := clock; queue_wait_time := 0 |}.

(** [self.current_task.remaining_service_time -= 1] *)
Definition decrement (t : TaskAgent) : TaskAgent :=
  {| task_unique_id := task_unique_id t;
     initial_service_time := initial_service_time t;
     remaining_service_time := remaining_service_time t - 1;
     assigned_server := assigned_server t;
     arrival_time := arrival_time t;
     queue_wait_time := queue_wait_time t |}.

(** The two assignments that [begin_service] makes to the task. *)
Definition start_task (uid : Z) (clock : Z) (t : TaskAgent) : TaskAgent :=
  {| task_unique_id := task_unique_id t;
     initial_service_time := initial_service_time t;
     remaining_service_time := remaining_service_time t;
     assigned_server := Some uid;
     arrival_time := arrival_time t;
     queue_wait_time := clock - arrival_time t |}.

(** [ServerAgent.begin_service(task)]; [clock] is [self.model.current_step]. *)
Definition begin_service (clock : Z) (task : nat) (self : ServerAgent) (h : store)
    : ServerAgent * store :=
  ({| unique_id := unique_id self; busy := true; current_task := Some task;
      total_service_time := total_service_time self; queue := queue self;
      total_tasks_served := total_tasks_served self |},
   alter (start_task (unique_id self) clock) task h).

(** [ServerAgent.complete_service()]; [t] is the task in [self.current_task]. *)
Definition complete_service (self : ServerAgent) (t : TaskAgent) : ServerAgent :=
  {| unique_id := unique_id self; busy := false; current_task := None;
     total_service_time := total_service_time self + initial_service_time t;
     queue := queue self;
     total_tasks_served := total_tasks_served self + 1 |}.

(** [self.queue.pop(0)] leaves the rest of the queue in [self]. *)
Definition with_queue (q : list nat) (self : ServerAgent) : ServerAgent :=
  {| unique_id := unique_id self; busy := busy self;
     current_task := current_task self;
     total_service_time := total_service_time self; queue := q;
     total_tasks_served := total_tasks_served self |}.

(** First statement of [ServerAgent.step]: serve the current task. *)
Definition serve (self : ServerAgent) (h : store) : result (ServerAgent * store) :=
  match busy self, current_task self with
  | true, Some r =>
      match h !! r with
      | Some t =>
          let t' := decrement t in
          let h' := <[r := t']> h in
          if remaining_service_time t' <=? 0
          then Returned (complete_service self t', h')
          else Returned (self, h')
      | None => Raised StoreFault
      end
  | _, _ => Returned (self, h)
  end.

(** Second statement of [ServerAgent.step]: take the next queued task. *)
Definition take_next (clock : Z) (self : ServerAgent) (h : store) : ServerAgent * store :=
  if negb (busy self) then
    match queue self with
    | r :: q => begin_service clock r (with_queue q self) h
    | [] => (self, h)
    end
  else (self, h).

(** [ServerAgent.step()] *)
Definition ServerAgent_step (clock : Z) (self : ServerAgent) (h : store)
    : result (ServerAgent * store) :=
  '(self1, h1) ← serve self h;
  Returned (take_next clock self1 h1).

(** Successive calls of [ServerAgent.step()] on one server, at the clocks
    [clocks]. *)
Fixpoint ServerAgent_steps (clocks : list Z) (self : ServerAgent) (h : store)
    : result (ServerAgent * store) :=
  match clocks with
  | [] => Returned (self, h)
  | clock :: clocks' =>
      '(self1, h1) ← ServerAgent_step clock self h;
      ServerAgent_steps clocks' self1 h1
  end.

Record QueueServerModel : Type := mkModel {
  num_servers : Z;
  task_arrival_rate : Q;
  task_service_rate : Q;
  max_steps : Z;
  running : bool;
  current_step : Z;
  total_queue_wait_time : Z;
  total_time_in_system : Z;
  total_tasks : Z;
  servers : list ServerAgent;
  tasks : store                    (* the tasks added to the schedule *)
}.

(** [QueueServerModel.__init__]: no statement of it raises. *)
Definition QueueServerModel_init (n : Z) (arrival_rate service_rate : Q) (limit : Z)
    : result QueueServerModel :=
  Returned
    {| num_servers := n; task_arrival_rate := arrival_rate;
       task_service_rate := service_rate; max_steps := limit;
       running := true; current_step := 0;
       total_queue_wait_time := 0; total_time_in_system := 0; total_tasks := 0;
       servers := (fun i => ServerAgent_init (Z.of_nat i)) <$> seq 0 (Z.to_nat n);
       tasks := [] |}.

(** [find_available_server()]: the first server that is not busy, with
    its position in [self.servers]. *)
Definition find_available_server (svs : list ServerAgent) : option (nat * ServerAgent) :=
  first_index (fun s => negb (busy s)) 0%nat svs.

(** [queue.append(new_task)] *)
Definition enqueue (task : nat) (self : ServerAgent) : ServerAgent :=
  with_queue (queue self ++ [task]) self.

(** Lines 96-102 of [step]: hand the new task to a server. *)
Definition dispatch (clock : Z) (task : nat) (svs : list ServerAgent) (h : store)
    : result (list ServerAgent * store) :=
  match find_available_server svs with
  | Some (i, s) =>
      let '(s', h') := begin_service clock task s h in
      Returned (<[i := s']> svs, h')
  | None =>
      j ← py_min (fun s => length (queue s)) svs;
      Returned (alter (enqueue task) j svs, h)
  end.

(** Lines 89-102 of [step]: the arrival, if one is drawn.  The result is
    the new value of [total_tasks], the servers and the store. *)
Definition arrive (d : Draws) (m : QueueServerModel)
    : result (Z * list ServerAgent * store) :=
  if Qltb (arrival_draw d) (task_arrival_rate m) then
    x ← expovariate (task_service_rate m) (service_draw d);
    service_time ← int x;
    let new_task := TaskAgent_init (current_step m) (current_step m) service_time in
    dispatch (current_step m) (length (tasks m)) (servers m) (tasks m ++ [new_task])
      ≫= λ '(svs, h), Returned (total_tasks m + 1, svs, h)
  else Returned (total_tasks m, servers m, tasks m).

(** One activation of the server at position [k]. *)
Definition activate (clock : Z) (k : nat) (svs : list ServerAgent) (h : store)
    : result (list ServerAgent * store) :=
  match svs !! k with
  | Some s => '(s', h') ← ServerAgent_step clock s h; Returned (<[k := s']> svs, h')
  | None => Returned (svs, h)
  end.

(** [self.schedule.step()] *)
Fixpoint schedule_step (clock : Z) (order : list nat) (svs : list ServerAgent) (h : store)
    : result (list ServerAgent * store) :=
  match order with
  | [] => Returned (svs, h)
  | k :: order' =>
      '(svs', h') ← activate clock k svs h;
      schedule_step clock order' svs' h'
  end.

(** Lines 109-112 of [step]: the loop over the scheduled tasks. *)
Fixpoint collect (clock : Z) (agents : list TaskAgent) (acc : Z * Z) : Z * Z :=
  match agents with
  | [] => acc
  | agent :: agents' =>
      collect clock agents'
        (match assigned_server agent with
         | Some _ => (fst acc + queue_wait_time agent,
                      snd acc + (clock - arrival_time agent))
         | None => acc
         end)
  end.

(** [QueueServerModel.step()] *)
Definition QueueServerModel_step (d : Draws) (m : QueueServerModel) : result QueueServerModel :=
  '(n, svs, h) ← arrive d m;
  '(svs', h') ← schedule_step (current_step m) (activation d) svs h;
  let '(qw, ts) := collect (current_step m) h'
                     (total_queue_wait_time m, total_time_in_system m) in
  let clock := current_step m + 1 in
  Returned
    {| num_servers := num_servers m; task_arrival_rate := task_arrival_rate m;
       task_service_rate := task_service_rate m; max_steps := max_steps m;
       running := if clock >=? max_steps m then false else running m;
       current_step := clock;
       total_queue_wait_time := qw; total_time_in_system := ts; total_tasks := n;
       servers := svs'; tasks := h' |}.

(** [get_queue_lengths()] and [get_busy_servers()] *)
Definition get_queue_lengths (m : QueueServerModel) : list nat :=
  (fun s => length (queue s)) <$> servers m.

Definition get_busy_servers (m : QueueServerModel) : nat :=
  length (filter (fun s => busy s = true) (servers m)).

(** [get_avg_time_in_queue()] and [get_avg_time_in_system()] *)
Definition get_avg_time_in_queue (m : QueueServerModel) : result Q :=
  if total_tasks m >? 0 then truediv (total_queue_wait_time m) (total_tasks m)
  else Returned 0%Q.

Definition get_avg_time_in_system (m : QueueServerModel) : result Q :=
  if total_tasks m >? 0 then truediv (total_time_in_system m) (total_tasks m)
  else Returned 0%Q.

(** [get_avg_queue_length()] and [get_avg_servers_busy()] *)
Definition get_avg_queue_length (m : QueueServerModel) : result Q :=
  truediv (Z.of_nat (sum_list (get_queue_lengths m))) (num_servers m).

Definition get_avg_servers_busy (m : QueueServerModel) : result Q :=
  truediv (Z.of_nat (get_busy_servers m)) (num_servers m).

(** [while model.running: model.step()].  The draws are consumed one per
    iteration; [None] when they run out before the loop ends. *)
Fixpoint main_loop (ds : list Draws) (m : QueueServerModel)
    : option (result QueueServerModel) :=
  if running m then
    match ds with
    | [] => None
    | d :: ds' =>
        match QueueServerModel_step d m with
        | Returned m' => main_loop ds' m'
        | Raised e => Some (Raised e)
        end
    end
  else Some (Returned m).

(** The states of a run: the constructed model and what [step] returns. *)
Inductive reachable : QueueServerModel -> Prop :=
| reachable_init n a s k m :
    QueueServerModel_init n a s k = Returned m -> reachable m
| reachable_step d m m' :
    reachable m -> QueueServerModel_step d m = Returned m' -> reachable m'.

(** *** Vocabulary of the properties *)

(** The references a server holds: its current task, then its queue. *)
Definition refs (s : ServerAgent) : list nat :=
  option_list (current_task s) ++ queue s.

(** A server is busy exactly when it has a current task. *)
Definition consistent (s : ServerAgent) : Prop :=
  busy s = true ↔ is_Some (current_task s).

(** The tasks a server accounts for: served, in service and queued. *)
Definition load (s : ServerAgent) : Z :=
  total_tasks_served s + (if busy s then 1 else 0) + Z.of_nat (length (queue s)).

Definition total_load (svs : list ServerAgent) : Z :=
  foldr (fun s acc => load s + acc) 0 svs.

(** The remaining service times after one activation of [s], given the
    remaining service times before it: the current task of a busy server
    loses one tick. *)
Definition served_times (s : ServerAgent) (times : list Z) : list Z :=
  match busy s, current_task s with
  | true, Some r => alter Z.pred r times
  | _, _ => times
  end.

(** [sum(...)] over integers. *)
Definition sumZ (l : list Z) : Z := foldr Z.add 0 l.

(** The sum of [total_tasks_served] over the servers. *)
Definition tasks_served (m : QueueServerModel) : Z :=
  sumZ (total_tasks_served <$> servers m).

(** No task has arrived: nothing is stored, served, in service or queued. *)
Definition untouched (m : QueueServerModel) : Prop :=
  tasks m = [] ∧ total_tasks m = 0 ∧
  total_queue_wait_time m = 0 ∧ total_time_in_system m = 0 ∧
  Forall (λ s, busy s = false ∧ current_task s = None ∧ queue s = []) (servers m).

(** A task has been started when [begin_service] has reached it. *)
Definition started (t : TaskAgent) : bool :=
  match assigned_server t with Some _ => true | None => false end.

(** The shape of the servers and the store between two calls. *)
Record well_formed (svs : list ServerAgent) (h : store) : Prop := mkWellFormed {
  wf_consistent : ∀ i s, svs !! i = Some s → consistent s;
  wf_ids : ∀ i s, svs !! i = Some s → unique_id s = Z.of_nat i;
  wf_bound : ∀ i s r, svs !! i = Some s → r ∈ refs s → (r < length h)%nat;
  wf_nodup : ∀ i s, svs !! i = Some s → NoDup (refs s);
  wf_owner : ∀ i j s s' r,
    svs !! i = Some s → svs !! j = Some s' → r ∈ refs s → r ∈ refs s' → i = j;
  wf_current : ∀ i s r t,
    svs !! i = Some s → current_task s = Some r → h !! r = Some t →
    1 ≤ remaining_service_time t ∨ remaining_service_time t = initial_service_time t;
  wf_queued : ∀ i s r t,
    svs !! i = Some s → r ∈ queue s → h !! r = Some t →
    remaining_service_time t = initial_service_time t ∧ assigned_server t = None;
  wf_floor : ∀ r t,
    h !! r = Some t → Z.min 0 (initial_service_time t - 1) ≤ remaining_service_time t
}.

(** A server holds the task [r]: as its current task or in its queue. *)
Definition held (svs : list ServerAgent) (r : nat) : Prop :=
  ∃ i s, svs !! i = Some s ∧ r ∈ refs s.

(** What is left of the service of the tasks: never more than the
    service time, and for a task that no server holds any more exactly
    [min(0, initial_service_time - 1)]. *)
Record service_bounds (svs : list ServerAgent) (h : store) : Prop := mkServiceBounds {
  sb_upper : ∀ r t, h !! r = Some t → remaining_service_time t ≤ initial_service_time t;
  sb_released : ∀ r t,
    h !! r = Some t → ¬ held svs r →
    remaining_service_time t = Z.min 0 (initial_service_time t - 1)
}.

(** The service time a server accounts for, [times] being the initial
    service times of the store: what it has served and what it holds. *)
Definition work (times : list Z) (s : ServerAgent) : Z :=
  total_service_time s + sumZ ((λ r, default 0 (times !! r)) <$> refs s).

Definition total_work (times : list Z) (svs : list ServerAgent) : Z :=
  sumZ (work times <$> svs).

(** The time stamps of a task at clock [clock], with [n] servers: its id
    is its arrival step, it has arrived, it has waited for a time that
    is not negative and ends by [clock], not at all if it has not been
    started, and the server it is assigned to exists. *)
Definition task_timed (clock : Z) (n : nat) (t : TaskAgent) : Prop :=
  task_unique_id t = arrival_time t ∧
  0 ≤ arrival_time t ≤ clock ∧
  0 ≤ queue_wait_time t ∧
  arrival_time t + queue_wait_time t ≤ clock ∧
  (assigned_server t = None → queue_wait_time t = 0) ∧
  (∀ u, assigned_server t = Some u → 0 ≤ u < Z.of_nat n).

Definition increasing (l : list Z) : Prop :=
  ∀ a b x y, l !! a = Some x → l !! b = Some y → (a < b)%nat → x < y.

Definition ascending (l : list nat) : Prop :=
  ∀ a b x y, l !! a = Some x → l !! b = Some y → (a < b)%nat → (x < y)%nat.

(** The order kept by the servers and the store at clock [clock]. *)
Record orderly (clock : Z) (svs : list ServerAgent) (h : store) : Prop := mkOrderly {
  od_idle : ∀ i s, svs !! i = Some s → busy s = false → queue s = [];
  od_fifo : ∀ i s, svs !! i = Some s → ascending (refs s);
  od_backref : ∀ i s r t,
    svs !! i = Some s → current_task s = Some r → h !! r = Some t →
    assigned_server t = Some (unique_id s);
  od_tasks : Forall (task_timed clock (length svs)) h;
  od_arrivals : increasing (arrival_time <$> h)
}.

End ServerPy.

(** ** mesa.py *)

Module MesaPy.

Record TaskAgent : Type := mkTaskAgent {
  task_unique_id : Z;
  initial_service_time : Z;
  remaining_service_time : Z;
  assigned_server : option Z       (* the server, by its unique_id *)
}.

Record ServerAgent : Type := mkServerAgent {
  unique_id : Z;
  busy : bool;
  current_task : option nat;       (* reference into the store *)
  total_service_time : Z;
  queue : list nat                 (* references into the store *)
}.

Abbreviation store := (list TaskAgent).

(** The pseudorandom draws of one model step. *)
Record Draws : Type := mkDraws {
  arrival_draw : Q;          (* random.random() *)
  service_draw : Z;          (* integer drawn by random.randint, on arrival *)
  activation : list nat      (* order in which the scheduler steps the servers *)
}.

(** [ServerAgent.__init__] *)
Definition ServerAgent_init (uid : Z) : ServerAgent :=
  {| unique_id := uid; busy := false; current_task := None;
     total_service_time := 0; queue := [] |}.

(** [TaskAgent.__init__] *)
Definition TaskAgent_init (uid : Z) (service_time : Z) : TaskAgent :=
  {| task_unique_id := uid; initial_service_time := service_time;
     remaining_service_time := service_time; assigned_server := None |}.

(** [self.current_task.remaining_service_time -= 1] *)
Definition decrement (t : TaskAgent) : TaskAgent :=
  {| task_unique_id := task_unique_id t;
     initial_service_time := initial_service_time t;
     remaining_service_time := remaining_service_time t - 1;
     assigned_server := assigned_server t |}.

(** The assignment that [begin_service] makes to the task. *)
Definition start_task (uid : Z) (t : TaskAgent) : TaskAgent :=
  {| task_unique_id := task_unique_id t;
     initial_service_time := initial_service_time t;
     remaining_service_time := remaining_service_time t;
     assigned_server := Some uid |}.

(** [ServerAgent.begin_service(task)] *)
Definition begin_service (task : nat) (self : ServerAgent) (h : store)
    : ServerAgent * store :=
  ({| unique_id := unique_id self; busy := true; current_task := Some task;
      total_service_time := total_service_time self; queue := queue self |},
   alter (start_task (unique_id self)) task h).

(** [ServerAgent.complete_service()]; [t] is the task in [self.current_task]. *)
Definition complete_service (self : ServerAgent) (t : TaskAgent) : ServerAgent :=
  {| unique_id := unique_id self; busy := false; current_task := None;
     total_service_time := total_service_time self + initial_service_time t;
     queue := queue self |}.

Definition with_queue (q : list nat) (self : ServerAgent) : ServerAgent :=
  {| unique_id := unique_id self; busy := busy self;
     current_task := current_task self;
     total_service_time := total_service_time self; queue := q |}.

(** First statement of [ServerAgent.step]. *)
Definition serve (self : ServerAgent) (h : store) : result (ServerAgent * store) :=
  match busy self, current_task self with
  | true, Some r =>
      match h !! r with
      | Some t =>
          let t' := decrement t in
          let h' := <[r := t']> h in
          if remaining_service_time t' <=? 0
          then Returned (complete_service self t', h')
          else Returned (self, h')
      | None => Raised StoreFault
      end
  | _, _ => Returned (self, h)
  end.

(** Second statement of [ServerAgent.step]. *)
Definition take_next (self : ServerAgent) (h : store) : ServerAgent * store :=
  if negb (busy self) then
    match queue self with
    | r :: q => begin_service r (with_queue q self) h
    | [] => (self, h)
    end
  else (self, h).

(** [ServerAgent.step()] *)
Definition ServerAgent_step (self : ServerAgent) (h : store)
    : result (ServerAgent * store) :=
  '(self1, h1) ← serve self h;
  Returned (take_next self1 h1).

Record QueueServerModel : Type := mkModel {
  num_servers : Z;
  task_arrival_rate : Q;
  max_steps : Z;
  running : bool;
  current_step : Z;
  servers : list ServerAgent;
  tasks : store                    (* the tasks added to the schedule *)
}.

(** [QueueServerModel.__init__]: no statement of it raises. *)
Definition QueueServerModel_init (n : Z) (arrival_rate : Q) (limit : Z)
    : result QueueServerModel :=
  Returned
    {| num_servers := n; task_arrival_rate := arrival_rate; max_steps := limit;
       running := true; current_step := 0;
       servers := (fun i => ServerAgent_init (Z.of_nat i)) <$> seq 0 (Z.to_nat n);
       tasks := [] |}.

(** [find_available_server()] *)
Definition find_available_server (svs : list ServerAgent) : option (nat * ServerAgent) :=
  first_index (fun s => negb (busy s)) 0%nat svs.

(** [queue.append(new_task)] *)
Definition enqueue (task : nat) (self : ServerAgent) : ServerAgent :=
  with_queue (queue self ++ [task]) self.

(** Lines 84-90 of [step]: hand the new task to a server. *)
Definition dispatch (task : nat) (svs : list ServerAgent) (h : store)
    : result (list ServerAgent * store) :=
  match find_available_server svs with
  | Some (i, s) =>
      let '(s', h') := begin_service task s h in
      Returned (<[i := s']> svs, h')
  | None =>
      j ← py_min (fun s => length (queue s)) svs;
      Returned (alter (enqueue task) j svs, h)
  end.

(** Lines 78-90 of [step]: the arrival, if one is drawn. *)
Definition arrive (d : Draws) (m : QueueServerModel)
    : result (list ServerAgent * store) :=
  if Qltb (arrival_draw d) (task_arrival_rate m) then
    let service_time := randint 2 10 (service_draw d) in
    let new_task := TaskAgent_init (current_step m) service_time in
    dispatch (length (tasks m)) (servers m) (tasks m ++ [new_task])
  else Returned (servers m, tasks m).

(** One activation of the server at position [k]. *)
Definition activate (k : nat) (svs : list ServerAgent) (h : store)
    : result (list ServerAgent * store) :=
  match svs !! k with
  | Some s => '(s', h') ← ServerAgent_step s h; Returned (<[k := s']> svs, h')
  | None => Returned (svs, h)
  end.

(** [self.schedule.step()] *)
Fixpoint schedule_step (order : list nat) (svs : list ServerAgent) (h : store)
    : result (list ServerAgent * store) :=
  match order with
  | [] => Returned (svs, h)
  | k :: order' =>
      '(svs', h') ← activate k svs h;
      schedule_step order' svs' h'
  end.

(** [QueueServerModel.step()] *)
Definition QueueServerModel_step (d : Draws) (m : QueueServerModel) : result QueueServerModel :=
  '(svs, h) ← arrive d m;
  '(svs', h') ← schedule_step (activation d) svs h;
  let clock := current_step m + 1 in
  Returned
    {| num_servers := num_servers m; task_arrival_rate := task_arrival_rate m;
       max_steps := max_steps m;
       running := if clock >=? max_steps m then false else running m;
       current_step := clock;
       servers := svs'; tasks := h' |}.

(** [get_queue_lengths()] and [get_busy_servers()] *)
Definition get_queue_lengths (m : QueueServerModel) : list nat :=
  (fun s => length (queue s)) <$> servers m.

Definition get_busy_servers (m : QueueServerModel) : nat :=
  length (filter (fun s => busy s = true) (servers m)).

(** [while model.running: model.step()].  The draws are consumed one per
    iteration; [None] when they run out before the loop ends. *)
Fixpoint main_loop (ds : list Draws) (m : QueueServerModel)
    : option (result QueueServerModel) :=
  if running m then
    match ds with
    | [] => None
    | d :: ds' =>
        match QueueServerModel_step d m with
        | Returned m' => main_loop ds' m'
        | Raised e => Some (Raised e)
        end
    end
  else Some (Returned m).

(** The states of a run. *)
Inductive reachable : QueueServerModel -> Prop :=
| reachable_init n a k m :
    QueueServerModel_init n a k = Returned m -> reachable m
| reachable_step d m m' :
    reachable m -> QueueServerModel_step d m = Returned m' -> reachable m'.

(** *** Vocabulary of the properties *)

(** A server is busy exactly when it has a current task. *)
Definition consistent (s : ServerAgent) : Prop :=
  busy s = true ↔ is_Some (current_task s).

End MesaPy.

(** ** The configurations the specification accepts *)

(** What the specification accepts as arguments of the constructor:
    [num_servers > 0], [arrival_rate] in [[0,1]], a positive service
    rate and [max_steps > 0]. *)
Definition spec_valid_configuration (n : Z) (arrival_rate service_rate : Q) (limit : Z)
    : Prop :=
  0 < n ∧ (0 <= arrival_rate)%Q ∧ (arrival_rate <= 1)%Q ∧
  (0 < service_rate)%Q ∧ 0 < limit.

(** ** mesa.py as server.py without its statistics *)

Definition erase_task (t : ServerPy.TaskAgent) : MesaPy.TaskAgent :=
  {| MesaPy.task_unique_id := ServerPy.task_unique_id t;
     MesaPy.initial_service_time := ServerPy.initial_service_time t;
     MesaPy.remaining_service_time := ServerPy.remaining_service_time t;
     MesaPy.assigned_server := ServerPy.assigned_server t |}.

Definition erase_server (s : ServerPy.ServerAgent) : MesaPy.ServerAgent :=
  {| MesaPy.unique_id := ServerPy.unique_id s;
     MesaPy.busy := ServerPy.busy s;
     MesaPy.current_task := ServerPy.current_task s;
     MesaPy.total_service_time := ServerPy.total_service_time s;
     MesaPy.queue := ServerPy.queue s |}.

Definition erase_local (p : ServerPy.ServerAgent * list ServerPy.TaskAgent)
    : MesaPy.ServerAgent * list MesaPy.TaskAgent :=
  (erase_server p.1, erase_task <$> p.2).

Definition erase_state (p : list ServerPy.ServerAgent * list ServerPy.TaskAgent)
    : list MesaPy.ServerAgent * list MesaPy.TaskAgent :=
  (erase_server <$> p.1, erase_task <$> p.2).

Definition erase_model (m : ServerPy.QueueServerModel) : MesaPy.QueueServerModel :=
  {| MesaPy.num_servers := ServerPy.num_servers m;
     MesaPy.task_arrival_rate := ServerPy.task_arrival_rate m;
     MesaPy.max_steps := ServerPy.max_steps m;
     MesaPy.running := ServerPy.running m;
     MesaPy.current_step := ServerPy.current_step m;
     MesaPy.servers := erase_server <$> ServerPy.servers m;
     MesaPy.tasks := erase_task <$> ServerPy.tasks m |}.

Definition result_map {A B : Type} (f : A -> B) (r : result A) : result B :=
  match r with
  | Returned a => Returned (f a)
  | Raised e => Raised e
  end.

(** The draws of [server.py] under which it creates the task that
    [mesa.py] creates from [d]. *)
Definition lift_draws (d : MesaPy.Draws) : ServerPy.Draws :=
  {| ServerPy.arrival_draw := MesaPy.arrival_draw d;
     ServerPy.service_draw := finite (inject_Z (randint 2 10 (MesaPy.service_draw d)));
     ServerPy.activation := MesaPy.activation d |}.

(** ** Scenarios *)

(** [QueueServerModel(1, 0.9, 0.4, 100)] of [server.py], as constructed. *)
Definition one_server : ServerPy.QueueServerModel :=
  ServerPy.mkModel 1 (9 # 10) (4 # 10) 100 true 0 0 0 0 [ServerPy.ServerAgent_init 0] [].

(** The draws of a step in which a task arrives ([random.random()] is 0)
    with service-time draw [x], and of a step without arrival
    ([random.random()] is 0.95). *)
Definition arrival (x : Q) (order : list nat) : ServerPy.Draws :=
  ServerPy.mkDraws 0 (finite x) order.

Definition no_arrival (order : list nat) : ServerPy.Draws :=
  ServerPy.mkDraws (19 # 20) (finite 0) order.

(** [one_server] after a first step in which a task of service time 2
    arrives: the server is busy with it and has served one tick. *)
Definition one_server_serving : ServerPy.QueueServerModel :=
  ServerPy.mkModel 1 (9 # 10) (4 # 10) 100 true 1 0 0 1
    [ServerPy.mkServerAgent 0 true (Some 0%nat) 0 [] 0]
    [ServerPy.mkTaskAgent 0 2 1 (Some 0) 0 0].

(** [one_server] after two steps in which tasks of service times 3 and 1
    arrive: the server is busy with the first and the second is queued. *)
Definition one_server_queueing : ServerPy.QueueServerModel :=
  ServerPy.mkModel 1 (9 # 10) (4 # 10) 100 true 2 0 1 2
    [ServerPy.mkServerAgent 0 true (Some 0%nat) 0 [1%nat] 0]
    [ServerPy.mkTaskAgent 0 3 1 (Some 0) 0 0;
     ServerPy.mkTaskAgent 1 1 1 None 1 0].

(** [QueueServerModel(2, 0.9, 0.4, 100)] of [server.py] after two steps
    in which tasks of service times 3 and 2 arrive: each server is busy
    with one of them. *)
Definition two_servers_serving : ServerPy.QueueServerModel :=
  ServerPy.mkModel 2 (9 # 10) (4 # 10) 100 true 2 0 1 2
    [ServerPy.mkServerAgent 0 true (Some 0%nat) 0 [] 0;
     ServerPy.mkServerAgent 1 true (Some 1%nat) 0 [] 0]
    [ServerPy.mkTaskAgent 0 3 1 (Some 0) 0 0;
     ServerPy.mkTaskAgent 1 2 1 (Some 1) 1 0].

(** [QueueServerModel(1, 0.7, 100)] of [mesa.py], as constructed, and the
    draws of a step in which a task arrives. *)
Definition one_server_mesa : MesaPy.QueueServerModel :=
  MesaPy.mkModel 1 (7 # 10) 100 true 0 [MesaPy.ServerAgent_init 0] [].

Definition arrival_mesa (raw : Z) (order : list nat) : MesaPy.Draws :=
  MesaPy.mkDraws 0 raw order.

(** [one_server_mesa] after a first step in which a task arrives, the
    generator drawing 0: [randint(2, 10)] is 2. *)
Definition one_server_mesa_serving : MesaPy.QueueServerModel :=
  MesaPy.mkModel 1 (7 # 10) 100 true 1
    [MesaPy.mkServerAgent 0 true (Some 0%nat) 0 []]
    [MesaPy.mkTaskAgent 0 2 1 (Some 0)].

(** * Properties *)

(** ** The outcome monad and the two scans *)

Lemma bind_Returned {A B : Type} (f : A -> result B) (r : result A) (b : B) :
  r ≫= f = Returned b ↔ ∃ a, r = Returned a ∧ f a = Returned b.
Proof.
  destruct r as [a|e]; simpl; split.
  - intros H. by exists a.
  - by intros (a' & [= ->] & H).
  - discriminate.
  - by intros (a' & H & _).
Qed.

(** Invert the hypotheses that a sequence of calls returned. *)
Ltac returned :=
  repeat match goal with
  | H : _ ≫= _ = Returned _ |- _ =>
      apply bind_Returned in H; destruct H as (? & ? & ?)
  | p : (_ * _)%type |- _ => destruct p
  end; simplify_eq/=.

(** Case analysis on a lookup in an updated list. *)
Ltac insert_cases H :=
  apply list_lookup_insert_Some in H;
  destruct H as [(<- & <- & ?)|[? H]].

Lemma first_index_Some {A : Type} (p : A -> bool) (l : list A) (i j : nat) (x : A) :
  first_index p i l = Some (j, x) →
  ∃ k, j = (i + k)%nat ∧ l !! k = Some x ∧ p x = true ∧
       ∀ k' y, (k' < k)%nat → l !! k' = Some y → p y = false.
Proof.
  revert i. induction l as [|a l IH]; intros i; simpl; [done|].
  destruct (p a) eqn:Hp.
  - intros [= <- <-]. exists 0%nat. repeat split; [lia|done|lia].
  - intros H. destruct (IH _ H) as (k & -> & Hk & Hx & Hlt).
    exists (S k). repeat split; [lia|done..|].
    intros [|k'] y Hk' Hy; simpl in Hy; [by simplify_eq|].
    apply (Hlt k'); [lia|done].
Qed.

Lemma first_index_None {A : Type} (p : A -> bool) (l : list A) (i : nat) :
  first_index p i l = None ↔ Forall (λ x, p x = false) l.
Proof.
  revert i. induction l as [|a l IH]; intros i; simpl.
  - split; [constructor|done].
  - destruct (p a) eqn:Hp.
    + split; [done|]. intros H. inversion H; congruence.
    + rewrite IH. split; [by constructor|]. by inversion 1.
Qed.

(** [min_scan] returns the position of the first minimum of the keys,
    the element already held counting as the earliest. *)
Lemma min_scan_spec {A : Type} (key : A -> nat) (l : list A) (best bk i : nat) :
  (best < i)%nat →
  let j := min_scan key best bk i l in
  (j = best ∧ Forall (λ x, (bk ≤ key x)%nat) l) ∨
  (∃ x, l !! (j - i)%nat = Some x ∧ (i ≤ j)%nat ∧ (key x < bk)%nat ∧
        Forall (λ y, (key x ≤ key y)%nat) l ∧
        ∀ k y, (k < j - i)%nat → l !! k = Some y → (key x < key y)%nat).
Proof.
  revert best bk i. induction l as [|a l IH]; intros best bk i Hlt; simpl.
  - left. by split.
  - destruct (Nat.ltb_spec (key a) bk) as [Hk|Hk].
    + destruct (IH i (key a) (S i) ltac:(lia)) as [[-> Hall]|(x & Hx & Hle & Hkx & Hall & Hfirst)].
      * right. exists a. rewrite Nat.sub_diag. simpl.
        repeat split; [lia|done| |intros; lia].
        constructor; [lia|done].
      * right. exists x.
        replace (min_scan key i (key a) (S i) l - i)%nat
          with (S (min_scan key i (key a) (S i) l - S i)) by lia.
        simpl. repeat split; [done|lia|lia| |].
        -- constructor; [lia|done].
        -- intros [|k] y Hk' Hy; simpl in Hy; [simplify_eq; lia|].
           apply (Hfirst k); [lia|done].
    + destruct (IH best bk (S i) ltac:(lia)) as [[-> Hall]|(x & Hx & Hle & Hkx & Hall & Hfirst)].
      * left. split; [done|]. by constructor.
      * right. exists x.
        replace (min_scan key best bk (S i) l - i)%nat
          with (S (min_scan key best bk (S i) l - S i)) by lia.
        simpl. repeat split; [done|lia|lia| |].
        -- constructor; [lia|done].
        -- intros [|k] y Hk' Hy; simpl in Hy; [simplify_eq; lia|].
           apply (Hfirst k); [lia|done].
Qed.

(** [min] returns the first element of least key. *)
Lemma py_min_spec {A : Type} (key : A -> nat) (l : list A) :
  l ≠ [] →
  ∃ j x, py_min key l = Returned j ∧ l !! j = Some x ∧
         (∀ k y, l !! k = Some y → (key x ≤ key y)%nat) ∧
         (∀ k y, (k < j)%nat → l !! k = Some y → (key x < key y)%nat).
Proof.
  destruct l as [|a l]; [done|]. intros _. simpl.
  destruct (min_scan_spec key l 0%nat (key a) 1%nat ltac:(lia))
    as [[-> Hall]|(x & Hx & Hle & Hkx & Hall & Hfirst)].
  - exists 0%nat, a. repeat split; [|intros; lia].
    intros [|k] y Hy; simpl in Hy; [by simplify_eq|].
    by apply (Forall_lookup_1 _ _ _ _ Hall Hy).
  - set (j := min_scan key 0%nat (key a) 1%nat l) in *.
    exists j, x. destruct j as [|j]; [lia|]. simpl in *.
    rewrite Nat.sub_0_r in Hx, Hfirst. repeat split; [done| |].
    + intros [|k] y Hy; simpl in Hy; [simplify_eq; lia|].
      by apply (Forall_lookup_1 _ _ _ _ Hall Hy).
    + intros [|k] y Hk Hy; simpl in Hy; [simplify_eq; lia|].
      apply (Hfirst k); [lia|done].
Qed.

(** ** server.py: the state between two calls is well formed *)

Section ServerPyFacts.
Import ServerPy.

Lemma serve_cases s h s1 h1 :
  serve s h = Returned (s1, h1) →
  (s1 = s ∧ h1 = h ∧ (busy s = false ∨ current_task s = None)) ∨
  (∃ r t, busy s = true ∧ current_task s = Some r ∧ h !! r = Some t ∧
          h1 = <[r := decrement t]> h ∧
          ((remaining_service_time t - 1 ≤ 0 ∧ s1 = complete_service s (decrement t)) ∨
           (0 < remaining_service_time t - 1 ∧ s1 = s))).
Proof.
  unfold serve. intros H.
  destruct (busy s) eqn:Hb; [|returned; auto].
  destruct (current_task s) as [r|] eqn:Hc; [|returned; auto].
  destruct (h !! r) as [t|] eqn:Ht; [|done].
  right. exists r, t. simpl in H.
  destruct (Z.leb_spec (remaining_service_time t - 1) 0); returned; auto 10.
Qed.

Lemma take_next_cases clock s h s2 h2 :
  take_next clock s h = (s2, h2) →
  (s2 = s ∧ h2 = h ∧ (busy s = true ∨ queue s = [])) ∨
  (∃ r q, busy s = false ∧ queue s = r :: q ∧
          (s2, h2) = begin_service clock r (with_queue q s) h).
Proof.
  unfold take_next. intros H.
  destruct (busy s) eqn:Hb; simpl in H; [returned; auto|].
  destruct (queue s) as [|r q] eqn:Hq; [returned; auto|].
  right. by exists r, q.
Qed.

Lemma ServerAgent_step_inv clock s h s' h' :
  ServerAgent_step clock s h = Returned (s', h') →
  ∃ s1 h1, serve s h = Returned (s1, h1) ∧ take_next clock s1 h1 = (s', h').
Proof.
  unfold ServerAgent_step. intros H. returned. eauto.
Qed.

Lemma refs_complete_service s t :
  refs (complete_service s t) = queue s.
Proof. done. Qed.

Lemma elem_of_refs s r :
  r ∈ refs s ↔ current_task s = Some r ∨ r ∈ queue s.
Proof.
  unfold refs. rewrite elem_of_app. destruct (current_task s) as [c|]; simpl.
  - rewrite list_elem_of_singleton.
    split; intros [H|H]; [left; by subst|by right|left; by injection H|by right].
  - rewrite elem_of_nil. split; intros [H|H]; try done; by right.
Qed.

Lemma well_formed_serve svs h k s s1 h1 :
  well_formed svs h → svs !! k = Some s → serve s h = Returned (s1, h1) →
  well_formed (<[k := s1]> svs) h1.
Proof.
  intros Hwf Hk Hs.
  destruct (serve_cases _ _ _ _ Hs) as [(-> & -> & _)|(r & t & Hb & Hc & Ht & -> & Hs1)].
  { by rewrite list_insert_id. }
  assert (Hrs : ∀ x, x ∈ refs s1 → x ∈ refs s).
  { intros x. destruct Hs1 as [[_ ->]|[_ ->]]; [|done].
    rewrite refs_complete_service, elem_of_refs. auto. }
  assert (Hqs : queue s1 = queue s) by (by destruct Hs1 as [[_ ->]|[_ ->]]).
  assert (Hnd : NoDup (refs s)) by eauto using wf_nodup.
  assert (Hrq : r ∉ queue s).
  { unfold refs in Hnd. rewrite Hc in Hnd. simpl in Hnd. by inversion Hnd. }
  assert (Hother : ∀ i x, i ≠ k → svs !! i = Some x → r ∉ refs x).
  { intros i x Hik Hi Hr. apply Hik.
    eapply (wf_owner _ _ Hwf); [exact Hi|exact Hk|exact Hr|].
    apply elem_of_refs. auto. }
  split.
  - intros i x Hi. insert_cases Hi; [|by eapply wf_consistent].
    destruct Hs1 as [[_ ->]|[_ ->]]; [|by eapply wf_consistent].
    unfold consistent. simpl. split; [done|]. by intros [? ?].
  - intros i x Hi. insert_cases Hi; [|by eapply wf_ids].
    replace (unique_id s1) with (unique_id s) by (by destruct Hs1 as [[_ ->]|[_ ->]]).
    by eapply wf_ids.
  - intros i x r' Hi Hr'. rewrite length_insert.
    insert_cases Hi; eapply (wf_bound _ _ Hwf); eauto.
  - intros i x Hi. insert_cases Hi; [|by eapply wf_nodup].
    destruct Hs1 as [[_ ->]|[_ ->]]; [|done].
    rewrite refs_complete_service. unfold refs in Hnd. rewrite Hc in Hnd.
    by inversion Hnd.
  - intros i j x x' r' Hi Hj Hx Hx'.
    insert_cases Hi; insert_cases Hj; try done.
    + by eapply (wf_owner _ _ Hwf); eauto.
    + by eapply (wf_owner _ _ Hwf); eauto.
    + by eapply (wf_owner _ _ Hwf); eauto.
  - intros i x r' t' Hi Hcx Hr'.
    apply list_lookup_insert_Some in Hr'. destruct Hr' as [(<- & <- & ?)|[Hne Hr']].
    + simpl. destruct (wf_current _ _ Hwf _ _ _ _ Hk Hc Ht) as [?|?]; [|].
      * insert_cases Hi.
        -- destruct Hs1 as [[_ ->]|[? ->]]; [done|]. left; lia.
        -- exfalso. eapply Hother; [done..|]. apply elem_of_refs. auto.
      * insert_cases Hi.
        -- destruct Hs1 as [[_ ->]|[? ->]]; [done|]. left; lia.
        -- exfalso. eapply Hother; [done..|]. apply elem_of_refs. auto.
    + insert_cases Hi; [|by eapply wf_current].
      destruct Hs1 as [[_ ->]|[_ ->]]; [done|]. by eapply wf_current.
  - intros i x r' t' Hi Hqx Hr'.
    apply list_lookup_insert_Some in Hr'. destruct Hr' as [(<- & <- & ?)|[Hne Hr']].
    + exfalso. insert_cases Hi.
      * apply Hrq. by rewrite <- Hqs.
      * eapply Hother; [done..|]. apply elem_of_refs. auto.
    + insert_cases Hi; [|by eapply wf_queued].
      rewrite Hqs in Hqx. by eapply wf_queued.
  - intros r' t' Hr'.
    apply list_lookup_insert_Some in Hr'. destruct Hr' as [(<- & <- & ?)|[Hne Hr']];
      [|by eapply wf_floor].
    simpl. destruct (wf_current _ _ Hwf _ _ _ _ Hk Hc Ht); lia.
Qed.

Lemma alter_as_insert {A : Type} (f : A → A) (l : list A) (j : nat) (x : A) :
  l !! j = Some x → alter f j l = <[j := f x]> l.
Proof.
  intros Hj. apply list_eq. intros i.
  rewrite list_lookup_alter, list_lookup_insert.
  pose proof (lookup_lt_Some _ _ _ Hj) as Hlt.
  destruct (decide (j = i)) as [->|Hne].
  - rewrite Hj. simpl. by rewrite decide_True.
  - rewrite decide_False; [done|]. by intros [? _].
Qed.

Lemma lookup_alter_Some {A : Type} (f : A → A) (l : list A) (i j : nat) (y : A) :
  alter f i l !! j = Some y →
  (i = j ∧ ∃ x, l !! j = Some x ∧ y = f x) ∨ (i ≠ j ∧ l !! j = Some y).
Proof.
  rewrite list_lookup_alter. case_decide; [subst|by auto].
  destruct (l !! j) as [x|]; simpl; [|done]. intros [= <-]. eauto.
Qed.

Lemma well_formed_begin svs h k s r q clock :
  well_formed svs h → svs !! k = Some s → busy s = false → queue s = r :: q →
  well_formed (<[k := (begin_service clock r (with_queue q s) h).1]> svs)
              (begin_service clock r (with_queue q s) h).2.
Proof.
  intros Hwf Hk Hb Hq. simpl.
  set (s2 := mkServerAgent _ _ _ _ _ _).
  assert (Hc : current_task s = None).
  { destruct (wf_consistent _ _ Hwf _ _ Hk) as [_ Hcons].
    destruct (current_task s); [|done]. rewrite Hcons in Hb; [done|eauto]. }
  assert (Hrefs : refs s2 = refs s).
  { unfold refs, s2. simpl. by rewrite Hc, Hq. }
  assert (Hnd : NoDup (r :: q)).
  { rewrite <- Hq. pose proof (wf_nodup _ _ Hwf _ _ Hk) as Hn.
    unfold refs in Hn. by rewrite Hc in Hn. }
  assert (Hrs : r ∈ refs s) by (apply elem_of_refs; rewrite Hq; right; left).
  assert (Hother : ∀ i x, i ≠ k → svs !! i = Some x → r ∉ refs x).
  { intros i x Hik Hi Hr. apply Hik. by eapply (wf_owner _ _ Hwf). }
  split.
  - intros i x Hi. insert_cases Hi; [|by eapply wf_consistent].
    unfold consistent, s2. simpl. split; eauto.
  - intros i x Hi. insert_cases Hi; [|by eapply wf_ids]. simpl. by eapply wf_ids.
  - intros i x r' Hi Hr'. rewrite length_alter.
    insert_cases Hi; [rewrite Hrefs in Hr'|]; by eapply (wf_bound _ _ Hwf).
  - intros i x Hi. insert_cases Hi; [rewrite Hrefs|]; by eapply wf_nodup.
  - intros i j x x' r' Hi Hj Hx Hx'.
    insert_cases Hi; insert_cases Hj; try done;
      rewrite ?Hrefs in *; by eapply (wf_owner _ _ Hwf).
  - intros i x r' t' Hi Hcx Hr'.
    apply lookup_alter_Some in Hr'. destruct Hr' as [(<- & t & Ht & ->)|[Hne Hr']].
    + simpl. right. eapply (wf_queued _ _ Hwf); [exact Hk| |exact Ht].
      rewrite Hq. left.
    + insert_cases Hi; [simpl in Hcx; congruence|by eapply wf_current].
  - intros i x r' t' Hi Hqx Hr'.
    apply lookup_alter_Some in Hr'. destruct Hr' as [(<- & t & Ht & ->)|[Hne Hr']].
    + exfalso. insert_cases Hi.
      * simpl in Hqx. by inversion Hnd.
      * eapply Hother; [done..|]. apply elem_of_refs. auto.
    + insert_cases Hi; [|by eapply wf_queued].
      simpl in Hqx. eapply (wf_queued _ _ Hwf); [exact Hk| |done].
      rewrite Hq. by right.
  - intros r' t' Hr'.
    apply lookup_alter_Some in Hr'. destruct Hr' as [(<- & t & Ht & ->)|[Hne Hr']];
      [simpl|]; by eapply wf_floor.
Qed.

Lemma well_formed_take_next svs h k s clock s2 h2 :
  well_formed svs h → svs !! k = Some s → take_next clock s h = (s2, h2) →
  well_formed (<[k := s2]> svs) h2.
Proof.
  intros Hwf Hk Ht.
  destruct (take_next_cases _ _ _ _ _ Ht) as [(-> & -> & _)|(r & q & Hb & Hq & Heq)].
  { by rewrite list_insert_id. }
  pose proof (well_formed_begin _ _ _ _ _ _ clock Hwf Hk Hb Hq) as H.
  by rewrite <- Heq in H.
Qed.

Lemma well_formed_activate svs h k clock svs' h' :
  well_formed svs h → activate clock k svs h = Returned (svs', h') →
  well_formed svs' h'.
Proof.
  unfold activate. intros Hwf H.
  destruct (svs !! k) as [s|] eqn:Hk; [|by returned].
  returned.
  match goal with H : ServerAgent_step _ _ _ = _ |- _ =>
    destruct (ServerAgent_step_inv _ _ _ _ _ H) as (s1 & h1 & Hs & Ht) end.
  pose proof (well_formed_serve _ _ _ _ _ _ Hwf Hk Hs) as Hwf1.
  assert (Hk1 : <[k := s1]> svs !! k = Some s1).
  { apply list_lookup_insert_eq. by eapply lookup_lt_Some. }
  pose proof (well_formed_take_next _ _ _ _ _ _ _ Hwf1 Hk1 Ht) as Hwf2.
  by rewrite list_insert_insert_eq in Hwf2.
Qed.

Lemma well_formed_schedule_step order : ∀ svs h clock svs' h',
  well_formed svs h → schedule_step clock order svs h = Returned (svs', h') →
  well_formed svs' h'.
Proof.
  induction order as [|k order IH]; intros svs h clock svs' h' Hwf H; simpl in H.
  - by returned.
  - returned. eauto using well_formed_activate.
Qed.

Lemma well_formed_alloc svs h t :
  well_formed svs h → remaining_service_time t = initial_service_time t →
  well_formed svs (h ++ [t]).
Proof.
  intros Hwf Ht.
  assert (Hold : ∀ i s r t', svs !! i = Some s → r ∈ refs s →
                 (h ++ [t]) !! r = Some t' → h !! r = Some t').
  { intros i s r t' Hi Hr. rewrite lookup_app_l; [done|]. by eapply (wf_bound _ _ Hwf). }
  split.
  - by eapply wf_consistent.
  - by eapply wf_ids.
  - intros i s r Hi Hr. rewrite length_app. simpl.
    pose proof (wf_bound _ _ Hwf _ _ _ Hi Hr). lia.
  - by eapply wf_nodup.
  - by eapply wf_owner.
  - intros i s r t' Hi Hc Hr. eapply (wf_current _ _ Hwf); [done..|].
    eapply Hold; [done| |done]. apply elem_of_refs. auto.
  - intros i s r t' Hi Hq Hr. eapply (wf_queued _ _ Hwf); [done..|].
    eapply Hold; [done| |done]. apply elem_of_refs. auto.
  - intros r t' Hr. apply lookup_app_Some in Hr.
    destruct Hr as [Hr|[_ Hr]]; [by eapply wf_floor|].
    apply list_lookup_singleton_Some in Hr. destruct Hr as [_ <-]. lia.
Qed.

Lemma well_formed_assign svs h k s r t clock :
  well_formed svs h → (∀ i x, svs !! i = Some x → r ∉ refs x) →
  h !! r = Some t → remaining_service_time t = initial_service_time t →
  svs !! k = Some s → busy s = false →
  well_formed (<[k := (begin_service clock r s h).1]> svs) (begin_service clock r s h).2.
Proof.
  intros Hwf Hfresh Hr Ht Hk Hb. simpl.
  set (s2 := mkServerAgent _ _ _ _ _ _).
  assert (Hc : current_task s = None).
  { destruct (wf_consistent _ _ Hwf _ _ Hk) as [_ Hcons].
    destruct (current_task s); [|done]. rewrite Hcons in Hb; [done|eauto]. }
  assert (Hrefs : refs s2 = r :: refs s).
  { unfold refs, s2. simpl. by rewrite Hc. }
  split.
  - intros i x Hi. insert_cases Hi; [|by eapply wf_consistent].
    unfold consistent, s2. simpl. split; eauto.
  - intros i x Hi. insert_cases Hi; [|by eapply wf_ids]. simpl. by eapply wf_ids.
  - intros i x r' Hi Hr'. rewrite length_alter.
    insert_cases Hi; [|by eapply (wf_bound _ _ Hwf)].
    rewrite Hrefs in Hr'. apply elem_of_cons in Hr'. destruct Hr' as [->|Hr'].
    + by eapply lookup_lt_Some.
    + by eapply (wf_bound _ _ Hwf).
  - intros i x Hi. insert_cases Hi; [|by eapply wf_nodup].
    rewrite Hrefs. constructor; [by eapply Hfresh|by eapply wf_nodup].
  - intros i j x x' r' Hi Hj Hx Hx'.
    insert_cases Hi; insert_cases Hj; try done; rewrite ?Hrefs in *;
      repeat match goal with
      | H : _ ∈ _ :: _ |- _ => apply elem_of_cons in H; destruct H as [->|H]
      end; try (by eapply (wf_owner _ _ Hwf)); exfalso; by eapply Hfresh.
  - intros i x r' t' Hi Hcx Hr'.
    apply lookup_alter_Some in Hr'. destruct Hr' as [(<- & t0 & Ht0 & ->)|[Hne Hr']].
    + simpl. right. congruence.
    + insert_cases Hi; [simpl in Hcx; congruence|by eapply wf_current].
  - intros i x r' t' Hi Hqx Hr'.
    apply lookup_alter_Some in Hr'. destruct Hr' as [(<- & t0 & Ht0 & ->)|[Hne Hr']].
    + exfalso. insert_cases Hi.
      * simpl in Hqx. eapply Hfresh; [exact Hk|]. apply elem_of_refs. auto.
      * eapply Hfresh; [done|]. apply elem_of_refs. auto.
    + insert_cases Hi; [|by eapply wf_queued].
      simpl in Hqx. by eapply (wf_queued _ _ Hwf).
  - intros r' t' Hr'.
    apply lookup_alter_Some in Hr'. destruct Hr' as [(<- & t0 & Ht0 & ->)|[Hne Hr']];
      [simpl|]; by eapply wf_floor.
Qed.

Lemma well_formed_enqueue svs h j s r t :
  well_formed svs h → (∀ i x, svs !! i = Some x → r ∉ refs x) →
  h !! r = Some t → remaining_service_time t = initial_service_time t →
  assigned_server t = None → svs !! j = Some s →
  well_formed (<[j := enqueue r s]> svs) h.
Proof.
  intros Hwf Hfresh Hr Ht Ha Hj.
  assert (Hrefs : ∀ x, x ∈ refs (enqueue r s) ↔ x ∈ refs s ∨ x = r).
  { intros x. unfold refs, enqueue. simpl.
    rewrite !elem_of_app, list_elem_of_singleton. tauto. }
  split.
  - intros i x Hi. insert_cases Hi; [|by eapply wf_consistent].
    apply (wf_consistent _ _ Hwf _ _ Hj).
  - intros i x Hi. insert_cases Hi; [|by eapply wf_ids]. simpl. by eapply wf_ids.
  - intros i x r' Hi Hr'.
    insert_cases Hi; [|by eapply (wf_bound _ _ Hwf)].
    apply Hrefs in Hr'. destruct Hr' as [Hr'| ->].
    + by eapply (wf_bound _ _ Hwf).
    + by eapply lookup_lt_Some.
  - intros i x Hi. insert_cases Hi; [|by eapply wf_nodup].
    unfold refs, enqueue. simpl. rewrite app_assoc. apply NoDup_app.
    split; [by eapply (wf_nodup _ _ Hwf)|]. split; [|apply NoDup_singleton].
    intros x Hx Hx'. apply list_elem_of_singleton in Hx'. subst x.
    by eapply Hfresh.
  - intros i i' x x' r' Hi Hi' Hx Hx'.
    insert_cases Hi; insert_cases Hi'; try done;
      repeat match goal with
      | H : _ ∈ refs (enqueue _ _) |- _ => apply Hrefs in H; destruct H as [H| ->]
      end; try (by eapply (wf_owner _ _ Hwf)); exfalso; by eapply Hfresh.
  - intros i x r' t' Hi Hcx Hr'.
    insert_cases Hi; by eapply (wf_current _ _ Hwf).
  - intros i x r' t' Hi Hqx Hr'.
    insert_cases Hi; [|by eapply wf_queued].
    simpl in Hqx. apply elem_of_app in Hqx. destruct Hqx as [Hqx|Hqx].
    + by eapply (wf_queued _ _ Hwf).
    + apply list_elem_of_singleton in Hqx. subst r'. by simplify_eq.
  - by eapply wf_floor.
Qed.

Lemma find_available_server_Some svs i s :
  find_available_server svs = Some (i, s) →
  svs !! i = Some s ∧ busy s = false ∧
  ∀ k y, (k < i)%nat → svs !! k = Some y → busy y = true.
Proof.
  intros H. apply first_index_Some in H. destruct H as (k & -> & Hk & Hb & Hlt).
  simpl. split; [done|]. split; [by destruct (busy s)|].
  intros k' y Hk' Hy. specialize (Hlt k' y Hk' Hy). by destruct (busy y).
Qed.

Lemma find_available_server_None svs :
  find_available_server svs = None →
  ∀ k y, svs !! k = Some y → busy y = true.
Proof.
  intros H k y Hy. apply first_index_None in H.
  pose proof (Forall_lookup_1 _ _ _ _ H Hy) as Hb. simpl in Hb. by destruct (busy y).
Qed.

Lemma py_min_Returned {A : Type} (key : A → nat) (l : list A) (j : nat) :
  py_min key l = Returned j →
  ∃ x, l !! j = Some x ∧
       (∀ k y, l !! k = Some y → (key x ≤ key y)%nat) ∧
       (∀ k y, (k < j)%nat → l !! k = Some y → (key x < key y)%nat).
Proof.
  intros H. destruct (decide (l = [])) as [->|Hne]; [done|].
  destruct (py_min_spec key l Hne) as (j' & x & Hj' & Hx). 
  rewrite H in Hj'. injection Hj' as ->. eauto.
Qed.

Lemma dispatch_cases clock r svs h svs' h' :
  dispatch clock r svs h = Returned (svs', h') →
  (∃ i s, find_available_server svs = Some (i, s) ∧
          svs' = <[i := (begin_service clock r s h).1]> svs ∧
          h' = (begin_service clock r s h).2) ∨
  (∃ j s, find_available_server svs = None ∧
          py_min (λ s, length (queue s)) svs = Returned j ∧ svs !! j = Some s ∧
          svs' = <[j := enqueue r s]> svs ∧ h' = h).
Proof.
  unfold dispatch. intros H.
  destruct (find_available_server svs) as [[i s]|] eqn:Hf.
  - left. exists i, s. simpl in H. by injection H as <- <-.
  - right. apply bind_Returned in H. destruct H as (j & Hj & H).
    injection H as <- <-.
    destruct (py_min_Returned _ _ _ Hj) as (s & Hs & _).
    exists j, s. by rewrite (alter_as_insert _ _ _ _ Hs).
Qed.

Lemma well_formed_dispatch clock r t svs h svs' h' :
  well_formed svs h → (∀ i x, svs !! i = Some x → r ∉ refs x) →
  h !! r = Some t → remaining_service_time t = initial_service_time t →
  assigned_server t = None →
  dispatch clock r svs h = Returned (svs', h') →
  well_formed svs' h'.
Proof.
  intros Hwf Hfresh Hr Ht Ha H.
  destruct (dispatch_cases _ _ _ _ _ _ H)
    as [(i & s & Hf & -> & ->)|(j & s & _ & _ & Hj & -> & ->)].
  - destruct (find_available_server_Some _ _ _ Hf) as (Hi & Hb & _).
    by eapply well_formed_assign.
  - by eapply well_formed_enqueue.
Qed.

Lemma arrive_cases d m n svs h :
  arrive d m = Returned (n, svs, h) →
  (Qltb (arrival_draw d) (task_arrival_rate m) = false ∧
   n = total_tasks m ∧ svs = servers m ∧ h = tasks m) ∨
  (∃ x, service_draw d = finite x ∧
   Qltb (arrival_draw d) (task_arrival_rate m) = true ∧
   Qeq_bool (task_service_rate m) 0 = false ∧
   n = total_tasks m + 1 ∧
   dispatch (current_step m) (length (tasks m)) (servers m)
     (tasks m ++ [TaskAgent_init (current_step m) (current_step m)
                    (truncate x)]) = Returned (svs, h)).
Proof.
  unfold arrive, expovariate. intros H.
  destruct (Qltb _ _); [|left; by injection H as <- <- <-].
  right. destruct (Qeq_bool _ _); [done|]. simpl in H.
  destruct (service_draw d) as [x| |]; [|done..]. simpl in H.
  apply bind_Returned in H. destruct H as ([svs0 h0] & Hd & H).
  exists x. by injection H as <- <- <-.
Qed.

Lemma well_formed_arrive d m n svs h :
  well_formed (servers m) (tasks m) → arrive d m = Returned (n, svs, h) →
  well_formed svs h.
Proof.
  intros Hwf H.
  destruct (arrive_cases _ _ _ _ _ H) as [(_ & _ & -> & ->)|(x0 & _ & _ & _ & _ & Hd)]; [done|].
  eapply well_formed_dispatch; [| | | | |exact Hd].
  - by apply well_formed_alloc.
  - intros i x Hi Hr. pose proof (wf_bound _ _ Hwf _ _ _ Hi Hr). lia.
  - by apply list_lookup_middle.
  - done.
  - done.
Qed.

Lemma QueueServerModel_step_inv d m m' :
  QueueServerModel_step d m = Returned m' →
  ∃ n svs h,
    arrive d m = Returned (n, svs, h) ∧
    schedule_step (current_step m) (activation d) svs h
      = Returned (servers m', tasks m') ∧
    total_tasks m' = n ∧
    current_step m' = current_step m + 1 ∧
    (total_queue_wait_time m', total_time_in_system m')
      = collect (current_step m) (tasks m')
          (total_queue_wait_time m, total_time_in_system m) ∧
    num_servers m' = num_servers m ∧
    task_arrival_rate m' = task_arrival_rate m ∧
    task_service_rate m' = task_service_rate m ∧
    max_steps m' = max_steps m ∧
    running m' = (if current_step m + 1 >=? max_steps m then false else running m).
Proof.
  unfold QueueServerModel_step. intros H.
  apply bind_Returned in H. destruct H as ([[n svs] h] & Ha & H).
  apply bind_Returned in H. destruct H as ([svs' h'] & Hs & H).
  destruct (collect _ _ _) as [qw ts] eqn:Hc.
  injection H as <-. simpl. rewrite Hc. exists n, svs, h. by repeat split.
Qed.

Lemma well_formed_step d m m' :
  well_formed (servers m) (tasks m) → QueueServerModel_step d m = Returned m' →
  well_formed (servers m') (tasks m').
Proof.
  intros Hwf H.
  destruct (QueueServerModel_step_inv _ _ _ H) as (n & svs & h & Ha & Hs & _).
  eauto using well_formed_arrive, well_formed_schedule_step.
Qed.

Lemma well_formed_init n a s k m :
  QueueServerModel_init n a s k = Returned m →
  well_formed (servers m) (tasks m).
Proof.
  intros [= <-]. simpl.
  assert (Hl : ∀ i x, ((λ i, ServerAgent_init (Z.of_nat i)) <$> seq 0 (Z.to_nat n)) !! i
                 = Some x → x = ServerAgent_init (Z.of_nat i)).
  { intros i x Hi. rewrite list_lookup_fmap in Hi.
    destruct (seq 0 (Z.to_nat n) !! i) as [j|] eqn:Hj; [|done].
    apply lookup_seq in Hj. destruct Hj as [-> _]. by injection Hi as <-. }
  split.
  - intros i x Hi. rewrite (Hl _ _ Hi). unfold consistent. simpl.
    split; [done|]. by intros [? ?].
  - intros i x Hi. by rewrite (Hl _ _ Hi).
  - intros i x r Hi. rewrite (Hl _ _ Hi). unfold refs. simpl. by rewrite elem_of_nil.
  - intros i x Hi. rewrite (Hl _ _ Hi). unfold refs. simpl. constructor.
  - intros i j x x' r Hi _. rewrite (Hl _ _ Hi). unfold refs. simpl. by rewrite elem_of_nil.
  - intros i x r t _ _ Hr. done.
  - intros i x r t _ _ Hr. done.
  - intros r t Hr. done.
Qed.

Lemma reachable_well_formed m :
  reachable m → well_formed (servers m) (tasks m).
Proof.
  induction 1; eauto using well_formed_init, well_formed_step.
Qed.

End ServerPyFacts.

(** ** One activation of a server *)

Section ServerPyStep.
Import ServerPy.

Lemma remaining_begin_service clock r s h :
  remaining_service_time <$> (begin_service clock r s h).2 = remaining_service_time <$> h.
Proof.
  simpl. rewrite (list_fmap_alter _ _ id); [by apply list_alter_id|].
  by apply Forall_true.
Qed.

Lemma remaining_take_next clock s h :
  remaining_service_time <$> (take_next clock s h).2 = remaining_service_time <$> h.
Proof.
  unfold take_next. destruct (busy s); simpl; [done|].
  destruct (queue s); [done|]. apply remaining_begin_service.
Qed.

Lemma queue_take_next clock s h :
  queue (take_next clock s h).1 = queue s ∨
  ∃ r, queue s = r :: queue (take_next clock s h).1.
Proof.
  unfold take_next. destruct (busy s); simpl; [by left|].
  destruct (queue s) as [|r q] eqn:Hq; simpl; [by left|]. right. by exists r.
Qed.

Lemma queue_serve s h s1 h1 :
  serve s h = Returned (s1, h1) → queue s1 = queue s.
Proof.
  intros H. destruct (serve_cases _ _ _ _ H)
    as [(-> & _)|(r & t & _ & _ & _ & _ & [[_ ->]|[_ ->]])]; done.
Qed.

Lemma ServerAgent_step_spec clock s h :
  (∀ r, current_task s = Some r → is_Some (h !! r)) →
  ∃ s' h', ServerAgent_step clock s h = Returned (s', h') ∧
    (busy s = false ∨ current_task s = None →
       remaining_service_time <$> h' = remaining_service_time <$> h) ∧
    (∀ r t, busy s = true → current_task s = Some r → h !! r = Some t →
       remaining_service_time <$> h'
         = <[r := remaining_service_time t - 1]> (remaining_service_time <$> h)) ∧
    (busy s = true → current_task s = None → s' = s ∧ h' = h) ∧
    (busy s = false → queue s = [] → s' = s ∧ h' = h) ∧
    (queue s' = queue s ∨ ∃ r, queue s = r :: queue s').
Proof.
  intros Hvalid. unfold ServerAgent_step.
  assert (Hserve : ∃ s1 h1, serve s h = Returned (s1, h1)).
  { unfold serve. destruct (busy s); [|eauto].
    destruct (current_task s) as [r|] eqn:Hc; [|eauto].
    destruct (Hvalid r eq_refl) as [t ->]. simpl. case_match; eauto. }
  destruct Hserve as (s1 & h1 & Hs). rewrite Hs. simpl.
  destruct (take_next clock s1 h1) as [s' h'] eqn:Ht.
  exists s', h'. split; [done|].
  pose proof (remaining_take_next clock s1 h1) as Hrem. rewrite Ht in Hrem. simpl in Hrem.
  pose proof (queue_take_next clock s1 h1) as Hq. rewrite Ht in Hq. simpl in Hq.
  rewrite (queue_serve _ _ _ _ Hs) in Hq.
  destruct (serve_cases _ _ _ _ Hs) as [(-> & -> & Hidle)|(r & t & Hb & Hc & Hr & -> & Hs1)].
  - split_and!; [done| | | |done].
    + intros r t Hb Hc. destruct Hidle; congruence.
    + intros Hb _. unfold take_next in Ht. rewrite Hb in Ht. simpl in Ht. by simplify_eq.
    + intros Hb Hq0. unfold take_next in Ht. rewrite Hb, Hq0 in Ht. simpl in Ht.
      by simplify_eq.
  - split_and!; [| | | |done].
    + intros [?|?]; congruence.
    + intros r' t' _ Hc' Hr'. simplify_eq. by rewrite Hrem, list_fmap_insert.
    + congruence.
    + congruence.
Qed.

End ServerPyStep.

Section MesaPyStep.
Import MesaPy.

Lemma serve_cases_mesa s h s1 h1 :
  serve s h = Returned (s1, h1) →
  (s1 = s ∧ h1 = h ∧ (busy s = false ∨ current_task s = None)) ∨
  (∃ r t, busy s = true ∧ current_task s = Some r ∧ h !! r = Some t ∧
          h1 = <[r := decrement t]> h ∧
          ((remaining_service_time t - 1 ≤ 0 ∧ s1 = complete_service s (decrement t)) ∨
           (0 < remaining_service_time t - 1 ∧ s1 = s))).
Proof.
  unfold serve. intros H.
  destruct (busy s) eqn:Hb; [|returned; auto].
  destruct (current_task s) as [r|] eqn:Hc; [|returned; auto].
  destruct (h !! r) as [t|] eqn:Ht; [|done].
  right. exists r, t. simpl in H.
  destruct (Z.leb_spec (remaining_service_time t - 1) 0); returned; auto 10.
Qed.

Lemma take_next_cases_mesa s h s2 h2 :
  take_next s h = (s2, h2) →
  (s2 = s ∧ h2 = h ∧ (busy s = true ∨ queue s = [])) ∨
  (∃ r q, busy s = false ∧ queue s = r :: q ∧
          (s2, h2) = begin_service r (with_queue q s) h).
Proof.
  unfold take_next. intros H.
  destruct (busy s) eqn:Hb; simpl in H; [returned; auto|].
  destruct (queue s) as [|r q] eqn:Hq; [returned; auto|].
  right. by exists r, q.
Qed.

Lemma remaining_begin_service_mesa r s h :
  remaining_service_time <$> (begin_service r s h).2 = remaining_service_time <$> h.
Proof.
  simpl. rewrite (list_fmap_alter _ _ id); [by apply list_alter_id|].
  by apply Forall_true.
Qed.

Lemma remaining_take_next_mesa s h :
  remaining_service_time <$> (take_next s h).2 = remaining_service_time <$> h.
Proof.
  unfold take_next. destruct (busy s); simpl; [done|].
  destruct (queue s); [done|]. apply remaining_begin_service_mesa.
Qed.

Lemma queue_take_next_mesa s h :
  queue (take_next s h).1 = queue s ∨
  ∃ r, queue s = r :: queue (take_next s h).1.
Proof.
  unfold take_next. destruct (busy s); simpl; [by left|].
  destruct (queue s) as [|r q] eqn:Hq; simpl; [by left|]. right. by exists r.
Qed.

Lemma queue_serve_mesa s h s1 h1 :
  serve s h = Returned (s1, h1) → queue s1 = queue s.
Proof.
  intros H. destruct (serve_cases_mesa _ _ _ _ H)
    as [(-> & _)|(r & t & _ & _ & _ & _ & [[_ ->]|[_ ->]])]; done.
Qed.

Lemma ServerAgent_step_spec_mesa s h :
  (∀ r, current_task s = Some r → is_Some (h !! r)) →
  ∃ s' h', ServerAgent_step s h = Returned (s', h') ∧
    (busy s = false ∨ current_task s = None →
       remaining_service_time <$> h' = remaining_service_time <$> h) ∧
    (∀ r t, busy s = true → current_task s = Some r → h !! r = Some t →
       remaining_service_time <$> h'
         = <[r := remaining_service_time t - 1]> (remaining_service_time <$> h)) ∧
    (busy s = true → current_task s = None → s' = s ∧ h' = h) ∧
    (busy s = false → queue s = [] → s' = s ∧ h' = h) ∧
    (queue s' = queue s ∨ ∃ r, queue s = r :: queue s').
Proof.
  intros Hvalid. unfold ServerAgent_step.
  assert (Hserve : ∃ s1 h1, serve s h = Returned (s1, h1)).
  { unfold serve. destruct (busy s); [|eauto].
    destruct (current_task s) as [r|] eqn:Hc; [|eauto].
    destruct (Hvalid r eq_refl) as [t ->]. simpl. case_match; eauto. }
  destruct Hserve as (s1 & h1 & Hs). rewrite Hs. simpl.
  destruct (take_next s1 h1) as [s' h'] eqn:Ht.
  exists s', h'. split; [done|].
  pose proof (remaining_take_next_mesa s1 h1) as Hrem. rewrite Ht in Hrem. simpl in Hrem.
  pose proof (queue_take_next_mesa s1 h1) as Hq. rewrite Ht in Hq. simpl in Hq.
  rewrite (queue_serve_mesa _ _ _ _ Hs) in Hq.
  destruct (serve_cases_mesa _ _ _ _ Hs) as [(-> & -> & Hidle)|(r & t & Hb & Hc & Hr & -> & Hs1)].
  - split_and!; [done| | | |done].
    + intros r t Hb Hc. destruct Hidle; congruence.
    + intros Hb _. unfold take_next in Ht. rewrite Hb in Ht. simpl in Ht. by simplify_eq.
    + intros Hb Hq0. unfold take_next in Ht. rewrite Hb, Hq0 in Ht. simpl in Ht.
      by simplify_eq.
  - split_and!; [| | | |done].
    + intros [?|?]; congruence.
    + intros r' t' _ Hc' Hr'. simplify_eq. by rewrite Hrem, list_fmap_insert.
    + congruence.
    + congruence.
Qed.

End MesaPyStep.

(** ** mesa.py is server.py with the statistics erased *)

Lemma first_index_fmap {A B : Type} (f : A → B) (p : B → bool) (l : list A) (i : nat) :
  first_index p i (f <$> l) = prod_map id f <$> first_index (p ∘ f) i l.
Proof.
  revert i. induction l as [|a l IH]; intros i; simpl; [done|].
  destruct (p (f a)); [done|]. apply IH.
Qed.

Lemma min_scan_fmap {A B : Type} (f : A → B) (key : B → nat) (l : list A) best bk i :
  min_scan key best bk i (f <$> l) = min_scan (key ∘ f) best bk i l.
Proof.
  revert best bk i. induction l as [|a l IH]; intros best bk i; simpl; [done|].
  destruct (key (f a) <? bk)%nat; apply IH.
Qed.

Lemma py_min_fmap {A B : Type} (f : A → B) (key : B → nat) (l : list A) :
  py_min key (f <$> l) = py_min (key ∘ f) l.
Proof. destruct l as [|a l]; simpl; [done|]. by rewrite min_scan_fmap. Qed.

Lemma truncate_inject_Z (z : Z) : truncate (inject_Z z) = z.
Proof. unfold truncate, inject_Z. simpl. apply Z.quot_1_r. Qed.

Lemma erase_serve s h :
  MesaPy.serve (erase_server s) (erase_task <$> h)
  = result_map erase_local (ServerPy.serve s h).
Proof.
  unfold MesaPy.serve, ServerPy.serve. simpl.
  destruct (ServerPy.busy s); [|done].
  destruct (ServerPy.current_task s) as [r|]; [|done].
  rewrite list_lookup_fmap. destruct (h !! r) as [t|]; simpl; [|done].
  destruct (_ <=? 0); simpl; unfold erase_local; simpl; by rewrite list_fmap_insert.
Qed.

Lemma erase_begin_service clock r s h :
  MesaPy.begin_service r (erase_server s) (erase_task <$> h)
  = erase_local (ServerPy.begin_service clock r s h).
Proof.
  unfold MesaPy.begin_service, ServerPy.begin_service, erase_local. simpl.
  f_equal. symmetry. apply list_fmap_alter. by apply Forall_true.
Qed.

Lemma erase_take_next clock s h :
  MesaPy.take_next (erase_server s) (erase_task <$> h)
  = erase_local (ServerPy.take_next clock s h).
Proof.
  unfold MesaPy.take_next, ServerPy.take_next. simpl.
  destruct (ServerPy.busy s); simpl; [done|].
  destruct (ServerPy.queue s) as [|r q]; [done|].
  by rewrite <- erase_begin_service.
Qed.

Lemma erase_ServerAgent_step clock s h :
  MesaPy.ServerAgent_step (erase_server s) (erase_task <$> h)
  = result_map erase_local (ServerPy.ServerAgent_step clock s h).
Proof.
  unfold MesaPy.ServerAgent_step, ServerPy.ServerAgent_step.
  rewrite erase_serve. destruct (ServerPy.serve s h) as [[s1 h1]|e]; simpl; [|done].
  by rewrite (erase_take_next clock).
Qed.

Lemma erase_activate clock k svs h :
  MesaPy.activate k (erase_server <$> svs) (erase_task <$> h)
  = result_map erase_state (ServerPy.activate clock k svs h).
Proof.
  unfold MesaPy.activate, ServerPy.activate. rewrite list_lookup_fmap.
  destruct (svs !! k) as [s|]; simpl; [|done].
  rewrite (erase_ServerAgent_step clock).
  destruct (ServerPy.ServerAgent_step clock s h) as [[s' h']|e]; simpl; [|done].
  unfold erase_state. simpl. by rewrite list_fmap_insert.
Qed.

Lemma erase_schedule_step clock order : ∀ svs h,
  MesaPy.schedule_step order (erase_server <$> svs) (erase_task <$> h)
  = result_map erase_state (ServerPy.schedule_step clock order svs h).
Proof.
  induction order as [|k order IH]; intros svs h; simpl; [done|].
  rewrite (erase_activate clock).
  destruct (ServerPy.activate clock k svs h) as [[svs' h']|e]; simpl; [|done].
  apply IH.
Qed.

Lemma erase_dispatch clock r svs h :
  MesaPy.dispatch r (erase_server <$> svs) (erase_task <$> h)
  = result_map erase_state (ServerPy.dispatch clock r svs h).
Proof.
  unfold MesaPy.dispatch, ServerPy.dispatch,
    MesaPy.find_available_server, ServerPy.find_available_server.
  rewrite first_index_fmap.
  destruct (first_index _ 0%nat svs) as [[i s]|]; simpl.
  - unfold erase_state. simpl. rewrite list_fmap_insert. do 2 f_equal.
    symmetry. apply list_fmap_alter. by apply Forall_true.
  - rewrite py_min_fmap.
    destruct (py_min _ svs) as [j|e]; simpl; [|done].
    unfold erase_state. simpl. do 2 f_equal.
    symmetry. apply list_fmap_alter. by apply Forall_true.
Qed.

Lemma erase_arrive d m :
  Qeq_bool (ServerPy.task_service_rate m) 0 = false →
  MesaPy.arrive d (erase_model m)
  = result_map (λ p, erase_state (p.1.2, p.2)) (ServerPy.arrive (lift_draws d) m).
Proof.
  intros Hrate. unfold MesaPy.arrive, ServerPy.arrive, expovariate. simpl.
  destruct (Qltb _ _); [|done]. rewrite Hrate. simpl.
  rewrite truncate_inject_Z, length_fmap.
  set (t := ServerPy.TaskAgent_init _ _ _).
  change [MesaPy.TaskAgent_init _ _] with (erase_task <$> [t]).
  rewrite <- fmap_app.
  rewrite (erase_dispatch (ServerPy.current_step m)).
  by destruct (ServerPy.dispatch _ _ _ _) as [[svs h]|e].
Qed.

Lemma erase_QueueServerModel_step d m :
  Qeq_bool (ServerPy.task_service_rate m) 0 = false →
  MesaPy.QueueServerModel_step d (erase_model m)
  = result_map erase_model (ServerPy.QueueServerModel_step (lift_draws d) m).
Proof.
  intros Hrate. unfold MesaPy.QueueServerModel_step, ServerPy.QueueServerModel_step.
  rewrite (erase_arrive _ _ Hrate).
  destruct (ServerPy.arrive (lift_draws d) m) as [[[n svs] h]|e]; simpl; [|done].
  rewrite (erase_schedule_step (ServerPy.current_step m)).
  destruct (ServerPy.schedule_step _ _ svs h) as [[svs' h']|e]; simpl; [|done].
  by destruct (ServerPy.collect _ _ _).
Qed.


(** ** The activations of one step *)


Section ServerPyTick.
Import ServerPy.

Lemma ServerAgent_step_times clock s h s' h' :
  ServerAgent_step clock s h = Returned (s', h') →
  remaining_service_time <$> h' = served_times s (remaining_service_time <$> h) ∧
  initial_service_time <$> h' = initial_service_time <$> h.
Proof.
  intros H. destruct (ServerAgent_step_inv _ _ _ _ _ H) as (s1 & h1 & Hs & Ht).
  pose proof (remaining_take_next clock s1 h1) as Hrem. rewrite Ht in Hrem. simpl in Hrem.
  assert (Hini : initial_service_time <$> h' = initial_service_time <$> h1).
  { replace h' with (take_next clock s1 h1).2 by (by rewrite Ht).
    unfold take_next. destruct (busy s1); simpl; [done|].
    destruct (queue s1); [done|]. simpl.
    rewrite (list_fmap_alter _ _ id); [by apply list_alter_id|]. by apply Forall_true. }
  rewrite Hrem, Hini. unfold served_times.
  destruct (serve_cases _ _ _ _ Hs) as [(-> & -> & Hidle)|(r & t & Hb & Hc & Hr & -> & Hs1)].
  - split; [|done]. destruct (busy s); [|done]. destruct Hidle as [Hx|Hx]; [done|by rewrite Hx].
  - rewrite Hb, Hc, !list_fmap_insert. simpl. split.
    + rewrite (alter_as_insert Z.pred _ r (remaining_service_time t)); [done|].
      by rewrite list_lookup_fmap, Hr.
    + apply list_insert_id. by rewrite list_lookup_fmap, Hr.
Qed.


Lemma activate_inv clock k svs h svs' h' :
  activate clock k svs h = Returned (svs', h') →
  (svs !! k = None ∧ svs' = svs ∧ h' = h) ∨
  (∃ s s', svs !! k = Some s ∧ ServerAgent_step clock s h = Returned (s', h') ∧
           svs' = <[k := s']> svs).
Proof.
  unfold activate. intros H. destruct (svs !! k) as [s|]; [|left; by simplify_eq].
  right. returned. eauto.
Qed.

Lemma activate_times clock k svs h svs' h' :
  activate clock k svs h = Returned (svs', h') →
  remaining_service_time <$> h'
    = from_option served_times id (svs !! k) (remaining_service_time <$> h) ∧
  initial_service_time <$> h' = initial_service_time <$> h.
Proof.
  intros H. destruct (activate_inv _ _ _ _ _ _ H)
    as [(-> & _ & ->)|(s & s' & -> & Hs & _)]; [done|].
  simpl. by eapply ServerAgent_step_times.
Qed.







End ServerPyTick.

(** ** The counters of server.py *)

Section ServerPyCounters.
Import ServerPy.

Lemma total_load_insert svs k s s' :
  svs !! k = Some s →
  total_load (<[k := s']> svs) = total_load svs - load s + load s'.
Proof.
  revert k. induction svs as [|x svs IH]; intros [|k] Hk; simpl in *; try done.
  - injection Hk as ->. lia.
  - rewrite (IH _ Hk). lia.
Qed.

Lemma load_ServerAgent_step clock s h s' h' :
  ServerAgent_step clock s h = Returned (s', h') → load s' = load s.
Proof.
  intros H. destruct (ServerAgent_step_inv _ _ _ _ _ H) as (s1 & h1 & Hs & Ht).
  transitivity (load s1).
  - destruct (take_next_cases _ _ _ _ _ Ht) as [(-> & _)|(r & q & Hb & Hq & Heq)]; [done|].
    injection Heq as -> _. unfold load. simpl. rewrite Hb, Hq. simpl length. lia.
  - destruct (serve_cases _ _ _ _ Hs)
      as [(-> & _)|(r & t & Hb & _ & _ & _ & [[_ ->]|[_ ->]])]; [done| |done].
    unfold load. simpl. rewrite Hb. lia.
Qed.

Lemma total_load_activate clock k svs h svs' h' :
  activate clock k svs h = Returned (svs', h') → total_load svs' = total_load svs.
Proof.
  intros H. destruct (activate_inv _ _ _ _ _ _ H)
    as [(_ & -> & _)|(s & s' & Hk & Hs & ->)]; [done|].
  rewrite (total_load_insert _ _ _ _ Hk), (load_ServerAgent_step _ _ _ _ _ Hs). lia.
Qed.

Lemma total_load_schedule_step clock order : ∀ svs h svs' h',
  schedule_step clock order svs h = Returned (svs', h') → total_load svs' = total_load svs.
Proof.
  induction order as [|k order IH]; intros svs h svs' h' H; simpl in H.
  - by simplify_eq.
  - apply bind_Returned in H. destruct H as ([svs1 h1] & Ha & H).
    rewrite (IH _ _ _ _ H). by eapply total_load_activate.
Qed.

Lemma total_load_dispatch clock r svs h svs' h' :
  dispatch clock r svs h = Returned (svs', h') → total_load svs' = total_load svs + 1.
Proof.
  intros H. destruct (dispatch_cases _ _ _ _ _ _ H)
    as [(i & s & Hf & -> & _)|(j & s & _ & _ & Hj & -> & _)].
  - destruct (find_available_server_Some _ _ _ Hf) as (Hi & Hb & _).
    rewrite (total_load_insert _ _ _ _ Hi). unfold load. simpl. rewrite Hb. lia.
  - rewrite (total_load_insert _ _ _ _ Hj). unfold load. simpl.
    rewrite length_app. simpl. lia.
Qed.

Lemma arrive_counts d m n svs h :
  arrive d m = Returned (n, svs, h) →
  n - total_load svs = total_tasks m - total_load (servers m) ∧
  n - Z.of_nat (length h) = total_tasks m - Z.of_nat (length (tasks m)).
Proof.
  intros H. destruct (arrive_cases _ _ _ _ _ H)
    as [(_ & -> & -> & ->)|(x0 & _ & _ & _ & -> & Hd)]; [done|].
  rewrite (total_load_dispatch _ _ _ _ _ _ Hd). split; [lia|].
  destruct (dispatch_cases _ _ _ _ _ _ Hd)
    as [(i & s & _ & _ & ->)|(j & s & _ & _ & _ & _ & ->)]; simpl;
    rewrite ?length_alter, length_app; simpl; lia.
Qed.

Lemma length_ServerAgent_step clock s h s' h' :
  ServerAgent_step clock s h = Returned (s', h') → length h' = length h.
Proof.
  intros H. destruct (ServerAgent_step_times _ _ _ _ _ H) as [_ Hini].
  apply (f_equal length) in Hini. by rewrite !length_fmap in Hini.
Qed.

Lemma length_schedule_step clock order : ∀ svs h svs' h',
  schedule_step clock order svs h = Returned (svs', h') → length h' = length h.
Proof.
  induction order as [|k order IH]; intros svs h svs' h' H; simpl in H.
  - by simplify_eq.
  - apply bind_Returned in H. destruct H as ([svs1 h1] & Ha & H).
    rewrite (IH _ _ _ _ H).
    destruct (activate_times _ _ _ _ _ _ Ha) as [_ Hini].
    apply (f_equal length) in Hini. by rewrite !length_fmap in Hini.
Qed.

(** Every arrival is counted once in [total_tasks], and every task counted
    is served, in service or queued. *)
Lemma reachable_counts m :
  reachable m →
  total_tasks m = total_load (servers m) ∧
  total_tasks m = Z.of_nat (length (tasks m)).
Proof.
  induction 1 as [n a s k m Hinit|d m m' _ [IH1 IH2] Hstep].
  - injection Hinit as <-. simpl. split; [|done].
    induction (seq 0 (Z.to_nat n)) as [|i l IH]; [done|].
    change (total_load (?f <$> i :: l)) with (load (f i) + total_load (f <$> l)).
    by rewrite <- IH.
  - destruct (QueueServerModel_step_inv _ _ _ Hstep)
      as (n & svs & h & Ha & Hs & -> & _).
    destruct (arrive_counts _ _ _ _ _ Ha) as [H1 H2].
    rewrite (total_load_schedule_step _ _ _ _ _ _ Hs), (length_schedule_step _ _ _ _ _ _ Hs).
    lia.
Qed.

Lemma total_load_split svs :
  total_load svs
  = sumZ (total_tasks_served <$> svs)
    + Z.of_nat (length (filter (λ s, busy s = true) svs))
    + Z.of_nat (sum_list ((λ s, length (queue s)) <$> svs)).
Proof.
  induction svs as [|s svs IH]; [done|].
  rewrite !fmap_cons, filter_cons. unfold total_load, sumZ in *.
  cbn [foldr sum_list]. rewrite IH. unfold load.
  destruct (busy s); [rewrite decide_True by done|rewrite decide_False by done];
    cbn [length]; unfold id; lia.
Qed.

End ServerPyCounters.

(** ** Truncation, the statistics loop and a run without arrivals *)

Lemma truncate_floor (x : Q) :
  (0 <= x)%Q →
  0 ≤ truncate x ∧ (inject_Z (truncate x) <= x)%Q ∧ (x < inject_Z (truncate x) + 1)%Q.
Proof.
  destruct x as [p q]. unfold Qle, Qlt, truncate, inject_Z, Qplus. simpl.
  intros Hp. rewrite Z.mul_1_r in Hp.
  rewrite Z.quot_div_nonneg by lia.
  pose proof (Z.div_pos p (Z.pos q) Hp ltac:(lia)).
  pose proof (Z.mul_div_le p (Z.pos q) ltac:(lia)).
  pose proof (Z.mul_succ_div_gt p (Z.pos q) ltac:(lia)).
  split; [done|]. split; nia.
Qed.

Lemma truncate_zero (x : Q) : (0 <= x)%Q → (x < 1)%Q → truncate x = 0.
Proof.
  destruct x as [p q]. unfold Qle, Qlt, truncate. simpl. intros Hp Hlt.
  apply Z.quot_small. lia.
Qed.

Lemma truncate_ceiling (x : Q) :
  (x <= 0)%Q →
  truncate x ≤ 0 ∧ (x <= inject_Z (truncate x))%Q ∧ (inject_Z (truncate x) - 1 < x)%Q.
Proof.
  destruct x as [p q]. unfold Qle, Qlt, truncate, inject_Z, Qminus, Qplus, Qopp. simpl.
  intros Hp. rewrite Z.mul_1_r in Hp.
  replace p with (- - p) by lia. set (a := - p) in *.
  rewrite Z.quot_opp_l by lia. rewrite Z.quot_div_nonneg by lia.
  pose proof (Z.div_pos a (Z.pos q) ltac:(lia) ltac:(lia)).
  pose proof (Z.mul_div_le a (Z.pos q) ltac:(lia)).
  pose proof (Z.mul_succ_div_gt a (Z.pos q) ltac:(lia)).
  split; [lia|]. split; nia.
Qed.

Section ServerPyLoop.
Import ServerPy.

(** What the loop over the scheduled tasks adds. *)
Lemma collect_spec clock agents : ∀ acc,
  collect clock agents acc
  = (acc.1 + sumZ (queue_wait_time <$> filter (λ t, started t = true) agents),
     acc.2 + sumZ ((λ t, clock - arrival_time t) <$> filter (λ t, started t = true) agents)).
Proof.
  induction agents as [|t agents IH]; intros [a b].
  - simpl. f_equal; lia.
  - cbn [collect]. rewrite IH, filter_cons.
    destruct (assigned_server t) as [u|] eqn:Hu.
    + rewrite decide_True by (unfold started; by rewrite Hu).
      rewrite !fmap_cons. unfold sumZ. cbn [foldr fst snd]. f_equal; lia.
    + rewrite decide_False by (unfold started; by rewrite Hu). done.
Qed.

(** What a step adds to the two totals: the queue wait, and the time since
    arrival, of every task started so far. *)
Lemma step_statistics d m m' :
  QueueServerModel_step d m = Returned m' →
  total_queue_wait_time m'
  = total_queue_wait_time m
    + sumZ (queue_wait_time <$> filter (λ t, started t = true) (tasks m')) ∧
  total_time_in_system m'
  = total_time_in_system m
    + sumZ ((λ t, current_step m - arrival_time t)
              <$> filter (λ t, started t = true) (tasks m')).
Proof.
  intros H.
  destruct (QueueServerModel_step_inv _ _ _ H) as (n & svs & h & _ & _ & _ & _ & Hc & _).
  rewrite collect_spec in Hc. simpl in Hc. by injection Hc as -> ->.
Qed.

Lemma schedule_step_untouched clock order : ∀ svs,
  Forall (λ s, busy s = false ∧ current_task s = None ∧ queue s = []) svs →
  schedule_step clock order svs [] = Returned (svs, []).
Proof.
  induction order as [|k order IH]; intros svs Hall; simpl; [done|].
  unfold activate. destruct (svs !! k) as [s|] eqn:Hk; simpl; [|by apply IH].
  destruct (Forall_lookup_1 _ _ _ _ Hall Hk) as (Hb & Hc & Hq).
  unfold ServerAgent_step, serve. rewrite Hb. simpl.
  unfold take_next. rewrite Hb, Hq. simpl.
  rewrite list_insert_id by done. by apply IH.
Qed.

(** A step without arrival on a model that no task has entered. *)
Lemma step_untouched d m :
  untouched m → Qltb (arrival_draw d) (task_arrival_rate m) = false →
  ∃ m', QueueServerModel_step d m = Returned m' ∧ untouched m' ∧
        current_step m' = current_step m + 1 ∧
        max_steps m' = max_steps m ∧
        task_arrival_rate m' = task_arrival_rate m ∧
        running m' = (if current_step m + 1 >=? max_steps m then false else running m).
Proof.
  intros (Ht & Hn & Hqw & Hts & Hall) Harr.
  unfold QueueServerModel_step, arrive. rewrite Harr, Ht. simpl.
  rewrite (schedule_step_untouched _ _ _ Hall). simpl.
  eexists. split; [done|]. by repeat split.
Qed.

Lemma main_loop_untouched ds : ∀ m,
  untouched m →
  Forall (λ d, Qltb (arrival_draw d) (task_arrival_rate m) = false) ds →
  (running m = true → Z.max 1 (max_steps m - current_step m) ≤ Z.of_nat (length ds)) →
  ∃ m', main_loop ds m = Some (Returned m') ∧ untouched m' ∧ running m' = false.
Proof.
  induction ds as [|d ds IH]; intros m Hm Hds Hlen.
  - destruct (running m) eqn:Hr; [simpl in Hlen; lia|].
    exists m. simpl. by rewrite Hr.
  - destruct (running m) eqn:Hr.
    + apply Forall_cons in Hds. destruct Hds as [Hd Hds].
      destruct (step_untouched d m Hm Hd) as (m1 & Hs & Hm1 & Hc & Hk & Ha & Hr1).
      simpl. rewrite Hr, Hs. apply IH; [done|by rewrite Ha|].
      rewrite Hr1, Hk, Hc. specialize (Hlen eq_refl). simpl length in Hlen.
      destruct (Z.geb_spec (current_step m + 1) (max_steps m)); [done|]. lia.
    + exists m. simpl. by rewrite Hr.
Qed.

Lemma untouched_init n a s k m :
  QueueServerModel_init n a s k = Returned m → untouched m.
Proof.
  intros [= <-]. unfold untouched. simpl. split_and!; try done.
  apply Forall_fmap, Forall_true. by intros i.
Qed.

End ServerPyLoop.

(** ** The dispatch policy *)

Section ServerPyDispatch.
Import ServerPy.

Lemma dispatch_spec clock task svs h :
  svs ≠ [] →
  (∀ i s, svs !! i = Some s → unique_id s = Z.of_nat i) →
  ∃ svs' h', dispatch clock task svs h = Returned (svs', h') ∧
    ((∃ i s, svs !! i = Some s ∧ busy s = false ∧
        (∀ k y, svs !! k = Some y → busy y = false → unique_id s ≤ unique_id y) ∧
        svs' = <[i := (begin_service clock task s h).1]> svs ∧
        h' = (begin_service clock task s h).2)
     ∨
     ((∀ k y, svs !! k = Some y → busy y = true) ∧
      ∃ j s, svs !! j = Some s ∧
        (∀ k y, svs !! k = Some y → (length (queue s) ≤ length (queue y))%nat) ∧
        (∀ k y, svs !! k = Some y → length (queue y) = length (queue s) →
                unique_id s ≤ unique_id y) ∧
        svs' = <[j := enqueue task s]> svs ∧ h' = h)).
Proof.
  intros Hne Hids. unfold dispatch.
  destruct (find_available_server svs) as [[i s]|] eqn:Hf.
  - destruct (find_available_server_Some _ _ _ Hf) as (Hi & Hb & Hfirst).
    simpl. eexists _, _. split; [done|]. left. exists i, s. split_and!; try done.
    intros k y Hk Hy. rewrite (Hids _ _ Hi), (Hids _ _ Hk).
    destruct (decide (k < i)%nat) as [Hlt|]; [|lia].
    specialize (Hfirst _ _ Hlt Hk). congruence.
  - destruct (py_min_spec (λ s, length (queue s)) svs Hne) as (j & s & Hj & Hs & Hmin & Hfirst).
    rewrite Hj. simpl. eexists _, _. split; [done|]. right.
    split; [by apply find_available_server_None|].
    exists j, s. split_and!; try done.
    + intros k y Hk Hlen. rewrite (Hids _ _ Hs), (Hids _ _ Hk).
      destruct (decide (k < j)%nat) as [Hlt|]; [|lia].
      specialize (Hfirst _ _ Hlt Hk). simpl in Hfirst. lia.
    + by apply alter_as_insert.
Qed.

(** On an empty collection [min] raises. *)
Lemma dispatch_no_server clock task h :
  dispatch clock task [] h = Raised ValueError.
Proof. done. Qed.

End ServerPyDispatch.

Section MesaPyDispatch.
Import MesaPy.

Lemma find_available_server_Some_mesa svs i s :
  find_available_server svs = Some (i, s) →
  svs !! i = Some s ∧ busy s = false ∧
  ∀ k y, (k < i)%nat → svs !! k = Some y → busy y = true.
Proof.
  intros H. apply first_index_Some in H. destruct H as (k & -> & Hk & Hb & Hlt).
  simpl. split; [done|]. split; [by destruct (busy s)|].
  intros k' y Hk' Hy. specialize (Hlt k' y Hk' Hy). by destruct (busy y).
Qed.

Lemma find_available_server_None_mesa svs :
  find_available_server svs = None →
  ∀ k y, svs !! k = Some y → busy y = true.
Proof.
  intros H k y Hy. apply first_index_None in H.
  pose proof (Forall_lookup_1 _ _ _ _ H Hy) as Hb. simpl in Hb. by destruct (busy y).
Qed.

Lemma dispatch_spec_mesa task svs h :
  svs ≠ [] →
  (∀ i s, svs !! i = Some s → unique_id s = Z.of_nat i) →
  ∃ svs' h', dispatch task svs h = Returned (svs', h') ∧
    ((∃ i s, svs !! i = Some s ∧ busy s = false ∧
        (∀ k y, svs !! k = Some y → busy y = false → unique_id s ≤ unique_id y) ∧
        svs' = <[i := (begin_service task s h).1]> svs ∧
        h' = (begin_service task s h).2)
     ∨
     ((∀ k y, svs !! k = Some y → busy y = true) ∧
      ∃ j s, svs !! j = Some s ∧
        (∀ k y, svs !! k = Some y → (length (queue s) ≤ length (queue y))%nat) ∧
        (∀ k y, svs !! k = Some y → length (queue y) = length (queue s) →
                unique_id s ≤ unique_id y) ∧
        svs' = <[j := enqueue task s]> svs ∧ h' = h)).
Proof.
  intros Hne Hids. unfold dispatch.
  destruct (find_available_server svs) as [[i s]|] eqn:Hf.
  - destruct (find_available_server_Some_mesa _ _ _ Hf) as (Hi & Hb & Hfirst).
    simpl. eexists _, _. split; [done|]. left. exists i, s. split_and!; try done.
    intros k y Hk Hy. rewrite (Hids _ _ Hi), (Hids _ _ Hk).
    destruct (decide (k < i)%nat) as [Hlt|]; [|lia].
    specialize (Hfirst _ _ Hlt Hk). congruence.
  - destruct (py_min_spec (λ s, length (queue s)) svs Hne) as (j & s & Hj & Hs & Hmin & Hfirst).
    rewrite Hj. simpl. eexists _, _. split; [done|]. right.
    split; [by apply find_available_server_None_mesa|].
    exists j, s. split_and!; try done.
    + intros k y Hk Hlen. rewrite (Hids _ _ Hs), (Hids _ _ Hk).
      destruct (decide (k < j)%nat) as [Hlt|]; [|lia].
      specialize (Hfirst _ _ Hlt Hk). simpl in Hfirst. lia.
    + by apply alter_as_insert.
Qed.

End MesaPyDispatch.

(** ** Service times along a run, and the runs of mesa.py *)

Lemma randint_range (a b raw : Z) : a ≤ b → a ≤ randint a b raw ≤ b.
Proof.
  intros Hab. unfold randint.
  pose proof (Z.mod_pos_bound raw (b - a + 1) ltac:(lia)). lia.
Qed.

Section ServerPyInitial.
Import ServerPy.

Lemma schedule_step_initial clock order : ∀ svs h svs' h',
  schedule_step clock order svs h = Returned (svs', h') →
  initial_service_time <$> h' = initial_service_time <$> h.
Proof.
  induction order as [|k order IH]; intros svs h svs' h' H; simpl in H.
  - by simplify_eq.
  - apply bind_Returned in H. destruct H as ([svs1 h1] & Ha & H).
    rewrite (IH _ _ _ _ H). by destruct (activate_times _ _ _ _ _ _ Ha).
Qed.

(** A step adds the service time of the task it creates and changes no
    other initial service time. *)
Lemma step_initial_times d m m' :
  QueueServerModel_step d m = Returned m' →
  initial_service_time <$> tasks m'
  = (initial_service_time <$> tasks m)
    ++ (if Qltb (arrival_draw d) (task_arrival_rate m)
        then match int (service_draw d) with
             | Returned service_time => [service_time]
             | Raised _ => []
             end
        else []).
Proof.
  intros H. destruct (QueueServerModel_step_inv _ _ _ H) as (n & svs & h & Ha & Hs & _).
  rewrite (schedule_step_initial _ _ _ _ _ _ Hs).
  destruct (arrive_cases _ _ _ _ _ Ha) as [(-> & _ & _ & ->)|(x0 & Hx0 & -> & _ & _ & Hd)].
  - by rewrite app_nil_r.
  - rewrite Hx0. cbn [int].
    destruct (dispatch_cases _ _ _ _ _ _ Hd)
      as [(i & s & _ & _ & ->)|(j & s & _ & _ & _ & _ & ->)]; simpl.
    + rewrite (list_fmap_alter _ _ id); [|by apply Forall_true].
      by rewrite list_alter_id, fmap_app.
    + by rewrite fmap_app.
Qed.

End ServerPyInitial.

(** Every run of [mesa.py] is the erasure of a run of [server.py] whose
    service times lie between 2 and 10. *)
Lemma reachable_erase_bounded mm :
  MesaPy.reachable mm →
  ∃ ms, ServerPy.reachable ms ∧ erase_model ms = mm ∧
        Qeq_bool (ServerPy.task_service_rate ms) 0 = false ∧
        Forall (λ x, 2 ≤ x ≤ 10) (ServerPy.initial_service_time <$> ServerPy.tasks ms).
Proof.
  induction 1 as [n a k m Hinit|d m m' _ (ms & Hms & <- & Hrate & Hb) Hstep].
  - exists (ServerPy.mkModel n a 1 k true 0 0 0 0
              ((λ i, ServerPy.ServerAgent_init (Z.of_nat i)) <$> seq 0 (Z.to_nat n)) []).
    split; [by apply (ServerPy.reachable_init n a 1 k)|].
    split_and!; [|done|by constructor]. injection Hinit as <-.
    unfold erase_model. simpl. f_equal.
    rewrite <- list_fmap_compose. by apply list_fmap_ext.
  - rewrite (erase_QueueServerModel_step _ _ Hrate) in Hstep.
    destruct (ServerPy.QueueServerModel_step (lift_draws d) ms) as [ms'|e] eqn:Hs; [|done].
    injection Hstep as <-. exists ms'. split; [by eapply ServerPy.reachable_step|].
    split; [done|]. split.
    + destruct (QueueServerModel_step_inv _ _ _ Hs)
        as (? & ? & ? & _ & _ & _ & _ & _ & _ & _ & -> & _). done.
    + rewrite (step_initial_times _ _ _ Hs). apply Forall_app. split; [done|].
      destruct (Qltb _ _); [|by constructor]. constructor; [|by constructor].
      simpl. rewrite truncate_inject_Z. by apply randint_range.
Qed.



(** ** The outcomes of a step *)

Section ServerPyOutcomes.
Import ServerPy.

Lemma activate_returns clock k svs h :
  well_formed svs h → ∃ svs' h', activate clock k svs h = Returned (svs', h').
Proof.
  intros Hwf. unfold activate. destruct (svs !! k) as [s|] eqn:Hk; [|eauto].
  destruct (ServerAgent_step_spec clock s h) as (s' & h' & Hs & _).
  - intros r Hr. apply lookup_lt_is_Some_2. eapply (wf_bound _ _ Hwf); [done|].
    apply elem_of_refs. auto.
  - rewrite Hs. simpl. eauto.
Qed.

Lemma schedule_step_returns clock order : ∀ svs h,
  well_formed svs h → ∃ svs' h', schedule_step clock order svs h = Returned (svs', h').
Proof.
  induction order as [|k order IH]; intros svs h Hwf; simpl; [eauto|].
  destruct (activate_returns clock k svs h Hwf) as (svs1 & h1 & Ha).
  rewrite Ha. simpl. apply IH. by eapply well_formed_activate.
Qed.

(** The outcomes of a step in a run: it returns, or a task arrives and
    the service rate is zero, or the float drawn for its service time
    is infinite or NaN, or there is no server. *)
Lemma step_outcomes d m :
  reachable m →
  (∃ m', QueueServerModel_step d m = Returned m') ∨
  (Qltb (arrival_draw d) (task_arrival_rate m) = true ∧
   ((Qeq_bool (task_service_rate m) 0 = true ∧
     QueueServerModel_step d m = Raised ZeroDivisionError) ∨
    (Qeq_bool (task_service_rate m) 0 = false ∧ service_draw d = infinity ∧
     QueueServerModel_step d m = Raised OverflowError) ∨
    (Qeq_bool (task_service_rate m) 0 = false ∧ service_draw d = nan ∧
     QueueServerModel_step d m = Raised ValueError) ∨
    (Qeq_bool (task_service_rate m) 0 = false ∧
     (∃ x, service_draw d = finite x) ∧ servers m = [] ∧
     QueueServerModel_step d m = Raised ValueError))).
Proof.
  intros Hm. pose proof (reachable_well_formed _ Hm) as Hwf.
  assert (Hrest : ∀ n svs h, arrive d m = Returned (n, svs, h) →
            ∃ m', QueueServerModel_step d m = Returned m').
  { intros n svs h Ha. unfold QueueServerModel_step. rewrite Ha. simpl.
    destruct (schedule_step_returns (current_step m) (activation d) svs h)
      as (svs' & h' & Hs); [by eapply well_formed_arrive|].
    rewrite Hs. simpl. destruct (collect _ _ _). eauto. }
  destruct (Qltb (arrival_draw d) (task_arrival_rate m)) eqn:Harr.
  - destruct (Qeq_bool (task_service_rate m) 0) eqn:Hrate.
    + right. split; [done|]. left. split; [done|].
      unfold QueueServerModel_step, arrive, expovariate. by rewrite Harr, Hrate.
    + destruct (service_draw d) as [x| |] eqn:Hx.
      * destruct (decide (servers m = [])) as [Hnil|Hne].
        -- right. split; [done|]. do 3 right. split_and!; [done|by exists x|done|].
           unfold QueueServerModel_step, arrive, expovariate.
           by rewrite Harr, Hrate, Hx, Hnil.
        -- left. set (new := TaskAgent_init (current_step m) (current_step m)
                               (truncate x)).
           destruct (dispatch_spec (current_step m) (length (tasks m)) (servers m)
                       (tasks m ++ [new]) Hne (wf_ids _ _ Hwf)) as (svs & h & Hd & _).
           apply (Hrest (total_tasks m + 1) svs h).
           unfold arrive, expovariate. rewrite Harr, Hrate, Hx. simpl. fold new.
           by rewrite Hd.
      * right. split; [done|]. right. left. split_and!; [done..|].
        unfold QueueServerModel_step, arrive, expovariate.
        by rewrite Harr, Hrate, Hx.
      * right. split; [done|]. do 2 right. left. split_and!; [done..|].
        unfold QueueServerModel_step, arrive, expovariate.
        by rewrite Harr, Hrate, Hx.
  - left. apply (Hrest (total_tasks m) (servers m) (tasks m)).
    unfold arrive. by rewrite Harr.
Qed.

End ServerPyOutcomes.

(** ** What is left of the service of a task *)

Section ServerPyBounds.
Import ServerPy.

(** The five ways of an activation, for a server that is busy exactly
    when it has a current task. *)
Lemma ServerAgent_step_cases clock s h s' h' :
  consistent s → ServerAgent_step clock s h = Returned (s', h') →
  (busy s = false ∧ current_task s = None ∧ queue s = [] ∧ s' = s ∧ h' = h) ∨
  (∃ r q, busy s = false ∧ current_task s = None ∧ queue s = r :: q ∧
          (s', h') = begin_service clock r (with_queue q s) h) ∨
  (∃ r0 t, busy s = true ∧ current_task s = Some r0 ∧ h !! r0 = Some t ∧
     ((0 < remaining_service_time t - 1 ∧ s' = s ∧ h' = <[r0 := decrement t]> h) ∨
      (remaining_service_time t - 1 ≤ 0 ∧ queue s = [] ∧
       s' = complete_service s (decrement t) ∧ h' = <[r0 := decrement t]> h) ∨
      (∃ r q, remaining_service_time t - 1 ≤ 0 ∧ queue s = r :: q ∧
         (s', h') = begin_service clock r
                      (with_queue q (complete_service s (decrement t)))
                      (<[r0 := decrement t]> h)))).
Proof.
  intros Hc H. destruct (ServerAgent_step_inv _ _ _ _ _ H) as (s1 & h1 & Hs & Ht).
  destruct (serve_cases _ _ _ _ Hs) as [(-> & -> & Hidle)|(r0 & t & Hb & Hcur & Hr0 & -> & Hs1)].
  - assert (Hb : busy s = false ∧ current_task s = None).
    { destruct Hc as [Hc1 Hc2]. destruct Hidle as [Hb|Hn].
      - split; [done|]. destruct (current_task s); [|done].
        rewrite Hc2 in Hb; [done|eauto].
      - split; [|done]. destruct (busy s); [|done].
        destruct (Hc1 eq_refl) as [x Hx]. congruence. }
    destruct Hb as [Hb Hn].
    destruct (take_next_cases _ _ _ _ _ Ht) as [(-> & -> & Hq)|(r & q & _ & Hq & Heq)].
    + left. destruct Hq as [Hq|Hq]; [congruence|done].
    + right. left. by exists r, q.
  - right. right. exists r0, t. split_and!; [done..|].
    destruct Hs1 as [[Hle ->]|[Hgt ->]].
    + destruct (take_next_cases _ _ _ _ _ Ht) as [(-> & -> & Hq)|(r & q & _ & Hq & Heq)].
      * right. left. destruct Hq as [Hq|Hq]; [done|]. by split_and!.
      * right. right. by exists r, q.
    + left. unfold take_next in Ht. rewrite Hb in Ht. simpl in Ht. by simplify_eq.
Qed.

Lemma held_insert_ne svs k (s s' : ServerAgent) r :
  svs !! k = Some s → held svs r → r ∉ refs s → held (<[k := s']> svs) r.
Proof.
  intros Hk (i & x & Hi & Hr) Hn. exists i, x. split; [|done].
  rewrite list_lookup_insert_ne; [done|]. intros <-. congruence.
Qed.

Lemma held_insert_eq svs k (s s' : ServerAgent) r :
  svs !! k = Some s → r ∈ refs s' → held (<[k := s']> svs) r.
Proof.
  intros Hk Hr. exists k, s'. split; [|done].
  apply list_lookup_insert_eq. by eapply lookup_lt_Some.
Qed.

Lemma service_bounds_activate clock k svs h svs' h' :
  well_formed svs h → service_bounds svs h →
  activate clock k svs h = Returned (svs', h') →
  service_bounds svs' h'.
Proof.
  intros Hwf Hsb Ha.
  destruct (activate_inv _ _ _ _ _ _ Ha) as [(_ & -> & ->)|(s & s' & Hk & Hs & ->)]; [done|].
  assert (Hkeep : ∀ r, (r ∈ refs s → r ∈ refs s') → held svs r → held (<[k := s']> svs) r).
  { intros r Hin Hh. destruct (decide (r ∈ refs s)) as [Hr|Hr].
    - eapply held_insert_eq; [done|auto].
    - by eapply held_insert_ne. }
  destruct (ServerAgent_step_cases _ _ _ _ _ (wf_consistent _ _ Hwf _ _ Hk) Hs)
    as [(_ & _ & _ & -> & ->)
       |[(r & q & Hb & Hn & Hq & Heq)
        |(r0 & t & Hb & Hc & Hr0 &
            [(Hgt & -> & ->)|[(Hle & Hq & -> & ->)|(r & q & Hle & Hq & Heq)]])]].
  - by rewrite list_insert_id.
  - (* an idle server takes the head of its queue *)
    injection Heq as -> ->. split.
    + intros r' t' Hr'. apply lookup_alter_Some in Hr'.
      destruct Hr' as [(_ & t0 & Ht0 & ->)|[_ Hr']]; [simpl|]; by eapply sb_upper.
    + intros r' t' Hr' Hnh.
      assert (Hnh' : ¬ held svs r').
      { intros Hh. apply Hnh. apply Hkeep; [|done].
        unfold refs. simpl. by rewrite Hn, Hq. }
      apply lookup_alter_Some in Hr'.
      destruct Hr' as [(_ & t0 & Ht0 & ->)|[_ Hr']]; [simpl|]; by eapply sb_released.
  - (* service goes on *)
    rewrite list_insert_id by done. split.
    + intros r' t' Hr'. apply list_lookup_insert_Some in Hr'.
      destruct Hr' as [(<- & <- & _)|[_ Hr']]; [|by eapply sb_upper].
      pose proof (sb_upper _ _ Hsb _ _ Hr0). simpl. lia.
    + intros r' t' Hr' Hnh. apply list_lookup_insert_Some in Hr'.
      destruct Hr' as [(<- & <- & _)|[_ Hr']]; [|by eapply sb_released].
      destruct Hnh. exists k, s. split; [done|]. apply elem_of_refs. by left.
  - (* service ends, the queue is empty *)
    pose proof (sb_upper _ _ Hsb _ _ Hr0) as Hup.
    pose proof (wf_current _ _ Hwf _ _ _ _ Hk Hc Hr0) as Hcur.
    split.
    + intros r' t' Hr'. apply list_lookup_insert_Some in Hr'.
      destruct Hr' as [(<- & <- & _)|[_ Hr']]; [|by eapply sb_upper].
      simpl. lia.
    + intros r' t' Hr' Hnh. apply list_lookup_insert_Some in Hr'.
      destruct Hr' as [(<- & <- & _)|[Hne Hr']]; [simpl; lia|].
      eapply sb_released; [done..|]. intros Hh. apply Hnh.
      eapply held_insert_ne; [done..|]. intros Hin. apply elem_of_refs in Hin.
      destruct Hin as [Hin|Hin]; [congruence|]. rewrite Hq in Hin.
      by apply elem_of_nil in Hin.
  - (* service ends, the next task is taken *)
    injection Heq as -> ->.
    pose proof (sb_upper _ _ Hsb _ _ Hr0) as Hup.
    pose proof (wf_current _ _ Hwf _ _ _ _ Hk Hc Hr0) as Hcur.
    assert (Hnd : r0 ≠ r).
    { pose proof (wf_nodup _ _ Hwf _ _ Hk) as Hnd. unfold refs in Hnd.
      rewrite Hc, Hq in Hnd. simpl in Hnd. apply NoDup_cons in Hnd.
      destruct Hnd as [Hnd _]. intros ->. apply Hnd. left. }
    split.
    + intros r' t' Hr'. apply lookup_alter_Some in Hr'.
      assert (Hins : ∀ t0, <[r0 := decrement t]> h !! r' = Some t0 →
                remaining_service_time t0 ≤ initial_service_time t0).
      { intros t0 Ht0. apply list_lookup_insert_Some in Ht0.
        destruct Ht0 as [(<- & <- & _)|[_ Ht0]]; [simpl; lia|by eapply sb_upper]. }
      destruct Hr' as [(_ & t0 & Ht0 & ->)|[_ Hr']]; [simpl|]; by apply Hins.
    + intros r' t' Hr' Hnh.
      assert (Hr'r : r' ≠ r).
      { intros ->. apply Hnh. eapply held_insert_eq; [done|].
        unfold refs. simpl. left. }
      apply lookup_alter_Some in Hr'.
      destruct Hr' as [(? & _)|[_ Hr']]; [congruence|].
      apply list_lookup_insert_Some in Hr'.
      destruct Hr' as [(<- & <- & _)|[Hne Hr']]; [simpl; lia|].
      eapply sb_released; [done..|]. intros Hh. apply Hnh.
      apply Hkeep; [|done]. unfold refs. rewrite Hc, Hq. simpl.
      intros Hin. apply elem_of_cons in Hin. destruct Hin as [->|Hin]; [done|].
      apply elem_of_cons in Hin. destruct Hin as [->|Hin]; [done|]. by right.
Qed.

Lemma service_bounds_schedule_step clock order : ∀ svs h svs' h',
  well_formed svs h → service_bounds svs h →
  schedule_step clock order svs h = Returned (svs', h') →
  service_bounds svs' h'.
Proof.
  induction order as [|k order IH]; intros svs h svs' h' Hwf Hsb H; simpl in H.
  - by simplify_eq.
  - apply bind_Returned in H. destruct H as ([svs1 h1] & Ha & H).
    eapply IH; [| |exact H]; eauto using well_formed_activate, service_bounds_activate.
Qed.

(** The dispatch of the task just created, at the end of the store. *)
Lemma service_bounds_dispatch clock st svs h svs' h' :
  well_formed svs h → service_bounds svs h →
  dispatch clock (length h) svs (h ++ [TaskAgent_init clock clock st]) = Returned (svs', h') →
  service_bounds svs' h'.
Proof.
  intros Hwf Hsb Hd.
  set (new := TaskAgent_init clock clock st) in *.
  assert (Hold : ∀ r' t', (h ++ [new]) !! r' = Some t' →
            (r' = length h ∧ t' = new) ∨ (r' ≠ length h ∧ h !! r' = Some t')).
  { intros r' t' Hr'. apply lookup_app_Some in Hr'. destruct Hr' as [Hr'|[Hge Hr']].
    - right. split; [|done]. apply lookup_lt_Some in Hr'. lia.
    - apply list_lookup_singleton_Some in Hr'. destruct Hr' as [Hr' <-].
      left. split; [lia|done]. }
  destruct (dispatch_cases _ _ _ _ _ _ Hd)
    as [(k & s & Hf & -> & ->)|(j & s & Hf & _ & Hj & -> & ->)].
  - destruct (find_available_server_Some _ _ _ Hf) as (Hk & Hb & _). simpl. split.
    + intros r' t' Hr'. apply lookup_alter_Some in Hr'.
      assert (Hup : ∀ t0, (h ++ [new]) !! r' = Some t0 →
                remaining_service_time t0 ≤ initial_service_time t0).
      { intros t0 Ht0. destruct (Hold _ _ Ht0) as [[_ ->]|[_ Ht0']]; [done|].
        by eapply sb_upper. }
      destruct Hr' as [(_ & t0 & Ht0 & ->)|[_ Hr']]; [simpl|]; by apply Hup.
    + intros r' t' Hr' Hnh.
      assert (Hr'r : r' ≠ length h).
      { intros ->. apply Hnh. eapply held_insert_eq; [done|].
        unfold refs. simpl. left. }
      apply lookup_alter_Some in Hr'.
      destruct Hr' as [(? & _)|[_ Hr']]; [congruence|].
      destruct (Hold _ _ Hr') as [[? _]|[_ Hr'']]; [done|].
      eapply sb_released; [done..|]. intros Hh. apply Hnh.
      destruct (decide (r' ∈ refs s)) as [Hin|Hin]; [|by eapply held_insert_ne].
      eapply held_insert_eq; [done|]. unfold refs. simpl. right.
      apply elem_of_refs in Hin. destruct Hin as [Hin|Hin]; [|done].
      destruct (wf_consistent _ _ Hwf _ _ Hk) as [_ Hcons].
      rewrite Hcons in Hb; [done|eauto].
  - split.
    + intros r' t' Hr'. destruct (Hold _ _ Hr') as [[_ ->]|[_ Hr'']]; [done|].
      by eapply sb_upper.
    + intros r' t' Hr' Hnh.
      destruct (Hold _ _ Hr') as [[-> _]|[_ Hr'']].
      * destruct Hnh. eapply held_insert_eq; [done|].
        unfold refs, enqueue. simpl. rewrite app_assoc.
        apply elem_of_app. right. left.
      * eapply sb_released; [done..|]. intros Hh. apply Hnh.
        destruct (decide (r' ∈ refs s)) as [Hin|Hin]; [|by eapply held_insert_ne].
        eapply held_insert_eq; [done|]. unfold refs, enqueue. simpl.
        rewrite app_assoc. apply elem_of_app. by left.
Qed.

Lemma service_bounds_step d m m' :
  well_formed (servers m) (tasks m) → service_bounds (servers m) (tasks m) →
  QueueServerModel_step d m = Returned m' →
  service_bounds (servers m') (tasks m').
Proof.
  intros Hwf Hsb H.
  destruct (QueueServerModel_step_inv _ _ _ H) as (n & svs & h & Ha & Hs & _).
  eapply service_bounds_schedule_step; [by eapply well_formed_arrive| |exact Hs].
  destruct (arrive_cases _ _ _ _ _ Ha) as [(_ & _ & -> & ->)|(x0 & _ & _ & _ & _ & Hd)];
    [done|].
  by eapply service_bounds_dispatch.
Qed.

Lemma reachable_service_bounds m :
  reachable m → service_bounds (servers m) (tasks m).
Proof.
  induction 1 as [n a s k m Hinit|d m m' Hm IH Hstep].
  - injection Hinit as <-. simpl. split; intros r t Hr; by rewrite lookup_nil in Hr.
  - eapply service_bounds_step; [by apply reachable_well_formed|done..].
Qed.

End ServerPyBounds.

(** ** The settled properties *)

Lemma reachable_one_server : ServerPy.reachable one_server.
Proof. by apply (ServerPy.reachable_init 1 (9 # 10) (4 # 10) 100). Qed.

Lemma reachable_one_server_mesa : MesaPy.reachable one_server_mesa.
Proof. by apply (MesaPy.reachable_init 1 (7 # 10) 100). Qed.

Lemma reachable_one_server_serving : ServerPy.reachable one_server_serving.
Proof.
  apply (ServerPy.reachable_step (arrival 2 [0%nat]) one_server);
    [exact reachable_one_server|reflexivity].
Qed.

Lemma reachable_one_server_mesa_serving : MesaPy.reachable one_server_mesa_serving.
Proof.
  apply (MesaPy.reachable_step (arrival_mesa 0 [0%nat]) one_server_mesa);
    [exact reachable_one_server_mesa|reflexivity].
Qed.

Lemma consistent_ServerAgent_step clock s h s' h' :
  ServerPy.consistent s → ServerPy.ServerAgent_step clock s h = Returned (s', h') →
  ServerPy.consistent s'.
Proof.
  intros Hc H. destruct (ServerAgent_step_inv _ _ _ _ _ H) as (s1 & h1 & Hs & Ht).
  assert (Hc1 : ServerPy.consistent s1).
  { destruct (serve_cases _ _ _ _ Hs)
      as [(-> & _)|(r & t & _ & _ & _ & _ & [[_ ->]|[_ ->]])]; [done| |done].
    split; [done|]. by intros [? ?]. }
  destruct (take_next_cases _ _ _ _ _ Ht) as [(-> & _)|(r & q & _ & _ & Heq)]; [done|].
  injection Heq as -> _. split; eauto.
Qed.

Lemma consistent_ServerAgent_step_mesa s h s' h' :
  MesaPy.consistent s → MesaPy.ServerAgent_step s h = Returned (s', h') →
  MesaPy.consistent s'.
Proof.
  intros Hc H. unfold MesaPy.ServerAgent_step in H.
  apply bind_Returned in H. destruct H as ([s1 h1] & Hs & Ht). injection Ht as Ht.
  assert (Hc1 : MesaPy.consistent s1).
  { destruct (serve_cases_mesa _ _ _ _ Hs)
      as [(-> & _)|(r & t & _ & _ & _ & _ & [[_ ->]|[_ ->]])]; [done| |done].
    split; [done|]. by intros [? ?]. }
  destruct (take_next_cases_mesa _ _ _ _ Ht) as [(-> & _)|(r & q & _ & _ & Heq)]; [done|].
  injection Heq as -> _. split; eauto.
Qed.

(** C5.  In every state of every run, of [server.py] and of [mesa.py],
    every server is busy exactly when its [current_task] slot is
    occupied; and each operation on a server keeps it so: construction,
    the assignment of a task ([begin_service]), the completion of
    service, the queueing of a task, the taking of a task from the queue
    and the server's step. *)
Theorem busy_iff_current_task (ms : ServerPy.QueueServerModel) (mm : MesaPy.QueueServerModel) :
  ServerPy.reachable ms → MesaPy.reachable mm →
  (∀ s, s ∈ ServerPy.servers ms →
        ServerPy.busy s = true ↔ is_Some (ServerPy.current_task s)) ∧
  (∀ s, s ∈ MesaPy.servers mm →
        MesaPy.busy s = true ↔ is_Some (MesaPy.current_task s)) ∧
  (∀ uid, ServerPy.consistent (ServerPy.ServerAgent_init uid)) ∧
  (∀ clock r s h, ServerPy.consistent (ServerPy.begin_service clock r s h).1) ∧
  (∀ s t, ServerPy.consistent (ServerPy.complete_service s t)) ∧
  (∀ r s, ServerPy.consistent s → ServerPy.consistent (ServerPy.enqueue r s)) ∧
  (∀ clock s h, ServerPy.consistent s →
     ServerPy.consistent (ServerPy.take_next clock s h).1) ∧
  (∀ clock s h s' h', ServerPy.consistent s →
     ServerPy.ServerAgent_step clock s h = Returned (s', h') → ServerPy.consistent s') ∧
  (∀ uid, MesaPy.consistent (MesaPy.ServerAgent_init uid)) ∧
  (∀ r s h, MesaPy.consistent (MesaPy.begin_service r s h).1) ∧
  (∀ s t, MesaPy.consistent (MesaPy.complete_service s t)) ∧
  (∀ r s, MesaPy.consistent s → MesaPy.consistent (MesaPy.enqueue r s)) ∧
  (∀ s h, MesaPy.consistent s → MesaPy.consistent (MesaPy.take_next s h).1) ∧
  (∀ s h s' h', MesaPy.consistent s →
     MesaPy.ServerAgent_step s h = Returned (s', h') → MesaPy.consistent s').
Proof.
  intros Hms Hmm. split_and!.
  - intros s Hs. apply list_elem_of_lookup in Hs. destruct Hs as [i Hi].
    exact (ServerPy.wf_consistent _ _ (reachable_well_formed _ Hms) _ _ Hi).
  - destruct (reachable_erase_bounded _ Hmm) as (ms' & Hms' & <- & _).
    intros s Hs. simpl in Hs. apply list_elem_of_fmap in Hs. destruct Hs as (s0 & -> & Hs0).
    apply list_elem_of_lookup in Hs0. destruct Hs0 as [i Hi].
    exact (ServerPy.wf_consistent _ _ (reachable_well_formed _ Hms') _ _ Hi).
  - intros uid. split; [done|]. by intros [? ?].
  - intros clock r s h. split; eauto.
  - intros s t. split; [done|]. by intros [? ?].
  - intros r s Hc. exact Hc.
  - intros clock s h Hc. destruct (ServerPy.take_next clock s h) as [s2 h2] eqn:Ht.
    destruct (take_next_cases _ _ _ _ _ Ht) as [(-> & _)|(r & q & _ & _ & Heq)]; [done|].
    injection Heq as -> _. split; eauto.
  - apply consistent_ServerAgent_step.
  - intros uid. split; [done|]. by intros [? ?].
  - intros r s h. split; eauto.
  - intros s t. split; [done|]. by intros [? ?].
  - intros r s Hc. exact Hc.
  - intros s h Hc. destruct (MesaPy.take_next s h) as [s2 h2] eqn:Ht.
    destruct (take_next_cases_mesa _ _ _ _ Ht) as [(-> & _)|(r & q & _ & _ & Heq)]; [done|].
    injection Heq as -> _. split; eauto.
  - apply consistent_ServerAgent_step_mesa.
Qed.

Lemma busy_iff_current_task_witness :
  ServerPy.reachable one_server_serving ∧ MesaPy.reachable one_server_mesa_serving ∧
  (ServerPy.busy (ServerPy.mkServerAgent 0 true (Some 0%nat) 0 [] 0) = true
   ↔ is_Some (ServerPy.current_task (ServerPy.mkServerAgent 0 true (Some 0%nat) 0 [] 0))).
Proof.
  split; [exact reachable_one_server_serving|].
  split; [exact reachable_one_server_mesa_serving|].
  apply (proj1 (busy_iff_current_task one_server_serving one_server_mesa_serving
                  reachable_one_server_serving reachable_one_server_mesa_serving)).
  apply list_elem_of_here.
Defined.

(** C10.  [ServerAgent.step] returns for every server whose
    [current_task], if any, designates a task (a Python reference always
    does).  The decrement is guarded by both [busy] and [current_task]:
    an idle server, or one marked busy without a current task, changes
    no remaining service time, and a server marked busy without current
    task is left as it is; otherwise the current task, and only it,
    loses one tick.  An idle server with an empty queue is left
    unchanged, and a step takes at most one task from the queue, its
    first.  The same holds in [mesa.py]. *)
Theorem ServerAgent_step_guarded (clock : Z)
    (s : ServerPy.ServerAgent) (h : list ServerPy.TaskAgent)
    (sm : MesaPy.ServerAgent) (hm : list MesaPy.TaskAgent) :
  (∀ r, ServerPy.current_task s = Some r → is_Some (h !! r)) →
  (∀ r, MesaPy.current_task sm = Some r → is_Some (hm !! r)) →
  (∃ s' h', ServerPy.ServerAgent_step clock s h = Returned (s', h') ∧
    (ServerPy.busy s = false ∨ ServerPy.current_task s = None →
       ServerPy.remaining_service_time <$> h' = ServerPy.remaining_service_time <$> h) ∧
    (∀ r t, ServerPy.busy s = true → ServerPy.current_task s = Some r → h !! r = Some t →
       ServerPy.remaining_service_time <$> h'
         = <[r := ServerPy.remaining_service_time t - 1]>
             (ServerPy.remaining_service_time <$> h)) ∧
    (ServerPy.busy s = true → ServerPy.current_task s = None → s' = s ∧ h' = h) ∧
    (ServerPy.busy s = false → ServerPy.queue s = [] → s' = s ∧ h' = h) ∧
    (ServerPy.queue s' = ServerPy.queue s ∨
     ∃ r, ServerPy.queue s = r :: ServerPy.queue s')) ∧
  (∃ s' h', MesaPy.ServerAgent_step sm hm = Returned (s', h') ∧
    (MesaPy.busy sm = false ∨ MesaPy.current_task sm = None →
       MesaPy.remaining_service_time <$> h' = MesaPy.remaining_service_time <$> hm) ∧
    (∀ r t, MesaPy.busy sm = true → MesaPy.current_task sm = Some r → hm !! r = Some t →
       MesaPy.remaining_service_time <$> h'
         = <[r := MesaPy.remaining_service_time t - 1]>
             (MesaPy.remaining_service_time <$> hm)) ∧
    (MesaPy.busy sm = true → MesaPy.current_task sm = None → s' = sm ∧ h' = hm) ∧
    (MesaPy.busy sm = false → MesaPy.queue sm = [] → s' = sm ∧ h' = hm) ∧
    (MesaPy.queue s' = MesaPy.queue sm ∨
     ∃ r, MesaPy.queue sm = r :: MesaPy.queue s')).
Proof.
  intros Hs Hm. split; [by apply ServerAgent_step_spec|by apply ServerAgent_step_spec_mesa].
Qed.

Lemma ServerAgent_step_guarded_witness :
  ∃ s' h',
    ServerPy.ServerAgent_step 0
      (ServerPy.mkServerAgent 0 true None 0 [1%nat] 0)
      [ServerPy.TaskAgent_init 0 0 3; ServerPy.TaskAgent_init 1 1 2]
    = Returned (s', h') ∧
    s' = ServerPy.mkServerAgent 0 true None 0 [1%nat] 0.
Proof.
  destruct (ServerAgent_step_guarded 0
              (ServerPy.mkServerAgent 0 true None 0 [1%nat] 0)
              [ServerPy.TaskAgent_init 0 0 3; ServerPy.TaskAgent_init 1 1 2]
              (MesaPy.mkServerAgent 0 true (Some 0%nat) 0 [])
              [MesaPy.TaskAgent_init 0 3])
    as [(s' & h' & Hstep & _ & _ & Hsame & _) _].
  - intros r Hr. discriminate Hr.
  - intros r Hr. injection Hr as <-. by eexists.
  - exists s', h'. split; [exact Hstep|]. exact (proj1 (Hsame eq_refl eq_refl)).
Defined.

(** C2, as amended.  For every new task and every non-empty collection
    of servers whose ids are their positions (as constructed): if a
    server is idle, the task goes to the idle server of lowest id, which
    becomes busy with it as current task, and the task is marked started;
    otherwise every server is busy and the task is appended to the queue
    of the server with the fewest queued tasks, of lowest id among
    those, and the task itself is left untouched.  The same holds in
    [mesa.py].  (On an empty collection the call raises.) *)
Theorem dispatch_policy (clock : Z) (task : nat)
    (svs : list ServerPy.ServerAgent) (h : list ServerPy.TaskAgent)
    (svm : list MesaPy.ServerAgent) (hm : list MesaPy.TaskAgent) :
  svs ≠ [] → (∀ i s, svs !! i = Some s → ServerPy.unique_id s = Z.of_nat i) →
  svm ≠ [] → (∀ i s, svm !! i = Some s → MesaPy.unique_id s = Z.of_nat i) →
  (∃ svs' h', ServerPy.dispatch clock task svs h = Returned (svs', h') ∧
    ((∃ i s, svs !! i = Some s ∧ ServerPy.busy s = false ∧
        (∀ k y, svs !! k = Some y → ServerPy.busy y = false →
                ServerPy.unique_id s ≤ ServerPy.unique_id y) ∧
        svs' = <[i := ServerPy.mkServerAgent (ServerPy.unique_id s) true (Some task)
                         (ServerPy.total_service_time s) (ServerPy.queue s)
                         (ServerPy.total_tasks_served s)]> svs ∧
        h' = alter (ServerPy.start_task (ServerPy.unique_id s) clock) task h)
     ∨
     ((∀ k y, svs !! k = Some y → ServerPy.busy y = true) ∧
      ∃ j s, svs !! j = Some s ∧
        (∀ k y, svs !! k = Some y →
                (length (ServerPy.queue s) ≤ length (ServerPy.queue y))%nat) ∧
        (∀ k y, svs !! k = Some y →
                length (ServerPy.queue y) = length (ServerPy.queue s) →
                ServerPy.unique_id s ≤ ServerPy.unique_id y) ∧
        svs' = <[j := ServerPy.with_queue (ServerPy.queue s ++ [task]) s]> svs ∧
        h' = h))) ∧
  (∃ svm' hm', MesaPy.dispatch task svm hm = Returned (svm', hm') ∧
    ((∃ i s, svm !! i = Some s ∧ MesaPy.busy s = false ∧
        (∀ k y, svm !! k = Some y → MesaPy.busy y = false →
                MesaPy.unique_id s ≤ MesaPy.unique_id y) ∧
        svm' = <[i := MesaPy.mkServerAgent (MesaPy.unique_id s) true (Some task)
                         (MesaPy.total_service_time s) (MesaPy.queue s)]> svm ∧
        hm' = alter (MesaPy.start_task (MesaPy.unique_id s)) task hm)
     ∨
     ((∀ k y, svm !! k = Some y → MesaPy.busy y = true) ∧
      ∃ j s, svm !! j = Some s ∧
        (∀ k y, svm !! k = Some y →
                (length (MesaPy.queue s) ≤ length (MesaPy.queue y))%nat) ∧
        (∀ k y, svm !! k = Some y →
                length (MesaPy.queue y) = length (MesaPy.queue s) →
                MesaPy.unique_id s ≤ MesaPy.unique_id y) ∧
        svm' = <[j := MesaPy.with_queue (MesaPy.queue s ++ [task]) s]> svm ∧
        hm' = hm))).
Proof.
  intros Hne Hids Hnem Hidsm. split.
  - exact (dispatch_spec clock task svs h Hne Hids).
  - exact (dispatch_spec_mesa task svm hm Hnem Hidsm).
Qed.

Lemma dispatch_policy_witness :
  ∃ svs' h',
    ServerPy.dispatch 5 1
      [ServerPy.mkServerAgent 0 true (Some 0%nat) 0 [] 0; ServerPy.ServerAgent_init 1]
      [ServerPy.TaskAgent_init 4 4 3; ServerPy.TaskAgent_init 5 5 2]
    = Returned (svs', h').
Proof.
  destruct (dispatch_policy 5 1
              [ServerPy.mkServerAgent 0 true (Some 0%nat) 0 [] 0; ServerPy.ServerAgent_init 1]
              [ServerPy.TaskAgent_init 4 4 3; ServerPy.TaskAgent_init 5 5 2]
              [MesaPy.ServerAgent_init 0]
              [MesaPy.TaskAgent_init 0 2])
    as [(svs' & h' & Hd & _) _].
  - discriminate.
  - intros [|[|i]] s Hs; simpl in Hs; [by injection Hs as <-..|discriminate Hs].
  - discriminate.
  - intros [|i] s Hs; simpl in Hs; [by injection Hs as <-|discriminate Hs].
  - exists svs', h'. exact Hd.
Defined.

(** C2 fails on the empty collection, which the constructor produces for
    [num_servers = 0]: no server is idle, so the task should be appended
    to the queue of the server with the fewest queued tasks, but the
    first arrival raises [ValueError] ([min] of an empty sequence). *)
Lemma dispatch_without_servers_raises :
  ∃ m, ServerPy.QueueServerModel_init 0 (9 # 10) (4 # 10) 100 = Returned m ∧
       ServerPy.servers m = [] ∧
       ServerPy.QueueServerModel_step (arrival 2 []) m = Raised ValueError.
Proof. eexists. split; [reflexivity|]. split; reflexivity. Qed.





(** C3 (the code departs from the claim and from its own comment).  One
    server; a task with service time 3 arrives in step 0 and is assigned
    at once (queue wait 0); nothing else arrives.  The task is finalized
    in step 2: no task is served after steps 0 and 1, one after step 2.
    Its time in system is 2, but the loop over the scheduled tasks adds
    [current_step - arrival_time] for it in every step from its start
    on: [total_time_in_system] is 0, 1, 3 after steps 0, 1, 2 and 6
    after step 3.  With a second task (service time 1) arriving in step
    1, which waits one step in the queue and starts in step 2, the loop
    adds its wait in step 2, before it is finalized, and again in every
    later step: [total_queue_wait_time] is 1, 2, 3 after steps 2, 3, 4
    while the waits of the finalized tasks sum to 0, 1, 1. *)
Theorem statistics_recount_started_tasks :
  (∃ m1 m2 m3 m4,
     ServerPy.QueueServerModel_step (arrival 3 [0%nat]) one_server = Returned m1 ∧
     ServerPy.QueueServerModel_step (no_arrival [0%nat]) m1 = Returned m2 ∧
     ServerPy.QueueServerModel_step (no_arrival [0%nat]) m2 = Returned m3 ∧
     ServerPy.QueueServerModel_step (no_arrival [0%nat]) m3 = Returned m4 ∧
     ServerPy.tasks_served <$> [m1; m2; m3; m4] = [0; 0; 1; 1] ∧
     ServerPy.arrival_time <$> ServerPy.tasks m4 = [0] ∧
     ServerPy.total_time_in_system <$> [m1; m2; m3; m4] = [0; 1; 3; 6]) ∧
  (∃ m1 m2 m3 m4 m5,
     ServerPy.QueueServerModel_step (arrival 3 [0%nat]) one_server = Returned m1 ∧
     ServerPy.QueueServerModel_step (arrival 1 [0%nat]) m1 = Returned m2 ∧
     ServerPy.QueueServerModel_step (no_arrival [0%nat]) m2 = Returned m3 ∧
     ServerPy.QueueServerModel_step (no_arrival [0%nat]) m3 = Returned m4 ∧
     ServerPy.QueueServerModel_step (no_arrival [0%nat]) m4 = Returned m5 ∧
     ServerPy.tasks_served <$> [m1; m2; m3; m4; m5] = [0; 0; 1; 2; 2] ∧
     ServerPy.queue_wait_time <$> ServerPy.tasks m5 = [0; 1] ∧
     ServerPy.total_queue_wait_time <$> [m1; m2; m3; m4; m5] = [0; 0; 1; 2; 3]).
Proof.
  split.
  - eexists _, _, _, _.
    do 4 (split; [vm_compute; reflexivity|]).
    split_and!; vm_compute; reflexivity.
  - eexists _, _, _, _, _.
    do 5 (split; [vm_compute; reflexivity|]).
    split_and!; vm_compute; reflexivity.
Qed.

Lemma step_total_tasks d m m' :
  ServerPy.QueueServerModel_step d m = Returned m' →
  ServerPy.total_tasks m' =
    if Qltb (ServerPy.arrival_draw d) (ServerPy.task_arrival_rate m)
    then ServerPy.total_tasks m + 1 else ServerPy.total_tasks m.
Proof.
  intros H. destruct (QueueServerModel_step_inv _ _ _ H) as (n & svs & h & Ha & _ & -> & _).
  by destruct (arrive_cases _ _ _ _ _ Ha) as [(-> & -> & _)|(x0 & _ & -> & _ & -> & _)].
Qed.

(** C4, as amended.  [total_tasks] is incremented at the arrival of a
    task, not at its finalization: in every state of every run it is
    the number of tasks created so far, and it equals the sum of the
    servers' [total_tasks_served] plus the number of busy servers plus
    the total length of the queues.  The sum of [total_tasks_served] is
    therefore at most [total_tasks], the difference being the tasks in
    service or queued. *)
Theorem total_tasks_counts_arrivals (m : ServerPy.QueueServerModel) :
  ServerPy.reachable m →
  ServerPy.total_tasks m = Z.of_nat (length (ServerPy.tasks m)) ∧
  ServerPy.total_tasks m
    = ServerPy.tasks_served m + Z.of_nat (ServerPy.get_busy_servers m)
      + Z.of_nat (sum_list (ServerPy.get_queue_lengths m)) ∧
  ServerPy.tasks_served m ≤ ServerPy.total_tasks m ∧
  (∀ d m', ServerPy.QueueServerModel_step d m = Returned m' →
     ServerPy.total_tasks m' =
       if Qltb (ServerPy.arrival_draw d) (ServerPy.task_arrival_rate m)
       then ServerPy.total_tasks m + 1 else ServerPy.total_tasks m).
Proof.
  intros Hm. destruct (reachable_counts _ Hm) as [Hload Hlen].
  rewrite total_load_split in Hload.
  unfold ServerPy.tasks_served, ServerPy.get_busy_servers, ServerPy.get_queue_lengths.
  split_and!; [done|done|lia|].
  intros d m'. apply step_total_tasks.
Qed.

Lemma total_tasks_counts_arrivals_witness :
  ServerPy.reachable one_server_serving ∧
  ServerPy.total_tasks one_server_serving
    = ServerPy.tasks_served one_server_serving
      + Z.of_nat (ServerPy.get_busy_servers one_server_serving)
      + Z.of_nat (sum_list (ServerPy.get_queue_lengths one_server_serving)).
Proof.
  split; [exact reachable_one_server_serving|].
  exact (proj1 (proj2 (total_tasks_counts_arrivals one_server_serving
                         reachable_one_server_serving))).
Defined.

(** C4 fails as soon as a task is in the system: after a first step in
    which a task of service time 2 arrives, [total_tasks] is 1 although
    no task has been finalized and the servers' [total_tasks_served] sum
    to 0. *)
Lemma total_tasks_exceeds_tasks_served :
  ∃ m', ServerPy.QueueServerModel_step (arrival 2 [0%nat]) one_server = Returned m' ∧
        ServerPy.total_tasks m' = 1 ∧
        ServerPy.tasks_served m' = 0 ∧
        ServerPy.remaining_service_time <$> ServerPy.tasks m' = [1].
Proof. eexists. split; [reflexivity|]. by split_and!. Qed.

(** C6, as amended.  In [server.py] every created task has
    [initial_service_time] equal to the float that [random.expovariate]
    drew, a finite one, truncated towards zero to an integer, and
    nothing clamps it.  For a draw that is not negative it is the floor
    of the draw, it is not negative, and it is 0 whenever the draw is
    below 1.  For a draw that is not positive it is the ceiling of the
    draw and it is not positive. *)
Theorem service_time_is_truncated_draw (d : ServerPy.Draws) (m m' : ServerPy.QueueServerModel) :
  Qltb (ServerPy.arrival_draw d) (ServerPy.task_arrival_rate m) = true →
  ServerPy.QueueServerModel_step d m = Returned m' →
  ∃ x t, ServerPy.service_draw d = finite x ∧
       ServerPy.tasks m' !! length (ServerPy.tasks m) = Some t ∧
       length (ServerPy.tasks m') = S (length (ServerPy.tasks m)) ∧
       int (ServerPy.service_draw d) = Returned (ServerPy.initial_service_time t) ∧
       ServerPy.initial_service_time t = truncate x ∧
       ((0 <= x)%Q →
          0 ≤ ServerPy.initial_service_time t ∧
          (inject_Z (ServerPy.initial_service_time t) <= x)%Q ∧
          (x < inject_Z (ServerPy.initial_service_time t) + 1)%Q) ∧
       ((0 <= x)%Q → (x < 1)%Q → ServerPy.initial_service_time t = 0) ∧
       ((x <= 0)%Q →
          ServerPy.initial_service_time t ≤ 0 ∧
          (x <= inject_Z (ServerPy.initial_service_time t))%Q ∧
          (inject_Z (ServerPy.initial_service_time t) - 1 < x)%Q).
Proof.
  intros Harr Hstep.
  destruct (QueueServerModel_step_inv _ _ _ Hstep) as (n & svs & h & Ha & _).
  destruct (arrive_cases _ _ _ _ _ Ha) as [(Hno & _)|(x & Hx & _)]; [congruence|].
  pose proof (step_initial_times _ _ _ Hstep) as Hini.
  rewrite Harr, Hx in Hini. cbn [int] in Hini.
  assert (Hlen : length (ServerPy.tasks m') = S (length (ServerPy.tasks m))).
  { apply (f_equal length) in Hini. rewrite length_app, !length_fmap in Hini.
    simpl in Hini. lia. }
  destruct (lookup_lt_is_Some_2 (ServerPy.tasks m') (length (ServerPy.tasks m)))
    as [t Ht]; [lia|].
  assert (Hit : ServerPy.initial_service_time t = truncate x).
  { apply (f_equal (λ l, l !! length (ServerPy.tasks m))) in Hini.
    rewrite list_lookup_fmap, Ht in Hini. simpl in Hini.
    rewrite list_lookup_middle in Hini by (by rewrite length_fmap).
    by injection Hini. }
  exists x, t. rewrite Hx, Hit. split_and!; try done.
  - apply truncate_floor.
  - apply truncate_zero.
  - apply truncate_ceiling.
Qed.

Lemma service_time_is_truncated_draw_witness :
  ∃ m' t,
    ServerPy.QueueServerModel_step (arrival (5 # 2) [0%nat]) one_server = Returned m' ∧
    ServerPy.tasks m' !! 0%nat = Some t ∧
    ServerPy.initial_service_time t = 2.
Proof.
  destruct (service_time_is_truncated_draw (arrival (5 # 2) [0%nat]) one_server _
              eq_refl eq_refl) as (x & t & Hx & Ht & _ & _ & Hi & _).
  injection Hx as <-.
  eexists _, t. split; [reflexivity|]. split; [exact Ht|exact Hi].
Defined.

(** C6 fails for every draw below 1: with the draw 0.5 the created task
    has [initial_service_time] 0, not 1. *)
Lemma service_time_zero_created :
  ∃ m' t,
    ServerPy.QueueServerModel_step (arrival (1 # 2) [0%nat]) one_server = Returned m' ∧
    ServerPy.tasks m' = [t] ∧
    ServerPy.initial_service_time t = 0.
Proof. eexists _, _. split; [reflexivity|]. by split. Qed.

(** A service rate below zero, which the constructor accepts, gives
    draws that are not positive: with [QueueServerModel(1, 0.9, -0.4,
    100)] and the draw -2.5 the created task has service time -2, and
    the activation of the same step releases it at -3. *)
Lemma negative_service_time_created :
  ∃ m' t,
    ServerPy.QueueServerModel_step (arrival (-5 # 2) [0%nat])
      (ServerPy.mkModel 1 (9 # 10) (-4 # 10) 100 true 0 0 0 0
         [ServerPy.ServerAgent_init 0] [])
    = Returned m' ∧
    ServerPy.tasks m' = [t] ∧
    ServerPy.initial_service_time t = -2 ∧
    ServerPy.remaining_service_time t = -3.
Proof. eexists _, _. split; [reflexivity|]. by split_and!. Qed.

(** C7, as amended.  In every state of every run of [server.py] every
    task has [min(0, initial_service_time - 1) <= remaining_service_time
    <= initial_service_time]: the remaining time never falls below zero
    for a task whose service time is at least 1.  A task that no server
    holds any more, as current task or in a queue, has exactly
    [min(0, initial_service_time - 1)] left: 0 for a service time of at
    least 1, and -1 for a task created with service time 0.  A task
    with a service time of 0 or less that a server still holds has not
    been decremented: what it has left is its service time.  In
    [mesa.py], where service times lie between 2 and 10, the remaining
    time never falls below zero. *)
Theorem remaining_service_time_floor
    (ms : ServerPy.QueueServerModel) (mm : MesaPy.QueueServerModel) :
  ServerPy.reachable ms → MesaPy.reachable mm →
  (∀ t, t ∈ ServerPy.tasks ms →
        Z.min 0 (ServerPy.initial_service_time t - 1) ≤ ServerPy.remaining_service_time t
        ∧ ServerPy.remaining_service_time t ≤ ServerPy.initial_service_time t) ∧
  (∀ t, t ∈ ServerPy.tasks ms → 1 ≤ ServerPy.initial_service_time t →
        0 ≤ ServerPy.remaining_service_time t) ∧
  (∀ r t, ServerPy.tasks ms !! r = Some t → ¬ ServerPy.held (ServerPy.servers ms) r →
        ServerPy.remaining_service_time t
        = Z.min 0 (ServerPy.initial_service_time t - 1)) ∧
  (∀ r t, ServerPy.tasks ms !! r = Some t → ServerPy.held (ServerPy.servers ms) r →
        ServerPy.initial_service_time t ≤ 0 →
        ServerPy.remaining_service_time t = ServerPy.initial_service_time t) ∧
  (∀ t, t ∈ MesaPy.tasks mm →
        2 ≤ MesaPy.initial_service_time t ≤ 10 ∧ 0 ≤ MesaPy.remaining_service_time t).
Proof.
  intros Hms Hmm.
  assert (Hfloor : ∀ m t, ServerPy.reachable m → t ∈ ServerPy.tasks m →
            Z.min 0 (ServerPy.initial_service_time t - 1)
            ≤ ServerPy.remaining_service_time t).
  { intros m t Hm Ht. apply list_elem_of_lookup in Ht. destruct Ht as [r Hr].
    exact (ServerPy.wf_floor _ _ (reachable_well_formed _ Hm) _ _ Hr). }
  pose proof (reachable_well_formed _ Hms) as Hwf.
  pose proof (reachable_service_bounds _ Hms) as Hsb.
  split_and!.
  - intros t Ht. split; [by apply (Hfloor ms)|].
    apply list_elem_of_lookup in Ht. destruct Ht as [r Hr].
    exact (ServerPy.sb_upper _ _ Hsb _ _ Hr).
  - intros t Ht Hi. specialize (Hfloor ms t Hms Ht). lia.
  - intros r t Hr Hnh. exact (ServerPy.sb_released _ _ Hsb _ _ Hr Hnh).
  - intros r t Hr (i & s & Hi & Hin) Hle.
    apply elem_of_refs in Hin. destruct Hin as [Hc|Hq].
    + pose proof (ServerPy.sb_upper _ _ Hsb _ _ Hr).
      destruct (ServerPy.wf_current _ _ Hwf _ _ _ _ Hi Hc Hr); [lia|done].
    + exact (proj1 (ServerPy.wf_queued _ _ Hwf _ _ _ _ Hi Hq Hr)).
  - destruct (reachable_erase_bounded _ Hmm) as (ms' & Hms' & <- & _ & Hb).
    intros t Ht. simpl in Ht. apply list_elem_of_fmap in Ht. destruct Ht as (t0 & -> & Ht0).
    specialize (Hfloor ms' t0 Hms' Ht0).
    assert (Hi : 2 ≤ ServerPy.initial_service_time t0 ≤ 10).
    { rewrite Forall_fmap in Hb. rewrite Forall_forall in Hb. by apply Hb. }
    simpl. lia.
Qed.

Lemma remaining_service_time_floor_witness :
  ServerPy.reachable one_server_serving ∧ MesaPy.reachable one_server_mesa_serving ∧
  0 ≤ ServerPy.remaining_service_time (ServerPy.mkTaskAgent 0 2 1 (Some 0) 0 0) ∧
  0 ≤ MesaPy.remaining_service_time (MesaPy.mkTaskAgent 0 2 1 (Some 0)).
Proof.
  split; [exact reachable_one_server_serving|].
  split; [exact reachable_one_server_mesa_serving|].
  destruct (remaining_service_time_floor one_server_serving one_server_mesa_serving
              reachable_one_server_serving reachable_one_server_mesa_serving)
    as (_ & Hs & _ & _ & Hm).
  split.
  - apply Hs; [apply list_elem_of_here|simpl; lia].
  - apply Hm. apply list_elem_of_here.
Defined.

(** C7 fails in [server.py] for a task of service time 0, which the
    draw 0.5 creates: assigned to the idle server, it is decremented by
    the activation of the same step and keeps [remaining_service_time]
    -1. *)
Lemma remaining_service_time_negative :
  ∃ m' t,
    ServerPy.QueueServerModel_step (arrival (1 # 2) [0%nat]) one_server = Returned m' ∧
    ServerPy.tasks m' = [t] ∧
    ServerPy.remaining_service_time t = -1.
Proof. eexists _, _. split; [reflexivity|]. by split. Qed.

(** C8, as amended.  The constructor validates nothing: for all
    arguments, valid or not, it returns a model, with
    [max(0, num_servers)] idle servers numbered from 0, no task, all
    counters at zero, the clock at 0 and [running] set.  No
    configuration error is ever reported.  The same holds in [mesa.py]. *)
Theorem construction_never_fails (n : Z) (arrival_rate service_rate : Q) (limit : Z) :
  ∃ m mm,
    ServerPy.QueueServerModel_init n arrival_rate service_rate limit = Returned m ∧
    MesaPy.QueueServerModel_init n arrival_rate limit = Returned mm ∧
    ServerPy.servers m
      = (λ i, ServerPy.ServerAgent_init (Z.of_nat i)) <$> seq 0 (Z.to_nat n) ∧
    length (ServerPy.servers m) = Z.to_nat (Z.max 0 n) ∧
    ServerPy.untouched m ∧
    ServerPy.running m = true ∧ ServerPy.current_step m = 0 ∧
    ServerPy.num_servers m = n ∧ ServerPy.task_arrival_rate m = arrival_rate ∧
    ServerPy.task_service_rate m = service_rate ∧ ServerPy.max_steps m = limit ∧
    mm = erase_model m.
Proof.
  eexists _, _. split; [reflexivity|]. split; [reflexivity|]. split_and!; try done.
  - simpl. rewrite length_fmap, length_seq. lia.
  - by eapply untouched_init.
  - unfold erase_model. simpl. f_equal.
    rewrite <- list_fmap_compose. by apply list_fmap_ext.
Qed.

(** C8 fails: the constructor accepts [num_servers = 0], an arrival rate
    of -0.5, a service rate of 0 and [max_steps = -1], none of which the
    specification accepts, and returns a model; the main loop runs on it
    to completion (one step, without arrival). *)
Lemma invalid_configuration_accepted :
  ¬ spec_valid_configuration 0 (-1 # 2) 0 (-1) ∧
  ∃ m m',
    ServerPy.QueueServerModel_init 0 (-1 # 2) 0 (-1) = Returned m ∧
    ServerPy.main_loop [ServerPy.mkDraws (1 # 2) (finite 0) []] m = Some (Returned m') ∧
    ServerPy.current_step m' = 1 ∧ ServerPy.running m' = false.
Proof.
  split.
  - intros (Hn & _). lia.
  - eexists _, _. split; [reflexivity|]. split; [reflexivity|]. by split.
Qed.

Lemma get_avg_zero m :
  ServerPy.total_tasks m = 0 →
  ServerPy.get_avg_time_in_queue m = Returned 0%Q ∧
  ServerPy.get_avg_time_in_system m = Returned 0%Q.
Proof.
  intros H. unfold ServerPy.get_avg_time_in_queue, ServerPy.get_avg_time_in_system.
  by rewrite H.
Qed.

(** C9.  Whenever [total_tasks] is 0, [get_avg_time_in_queue] and
    [get_avg_time_in_system] return 0 and raise nothing.  In particular
    a model run to completion ([while model.running: model.step()])
    without any arrival stops and returns 0 from both. *)
Theorem averages_zero_without_tasks (m : ServerPy.QueueServerModel)
    (n : Z) (arrival_rate service_rate : Q) (limit : Z)
    (m0 : ServerPy.QueueServerModel) (ds : list ServerPy.Draws) :
  ServerPy.total_tasks m = 0 →
  ServerPy.QueueServerModel_init n arrival_rate service_rate limit = Returned m0 →
  Forall (λ d, Qltb (ServerPy.arrival_draw d) arrival_rate = false) ds →
  Z.max 1 limit ≤ Z.of_nat (length ds) →
  (ServerPy.get_avg_time_in_queue m = Returned 0%Q ∧
   ServerPy.get_avg_time_in_system m = Returned 0%Q) ∧
  ∃ m', ServerPy.main_loop ds m0 = Some (Returned m') ∧
        ServerPy.running m' = false ∧
        ServerPy.total_tasks m' = 0 ∧
        ServerPy.get_avg_time_in_queue m' = Returned 0%Q ∧
        ServerPy.get_avg_time_in_system m' = Returned 0%Q.
Proof.
  intros Hm Hinit Hds Hlen. split; [by apply get_avg_zero|].
  pose proof (untouched_init _ _ _ _ _ Hinit) as Hu.
  injection Hinit as <-.
  destruct (main_loop_untouched ds _ Hu) as (m' & Hloop & Hu' & Hr).
  - done.
  - simpl. intros _. lia.
  - exists m'. destruct Hu' as (_ & Ht & _).
    destruct (get_avg_zero _ Ht). by split_and!.
Qed.

Lemma averages_zero_without_tasks_witness :
  ∃ m', ServerPy.main_loop (replicate 3 (no_arrival [0%nat]))
          (ServerPy.mkModel 1 (9 # 10) (4 # 10) 3 true 0 0 0 0
             [ServerPy.ServerAgent_init 0] [])
        = Some (Returned m') ∧
        ServerPy.get_avg_time_in_queue m' = Returned 0%Q ∧
        ServerPy.get_avg_time_in_system m' = Returned 0%Q.
Proof.
  destruct (averages_zero_without_tasks one_server 1 (9 # 10) (4 # 10) 3 _
              (replicate 3 (no_arrival [0%nat])) eq_refl eq_refl)
    as (_ & m' & Hloop & _ & _ & Hq & Hs).
  - repeat constructor.
  - simpl. lia.
  - exists m'. split; [exact Hloop|]. split; [exact Hq|exact Hs].
Defined.

(** * Further properties of the code

    The rest of the file covers what the properties above leave out: the
    main loop, the clock, the order kept by queues and time stamps, the
    accounting of service time, the remaining queries and the run of
    [mesa.py] as a whole. *)

(** ** The clock and the main loop *)

Section ServerPyRun.
Import ServerPy.

Lemma length_activate clock k svs h svs' h' :
  activate clock k svs h = Returned (svs', h') → length svs' = length svs.
Proof.
  intros H. destruct (activate_inv _ _ _ _ _ _ H)
    as [(_ & -> & _)|(s & s' & _ & _ & ->)]; [done|]. apply length_insert.
Qed.

Lemma length_servers_schedule_step clock order : ∀ svs h svs' h',
  schedule_step clock order svs h = Returned (svs', h') → length svs' = length svs.
Proof.
  induction order as [|k order IH]; intros svs h svs' h' H; simpl in H.
  - by simplify_eq.
  - apply bind_Returned in H. destruct H as ([svs1 h1] & Ha & H).
    rewrite (IH _ _ _ _ H). by eapply length_activate.
Qed.

Lemma length_servers_arrive d m n svs h :
  arrive d m = Returned (n, svs, h) → length svs = length (servers m).
Proof.
  intros H. destruct (arrive_cases _ _ _ _ _ H) as [(_ & _ & -> & _)|(x0 & _ & _ & _ & _ & Hd)]; [done|].
  destruct (dispatch_cases _ _ _ _ _ _ Hd)
    as [(i & s & _ & -> & _)|(j & s & _ & _ & _ & -> & _)]; apply length_insert.
Qed.

Lemma length_servers_step d m m' :
  QueueServerModel_step d m = Returned m' → length (servers m') = length (servers m).
Proof.
  intros H. destruct (QueueServerModel_step_inv _ _ _ H) as (n & svs & h & Ha & Hs & _).
  rewrite (length_servers_schedule_step _ _ _ _ _ _ Hs).
  by eapply length_servers_arrive.
Qed.

(** What a run never changes, and how its clock and [running] stand. *)
Lemma reachable_frame m :
  reachable m →
  length (servers m) = Z.to_nat (num_servers m) ∧
  0 ≤ current_step m ∧
  (running m = true ↔ current_step m = 0 ∨ current_step m < max_steps m).
Proof.
  induction 1 as [n a s k m Hinit|d m m' _ (IHl & IHc & IHr) Hstep].
  - injection Hinit as <-. simpl. rewrite length_fmap, length_seq.
    split_and!; [done..|]. split; auto.
  - rewrite (length_servers_step _ _ _ Hstep).
    destruct (QueueServerModel_step_inv _ _ _ Hstep)
      as (n & svs & h & _ & _ & _ & -> & _ & -> & _ & _ & -> & ->).
    split_and!; [done|lia|].
    destruct (Z.geb_spec (current_step m + 1) (max_steps m)) as [Hge|Hlt].
    + split; [done|]. lia.
    + rewrite IHr. split; intros; lia.
Qed.

(** The loop on a model of a run: with enough draws it ends, either
    because [running] is cleared or with the exception of a step. *)
Lemma main_loop_ends ds : ∀ m,
  reachable m →
  (running m = true → Z.max 1 (max_steps m - current_step m) ≤ Z.of_nat (length ds)) →
  (∃ m', main_loop ds m = Some (Returned m') ∧ reachable m' ∧ running m' = false ∧
         num_servers m' = num_servers m ∧
         (running m = true →
          current_step m' = current_step m + Z.max 1 (max_steps m - current_step m))) ∨
  (main_loop ds m = Some (Raised ZeroDivisionError) ∧
   Qeq_bool (task_service_rate m) 0 = true) ∨
  (main_loop ds m = Some (Raised OverflowError) ∧
   Exists (λ d, service_draw d = infinity) ds) ∨
  (main_loop ds m = Some (Raised ValueError) ∧
   (num_servers m ≤ 0 ∨ Exists (λ d, service_draw d = nan) ds)).
Proof.
  induction ds as [|d ds IH]; intros m Hm Hlen.
  - destruct (running m) eqn:Hr; [simpl in Hlen; lia|].
    left. exists m. simpl. rewrite Hr. by split_and!.
  - destruct (running m) eqn:Hr; cycle 1.
    { left. exists m. simpl. rewrite Hr. by split_and!. }
    specialize (Hlen eq_refl). simpl length in Hlen. simpl. rewrite Hr.
    destruct (step_outcomes d m Hm)
      as [(m1 & Hs)|(_ & [(Hrate & Hs)|[(_ & Hinf & Hs)|[(_ & Hnan & Hs)
                                                        |(_ & _ & Hnil & Hs)]]])].
    + rewrite Hs.
      destruct (QueueServerModel_step_inv _ _ _ Hs)
        as (n & svs & h & _ & _ & _ & Hc & _ & Hn & _ & Hsr & Hk & Hr1).
      pose proof (reachable_step _ _ _ Hm Hs) as Hm1.
      destruct (reachable_frame _ Hm) as (_ & Hc0 & _).
      destruct (IH m1 Hm1)
        as [(m' & Hl & Hm' & Hr' & Hn' & Hc')|[(Hl & Hz)|[(Hl & Ho)|(Hl & Hv)]]].
      * rewrite Hr1, Hk, Hc.
        destruct (Z.geb_spec (current_step m + 1) (max_steps m)); [done|]. lia.
      * left. exists m'. split_and!; [done..|congruence|]. intros _.
        rewrite Hr1 in Hc'.
        destruct (Z.geb_spec (current_step m + 1) (max_steps m)) as [Hge|Hlt].
        -- destruct ds as [|d' ds']; simpl in Hl; rewrite Hr1 in Hl;
             destruct (Z.geb_spec (current_step m + 1) (max_steps m)); try lia;
             injection Hl as <-; lia.
        -- rewrite Hr in Hc'. rewrite (Hc' eq_refl), Hk, Hc. lia.
      * right. left. split; [done|]. by rewrite <- Hsr.
      * right. right. left. split; [done|]. by apply Exists_cons_tl.
      * do 3 right. split; [done|]. destruct Hv as [Hv|Hv].
        -- left. by rewrite <- Hn.
        -- right. by apply Exists_cons_tl.
    + right. left. by rewrite Hs.
    + right. right. left. rewrite Hs. split; [done|]. by apply Exists_cons_hd.
    + do 3 right. rewrite Hs. split; [done|]. right. by apply Exists_cons_hd.
    + do 3 right. rewrite Hs. split; [done|]. left.
      destruct (reachable_frame _ Hm) as (Hl & _). rewrite Hnil in Hl. simpl in Hl. lia.
Qed.

End ServerPyRun.

(** ** The order kept by queues and time stamps *)

Section ServerPyOrder.
Import ServerPy.

Lemma ascending_tail x l : ascending (x :: l) → ascending l.
Proof. intros H a b y z Ha Hb Hlt. apply (H (S a) (S b)); [done..|lia]. Qed.

Lemma ascending_snoc l r :
  ascending l → (∀ x, x ∈ l → (x < r)%nat) → ascending (l ++ [r]).
Proof.
  intros Hl Hr a b x y Ha Hb Hlt.
  apply lookup_app_Some in Hb. destruct Hb as [Hb|[Hge Hb]].
  - pose proof (lookup_lt_Some _ _ _ Hb). rewrite lookup_app_l in Ha by lia.
    by apply (Hl a b).
  - apply list_lookup_singleton_Some in Hb. destruct Hb as [Hb <-].
    rewrite lookup_app_l in Ha by lia. apply Hr. by eapply list_elem_of_lookup_2.
Qed.

Lemma task_timed_mono c c' n t :
  c ≤ c' → task_timed c n t → task_timed c' n t.
Proof. intros Hc (H1 & H2 & H3 & H4 & H5 & H6). split_and!; try done; lia. Qed.

Lemma task_timed_decrement c n t : task_timed c n t → task_timed c n (decrement t).
Proof. done. Qed.

Lemma task_timed_start c n uid t :
  0 ≤ uid < Z.of_nat n → task_timed c n t → task_timed c n (start_task uid c t).
Proof.
  intros Hu (H1 & H2 & H3 & H4 & H5 & H6). split_and!; simpl; try done; try lia.
  intros u [= <-]. done.
Qed.

Lemma arrival_alter_start uid clock r (h : list TaskAgent) :
  arrival_time <$> alter (start_task uid clock) r h = arrival_time <$> h.
Proof.
  rewrite (list_fmap_alter _ _ id); [by apply list_alter_id|].
  by apply Forall_true.
Qed.

Lemma arrival_insert_decrement (h : list TaskAgent) r t :
  h !! r = Some t → arrival_time <$> <[r := decrement t]> h = arrival_time <$> h.
Proof.
  intros Hr. rewrite list_fmap_insert. apply list_insert_id.
  by rewrite list_lookup_fmap, Hr.
Qed.

Lemma orderly_activate clock k svs h svs' h' :
  well_formed svs h → orderly clock svs h →
  activate clock k svs h = Returned (svs', h') →
  orderly clock svs' h'.
Proof.
  intros Hwf Hod Ha.
  destruct (activate_inv _ _ _ _ _ _ Ha) as [(_ & -> & ->)|(s & s' & Hk & Hs & ->)]; [done|].
  pose proof (lookup_lt_Some _ _ _ Hk) as Hklt.
  pose proof (wf_ids _ _ Hwf _ _ Hk) as Hid.
  assert (Huid : 0 ≤ unique_id s < Z.of_nat (length svs)) by lia.
  assert (Hother : ∀ i x r, i ≠ k → svs !! i = Some x → r ∈ refs s → r ∉ refs x).
  { intros i x r Hik Hi Hr Hx. apply Hik. by eapply (wf_owner _ _ Hwf). }
  assert (Hcur : ∀ i x r, svs !! i = Some x → current_task x = Some r → r ∈ refs x).
  { intros i x r _ Hc. apply elem_of_refs. auto. }
  destruct (ServerAgent_step_cases _ _ _ _ _ (wf_consistent _ _ Hwf _ _ Hk) Hs)
    as [(_ & _ & _ & -> & ->)
       |[(r & q & Hb & Hn & Hq & Heq)
        |(r0 & t & Hb & Hc & Hr0 &
            [(Hgt & -> & ->)|[(Hle & Hq & -> & ->)|(r & q & Hle & Hq & Heq)]])]].
  - by rewrite list_insert_id.
  - (* an idle server with a queued task *)
    rewrite (od_idle _ _ _ Hod _ _ Hk Hb) in Hq. done.
  - (* service goes on *)
    rewrite list_insert_id by done. split.
    + by eapply od_idle.
    + by eapply od_fifo.
    + intros i x r t' Hi Hx Hr. apply list_lookup_insert_Some in Hr.
      destruct Hr as [(<- & <- & _)|[_ Hr]]; [|by eapply od_backref].
      simpl. by eapply (od_backref _ _ _ Hod).
    + apply Forall_insert; [by eapply od_tasks|].
      apply task_timed_decrement. exact (Forall_lookup_1 _ _ _ _ (od_tasks _ _ _ Hod) Hr0).
    + rewrite arrival_insert_decrement by done. by eapply od_arrivals.
  - (* service ends, the queue is empty *)
    split.
    + intros i x Hi Hbx. insert_cases Hi; [done|by eapply od_idle].
    + intros i x Hi. insert_cases Hi; [|by eapply od_fifo].
      unfold refs. simpl. rewrite Hq. intros a b y z Ha'. by rewrite lookup_nil in Ha'.
    + intros i x r t' Hi Hx Hr. insert_cases Hi; [done|].
      apply list_lookup_insert_Some in Hr.
      destruct Hr as [(<- & <- & _)|[_ Hr]]; [|by eapply od_backref].
      simpl. by eapply (od_backref _ _ _ Hod).
    + rewrite length_insert. apply Forall_insert; [by eapply od_tasks|].
      apply task_timed_decrement. exact (Forall_lookup_1 _ _ _ _ (od_tasks _ _ _ Hod) Hr0).
    + rewrite arrival_insert_decrement by done. by eapply od_arrivals.
  - (* service ends, the next task is taken *)
    injection Heq as -> ->.
    assert (Hrs : r ∈ refs s) by (apply elem_of_refs; right; rewrite Hq; left).
    assert (Hr0s : r0 ∈ refs s) by (apply elem_of_refs; by left).
    assert (Hfifo : ascending (r0 :: r :: q)).
    { pose proof (od_fifo _ _ _ Hod _ _ Hk) as Hf. unfold refs in Hf.
      by rewrite Hc, Hq in Hf. }
    split.
    + intros i x Hi Hbx. insert_cases Hi; [done|by eapply od_idle].
    + intros i x Hi. insert_cases Hi; [|by eapply od_fifo].
      unfold refs. simpl. by apply ascending_tail in Hfifo.
    + intros i x r' t' Hi Hx Hr'. rewrite list_lookup_alter in Hr'.
      insert_cases Hi.
      * simpl in Hx. injection Hx as <-. rewrite decide_True in Hr' by done.
        destruct (<[r0:=decrement t]> h !! r) as [t0|]; [|done].
        by injection Hr' as <-.
      * assert (Hx' : r' ∈ refs x) by (by eapply Hcur).
        assert (r ≠ r') by (intros ->; by eapply (Hother i x r')).
        assert (r0 ≠ r') by (intros ->; by eapply (Hother i x r')).
        rewrite decide_False in Hr' by done.
        rewrite list_lookup_insert_ne in Hr' by done. by eapply od_backref.
    + rewrite length_insert. apply Forall_alter.
      * apply Forall_insert; [by eapply od_tasks|].
        apply task_timed_decrement.
        exact (Forall_lookup_1 _ _ _ _ (od_tasks _ _ _ Hod) Hr0).
      * intros t0 _ Ht0. by apply task_timed_start.
    + rewrite arrival_alter_start, arrival_insert_decrement by done.
      by eapply od_arrivals.
Qed.

Lemma orderly_schedule_step clock order : ∀ svs h svs' h',
  well_formed svs h → orderly clock svs h →
  schedule_step clock order svs h = Returned (svs', h') →
  orderly clock svs' h'.
Proof.
  induction order as [|k order IH]; intros svs h svs' h' Hwf Hod H; simpl in H.
  - by simplify_eq.
  - apply bind_Returned in H. destruct H as ([svs1 h1] & Ha & H).
    eapply IH; [| |exact H]; eauto using well_formed_activate, orderly_activate.
Qed.

Lemma orderly_mono c c' svs h :
  c ≤ c' → orderly c svs h → orderly c' svs h.
Proof.
  intros Hc Hod. split; [by eapply od_idle|by eapply od_fifo|by eapply od_backref| |
                         by eapply od_arrivals].
  eapply Forall_impl; [by eapply od_tasks|]. intros t. by apply task_timed_mono.
Qed.

(** The task created at clock [clock] joins the store. *)
Lemma orderly_alloc clock st svs h :
  well_formed svs h → orderly (clock - 1) svs h → 0 ≤ clock →
  orderly clock svs (h ++ [TaskAgent_init clock clock st]).
Proof.
  intros Hwf Hod Hc. split.
  - by eapply od_idle.
  - by eapply od_fifo.
  - intros i s r t Hi Hs Hr. rewrite lookup_app_l in Hr; [by eapply od_backref|].
    eapply (wf_bound _ _ Hwf); [done|]. apply elem_of_refs. auto.
  - apply Forall_app. split.
    + eapply Forall_impl; [by eapply od_tasks|]. intros t. apply task_timed_mono. lia.
    + constructor; [|constructor]. split_and!; simpl; try done; lia.
  - intros a b x y Ha Hb Hlt. rewrite fmap_app in Ha, Hb. simpl in Ha, Hb.
    apply lookup_app_Some in Hb. destruct Hb as [Hb|[Hge Hb]].
    + pose proof (lookup_lt_Some _ _ _ Hb). rewrite lookup_app_l in Ha by lia.
      by apply (od_arrivals _ _ _ Hod a b).
    + apply list_lookup_singleton_Some in Hb. destruct Hb as [Hb <-].
      rewrite lookup_app_l in Ha by lia.
      rewrite list_lookup_fmap in Ha. destruct (h !! a) as [t|] eqn:Ht; [|done].
      injection Ha as <-.
      destruct (Forall_lookup_1 _ _ _ _ (od_tasks _ _ _ Hod) Ht) as (_ & ? & _). lia.
Qed.

Lemma orderly_dispatch clock r svs h svs' h' :
  well_formed svs h → orderly clock svs h →
  (∀ i x r', svs !! i = Some x → r' ∈ refs x → (r' < r)%nat) →
  dispatch clock r svs h = Returned (svs', h') →
  orderly clock svs' h'.
Proof.
  intros Hwf Hod Hfresh Hd.
  assert (Hne : ∀ i x, svs !! i = Some x → current_task x ≠ Some r).
  { intros i x Hi Hc. assert (r < r)%nat; [|lia].
    eapply Hfresh; [done|]. apply elem_of_refs. auto. }
  destruct (dispatch_cases _ _ _ _ _ _ Hd)
    as [(k & s & Hf & -> & ->)|(j & s & Hf & _ & Hj & -> & ->)].
  - destruct (find_available_server_Some _ _ _ Hf) as (Hk & Hb & _).
    pose proof (lookup_lt_Some _ _ _ Hk) as Hklt.
    pose proof (wf_ids _ _ Hwf _ _ Hk) as Hid.
    pose proof (od_idle _ _ _ Hod _ _ Hk Hb) as Hq. simpl. split.
    + intros i x Hi Hbx. insert_cases Hi; [done|by eapply od_idle].
    + intros i x Hi. insert_cases Hi; [|by eapply od_fifo].
      unfold refs. simpl. rewrite Hq. intros a b y z Ha Hb' Hlt.
      destruct b as [|b]; [lia|]. simpl in Hb'. by rewrite lookup_nil in Hb'.
    + intros i x r' t' Hi Hx Hr'. rewrite list_lookup_alter in Hr'. insert_cases Hi.
      * simpl in Hx. injection Hx as <-. rewrite decide_True in Hr' by done.
        destruct (h !! r) as [t0|]; [|done]. by injection Hr' as <-.
      * assert (r ≠ r') by (intros ->; by eapply Hne).
        rewrite decide_False in Hr' by done. by eapply od_backref.
    + rewrite length_insert. apply Forall_alter; [by eapply od_tasks|].
      intros t0 _ Ht0. apply task_timed_start; [lia|done].
    + rewrite arrival_alter_start. by eapply od_arrivals.
  - pose proof (find_available_server_None _ Hf _ _ Hj) as Hb. split.
    + intros i x Hi Hbx. insert_cases Hi; [|by eapply od_idle].
      unfold enqueue in Hbx. simpl in Hbx. congruence.
    + intros i x Hi. insert_cases Hi; [|by eapply od_fifo].
      unfold refs, enqueue. simpl. rewrite app_assoc. apply ascending_snoc.
      * exact (od_fifo _ _ _ Hod _ _ Hj).
      * intros y Hy. by eapply Hfresh.
    + intros i x r' t' Hi Hx Hr'. insert_cases Hi; [|by eapply od_backref].
      exact (od_backref _ _ _ Hod _ s _ _ Hj Hx Hr').
    + rewrite length_insert. by eapply od_tasks.
    + by eapply od_arrivals.
Qed.

Lemma orderly_step d m m' :
  well_formed (servers m) (tasks m) → 0 ≤ current_step m →
  orderly (current_step m - 1) (servers m) (tasks m) →
  QueueServerModel_step d m = Returned m' →
  orderly (current_step m' - 1) (servers m') (tasks m').
Proof.
  intros Hwf Hc Hod H.
  destruct (QueueServerModel_step_inv _ _ _ H) as (n & svs & h & Ha & Hs & _ & -> & _).
  replace (current_step m + 1 - 1) with (current_step m) by lia.
  eapply orderly_schedule_step; [by eapply well_formed_arrive| |exact Hs].
  destruct (arrive_cases _ _ _ _ _ Ha) as [(_ & _ & -> & ->)|(x0 & _ & _ & _ & _ & Hd)].
  - eapply orderly_mono; [|done]. lia.
  - eapply orderly_dispatch; [| | |exact Hd].
    + by apply well_formed_alloc.
    + by apply orderly_alloc.
    + intros i x r' Hi Hr'. by eapply (wf_bound _ _ Hwf).
Qed.

Lemma orderly_init n a s k m :
  QueueServerModel_init n a s k = Returned m →
  orderly (current_step m - 1) (servers m) (tasks m).
Proof.
  intros [= <-]. simpl.
  assert (Hl : ∀ i x, ((λ i, ServerAgent_init (Z.of_nat i)) <$> seq 0 (Z.to_nat n)) !! i
                 = Some x → x = ServerAgent_init (Z.of_nat i)).
  { intros i x Hi. rewrite list_lookup_fmap in Hi.
    destruct (seq 0 (Z.to_nat n) !! i) as [j|] eqn:Hj; [|done].
    apply lookup_seq in Hj. destruct Hj as [-> _]. by injection Hi as <-. }
  split.
  - intros i x Hi _. by rewrite (Hl _ _ Hi).
  - intros i x Hi. rewrite (Hl _ _ Hi). unfold refs. simpl.
    intros p q y z Hp. by rewrite lookup_nil in Hp.
  - intros i x r t Hi. by rewrite (Hl _ _ Hi).
  - constructor.
  - intros p q x y Hp. by rewrite fmap_nil, lookup_nil in Hp.
Qed.

Lemma reachable_orderly m :
  reachable m → orderly (current_step m - 1) (servers m) (tasks m).
Proof.
  induction 1 as [n a s k m Hinit|d m m' Hm IH Hstep].
  - by eapply orderly_init.
  - eapply orderly_step; [by apply reachable_well_formed| |done..].
    by destruct (reachable_frame _ Hm) as (_ & ? & _).
Qed.

End ServerPyOrder.

(** ** The accounting of service time *)

Section ServerPyWork.
Import ServerPy.

Lemma sumZ_app l1 l2 : sumZ (l1 ++ l2) = sumZ l1 + sumZ l2.
Proof.
  unfold sumZ. induction l1 as [|x l1 IH]; [done|].
  rewrite <- app_comm_cons. cbn [foldr]. rewrite IH. lia.
Qed.

Lemma sumZ_fmap_insert {A : Type} (f : A → Z) (l : list A) k x y :
  l !! k = Some x → sumZ (f <$> <[k := y]> l) = sumZ (f <$> l) - f x + f y.
Proof.
  revert k. induction l as [|a l IH]; intros [|k] Hk; try done.
  - injection Hk as ->. change (<[0%nat:=y]> (x :: l)) with (y :: l).
    rewrite !fmap_cons. unfold sumZ. cbn [foldr]. lia.
  - change (<[S k:=y]> (a :: l)) with (a :: <[k:=y]> l).
    rewrite !fmap_cons. unfold sumZ in *. cbn [foldr]. rewrite (IH k Hk). lia.
Qed.

Lemma sumZ_fmap_ext {A : Type} (f g : A → Z) (l : list A) :
  (∀ x, x ∈ l → f x = g x) → sumZ (f <$> l) = sumZ (g <$> l).
Proof.
  induction l as [|a l IH]; intros H; [done|].
  rewrite !fmap_cons. unfold sumZ in *. cbn [foldr].
  rewrite (H a) by left. rewrite IH; [done|]. intros x Hx. apply H. by right.
Qed.

Lemma work_ServerAgent_step clock s h s' h' :
  consistent s → ServerAgent_step clock s h = Returned (s', h') →
  work (initial_service_time <$> h) s' = work (initial_service_time <$> h) s.
Proof.
  intros Hc H.
  destruct (ServerAgent_step_cases _ _ _ _ _ Hc H)
    as [(_ & _ & _ & -> & ->)
       |[(r & q & Hb & Hn & Hq & Heq)
        |(r0 & t & Hb & Hcur & Hr0 &
            [(Hgt & -> & ->)|[(Hle & Hq & -> & ->)|(r & q & Hle & Hq & Heq)]])]];
    try done.
  - injection Heq as -> _. unfold work, refs. simpl. by rewrite Hn, Hq.
  - assert (Ht : (initial_service_time <$> h) !! r0 = Some (initial_service_time t))
      by (by rewrite list_lookup_fmap, Hr0).
    unfold work, refs. simpl. rewrite Hcur, Hq. simpl. rewrite Ht. simpl. lia.
  - assert (Ht : (initial_service_time <$> h) !! r0 = Some (initial_service_time t))
      by (by rewrite list_lookup_fmap, Hr0).
    injection Heq as -> _. unfold work, refs. simpl. rewrite Hcur, Hq. simpl.
    rewrite Ht. simpl. lia.
Qed.

Lemma total_work_activate clock k svs h svs' h' :
  well_formed svs h → activate clock k svs h = Returned (svs', h') →
  total_work (initial_service_time <$> h') svs'
  = total_work (initial_service_time <$> h) svs.
Proof.
  intros Hwf Ha. destruct (activate_times _ _ _ _ _ _ Ha) as [_ ->].
  destruct (activate_inv _ _ _ _ _ _ Ha) as [(_ & -> & _)|(s & s' & Hk & Hs & ->)]; [done|].
  unfold total_work. rewrite (sumZ_fmap_insert _ _ _ _ _ Hk).
  rewrite (work_ServerAgent_step _ _ _ _ _ (wf_consistent _ _ Hwf _ _ Hk) Hs). lia.
Qed.

Lemma total_work_schedule_step clock order : ∀ svs h svs' h',
  well_formed svs h → schedule_step clock order svs h = Returned (svs', h') →
  total_work (initial_service_time <$> h') svs'
  = total_work (initial_service_time <$> h) svs.
Proof.
  induction order as [|k order IH]; intros svs h svs' h' Hwf H; simpl in H.
  - by simplify_eq.
  - apply bind_Returned in H. destruct H as ([svs1 h1] & Ha & H).
    rewrite (IH _ _ _ _ (well_formed_activate _ _ _ _ _ _ Hwf Ha) H).
    by eapply total_work_activate.
Qed.

Lemma total_work_alloc times st svs :
  (∀ i s r, svs !! i = Some s → r ∈ refs s → (r < length times)%nat) →
  total_work (times ++ [st]) svs = total_work times svs.
Proof.
  intros Hb. unfold total_work. apply sumZ_fmap_ext. intros s Hs.
  apply list_elem_of_lookup in Hs. destruct Hs as [i Hi].
  unfold work. f_equal. apply sumZ_fmap_ext. intros r Hr.
  by rewrite lookup_app_l by (by eapply Hb).
Qed.

Lemma work_enqueue times r s :
  work times (enqueue r s) = work times s + default 0 (times !! r).
Proof.
  unfold work, refs, enqueue, with_queue. cbn [current_task queue total_service_time].
  rewrite app_assoc, fmap_app, sumZ_app.
  change (sumZ ((λ r0, default 0 (times !! r0)) <$> [r]))
    with (default 0 (times !! r) + 0). lia.
Qed.

Lemma work_begin_service times clock r s h :
  current_task s = None →
  work times (begin_service clock r s h).1 = work times s + default 0 (times !! r).
Proof.
  intros Hn. unfold work, refs.
  cbn [begin_service fst current_task queue total_service_time]. rewrite Hn.
  change (option_list (Some r) ++ queue s) with (r :: queue s).
  change (option_list None ++ queue s) with (queue s). rewrite fmap_cons.
  change (sumZ (?x :: ?l)) with (x + sumZ l). lia.
Qed.

Lemma total_work_dispatch times clock r svs h svs' h' :
  (∀ i s, svs !! i = Some s → consistent s) →
  dispatch clock r svs h = Returned (svs', h') →
  total_work times svs' = total_work times svs + default 0 (times !! r).
Proof.
  intros Hcons Hd.
  destruct (dispatch_cases _ _ _ _ _ _ Hd)
    as [(k & s & Hf & -> & _)|(j & s & _ & _ & Hj & -> & _)]; unfold total_work.
  - destruct (find_available_server_Some _ _ _ Hf) as (Hk & Hb & _).
    assert (Hn : current_task s = None).
    { destruct (Hcons _ _ Hk) as [_ Hc]. destruct (current_task s); [|done].
      rewrite Hc in Hb; [done|eauto]. }
    rewrite (sumZ_fmap_insert _ _ _ _ _ Hk), (work_begin_service _ _ _ _ _ Hn). lia.
  - rewrite (sumZ_fmap_insert _ _ _ _ _ Hj), work_enqueue. lia.
Qed.

(** The initial service times of all tasks are accounted for by the
    servers: served, or held as current task or in a queue. *)
Lemma reachable_work m :
  reachable m →
  total_work (initial_service_time <$> tasks m) (servers m)
  = sumZ (initial_service_time <$> tasks m).
Proof.
  induction 1 as [n a s k m Hinit|d m m' Hm IH Hstep].
  - injection Hinit as <-. simpl. unfold total_work.
    induction (seq 0 (Z.to_nat n)) as [|i l IHl]; [done|].
    rewrite !fmap_cons. change (sumZ (?x :: ?l)) with (x + sumZ l).
    by rewrite IHl.
  - pose proof (reachable_well_formed _ Hm) as Hwf.
    destruct (QueueServerModel_step_inv _ _ _ Hstep) as (n & svs & h & Ha & Hs & _).
    rewrite (total_work_schedule_step _ _ _ _ _ _ (well_formed_arrive _ _ _ _ _ Hwf Ha) Hs).
    rewrite (schedule_step_initial _ _ _ _ _ _ Hs).
    destruct (arrive_cases _ _ _ _ _ Ha) as [(_ & _ & -> & ->)|(x0 & _ & _ & _ & _ & Hd)]; [done|].
    set (new := TaskAgent_init _ _ _) in Hd.
    assert (Hini : initial_service_time <$> h
                   = (initial_service_time <$> tasks m) ++ [initial_service_time new]).
    { destruct (dispatch_cases _ _ _ _ _ _ Hd)
        as [(i & s & _ & _ & ->)|(j & s & _ & _ & _ & _ & ->)]; simpl.
      - rewrite (list_fmap_alter _ _ id); [|by apply Forall_true].
        by rewrite list_alter_id, fmap_app.
      - by rewrite fmap_app. }
    rewrite Hini, (total_work_dispatch _ _ _ _ _ _ _ (wf_consistent _ _ Hwf) Hd).
    rewrite total_work_alloc.
    + rewrite list_lookup_middle by (by rewrite length_fmap).
      rewrite sumZ_app, IH. simpl. lia.
    + intros i s r Hi Hr. rewrite length_fmap. by eapply (wf_bound _ _ Hwf).
Qed.

End ServerPyWork.

(** ** The counters and the quotients *)

Lemma truediv_bounds (a b c : Z) :
  0 < c → a ≤ b →
  ∃ q r, truediv a c = Returned q ∧ truediv b c = Returned r ∧ (q <= r)%Q.
Proof.
  intros Hc Hab. unfold truediv. destruct (Z.eqb_spec c 0) as [->|_]; [lia|].
  eexists _, _. split; [done|]. split; [done|].
  unfold Qdiv. apply Qmult_le_compat_r.
  - by rewrite <- Zle_Qle.
  - apply Qlt_le_weak, Qinv_lt_0_compat.
    change (inject_Z 0 < inject_Z c)%Q. by rewrite <- Zlt_Qlt.
Qed.

Lemma truediv_zero (c : Z) : c ≠ 0 → ∃ q, truediv 0 c = Returned q ∧ (q == 0)%Q.
Proof.
  intros Hc. unfold truediv. destruct (Z.eqb_spec c 0) as [->|_]; [done|].
  eexists. split; [done|]. unfold Qdiv. apply Qmult_0_l.
Qed.

Section ServerPyStatistics.
Import ServerPy.

Lemma sumZ_fmap_le {A : Type} (f g : A → Z) (l : list A) :
  Forall (λ x, f x ≤ g x) l → sumZ (f <$> l) ≤ sumZ (g <$> l).
Proof.
  induction 1 as [|x l Hx _ IH]; [done|].
  rewrite !fmap_cons. change (sumZ (?y :: ?k)) with (y + sumZ k). lia.
Qed.

Lemma sumZ_fmap_nonneg {A : Type} (f : A → Z) (l : list A) :
  Forall (λ x, 0 ≤ f x) l → 0 ≤ sumZ (f <$> l).
Proof.
  induction 1 as [|x l Hx _ IH]; [done|].
  rewrite !fmap_cons. change (sumZ (?y :: ?k)) with (y + sumZ k). lia.
Qed.

(** What a step of a run does to the counters: the clock advances by
    one, at most one task is counted, and the two totals grow, the
    total wait by no more than the total time in system. *)
Lemma step_counters d m m' :
  reachable m → QueueServerModel_step d m = Returned m' →
  current_step m' = current_step m + 1 ∧
  total_tasks m ≤ total_tasks m' ≤ total_tasks m + 1 ∧
  0 ≤ total_queue_wait_time m' - total_queue_wait_time m
    ≤ total_time_in_system m' - total_time_in_system m.
Proof.
  intros Hm Hstep.
  pose proof (reachable_orderly _ (reachable_step _ _ _ Hm Hstep)) as Hod.
  destruct (step_statistics _ _ _ Hstep) as [-> ->].
  destruct (QueueServerModel_step_inv _ _ _ Hstep)
    as (n & svs & h & Ha & _ & Hn & Hc & _).
  rewrite Hc in Hod. replace (current_step m + 1 - 1) with (current_step m) in Hod by lia.
  split; [done|]. split.
  { rewrite Hn. destruct (arrive_cases _ _ _ _ _ Ha) as [(_ & -> & _)|(x0 & _ & _ & _ & -> & _)]; lia. }
  assert (Hall : Forall (task_timed (current_step m) (length (servers m')))
                   (filter (λ t, started t = true) (tasks m'))).
  { apply Forall_forall. intros t Ht. apply list_elem_of_filter in Ht.
    destruct Ht as [_ Ht]. revert t Ht. apply Forall_forall. by eapply od_tasks. }
  split.
  - assert (0 ≤ sumZ (queue_wait_time <$> filter (λ t, started t = true) (tasks m')));
      [|lia].
    apply sumZ_fmap_nonneg. eapply Forall_impl; [exact Hall|].
    by intros t (_ & _ & ? & _).
  - assert (sumZ (queue_wait_time <$> filter (λ t, started t = true) (tasks m'))
            ≤ sumZ ((λ t, current_step m - arrival_time t)
                      <$> filter (λ t, started t = true) (tasks m'))); [|lia].
    apply sumZ_fmap_le. eapply Forall_impl; [exact Hall|].
    intros t (_ & _ & _ & ? & _). simpl. lia.
Qed.

Lemma reachable_totals m :
  reachable m →
  0 ≤ total_tasks m ≤ current_step m ∧
  0 ≤ total_queue_wait_time m ≤ total_time_in_system m.
Proof.
  induction 1 as [n a s k m Hinit|d m m' Hm IH Hstep].
  - by injection Hinit as <-.
  - destruct (step_counters _ _ _ Hm Hstep) as (-> & ? & ?). lia.
Qed.

End ServerPyStatistics.

(** ** The main loop of mesa.py, and the length of a service *)

Lemma erase_main_loop ds : ∀ m,
  Qeq_bool (ServerPy.task_service_rate m) 0 = false →
  MesaPy.main_loop ds (erase_model m)
  = result_map erase_model <$> ServerPy.main_loop (lift_draws <$> ds) m.
Proof.
  induction ds as [|d ds IH]; intros m Hrate; simpl.
  - by destruct (ServerPy.running m).
  - destruct (ServerPy.running m); [|done].
    rewrite (erase_QueueServerModel_step _ _ Hrate).
    destruct (ServerPy.QueueServerModel_step (lift_draws d) m) as [m'|e] eqn:Hs; simpl; [|done].
    apply IH.
    destruct (QueueServerModel_step_inv _ _ _ Hs)
      as (? & ? & ? & _ & _ & _ & _ & _ & _ & _ & -> & _). done.
Qed.

Lemma erase_init n a k :
  MesaPy.QueueServerModel_init n a k
  = result_map erase_model (ServerPy.QueueServerModel_init n a 1 k).
Proof.
  unfold MesaPy.QueueServerModel_init, ServerPy.QueueServerModel_init, erase_model.
  simpl. do 2 f_equal. rewrite <- list_fmap_compose. by apply list_fmap_ext.
Qed.

Section ServerPyService.
Import ServerPy.

(** A task in service is completed by the activation of its server that
    brings its remaining time to zero, and by none before: the
    [max(1, remaining_service_time)]-th. *)
Lemma ServerAgent_steps_service clocks : ∀ s h r0 t,
  busy s = true → current_task s = Some r0 → h !! r0 = Some t →
  Z.of_nat (length clocks) = Z.max 1 (remaining_service_time t) →
  (∃ s' h', ServerAgent_steps clocks s h = Returned (s', h') ∧
     total_tasks_served s' = total_tasks_served s + 1 ∧
     total_service_time s' = total_service_time s + initial_service_time t ∧
     (remaining_service_time <$> h') !! r0
       = Some (Z.min 0 (remaining_service_time t - 1))) ∧
  (∀ j, (j < length clocks)%nat →
     ∃ hj tj, ServerAgent_steps (take j clocks) s h = Returned (s, hj) ∧
              hj !! r0 = Some tj ∧
              remaining_service_time tj = remaining_service_time t - Z.of_nat j).
Proof.
  induction clocks as [|c clocks IH]; intros s h r0 t Hb Hc Hr0 Hlen.
  { simpl in Hlen. lia. }
  assert (Hserve : serve s h
          = if remaining_service_time t - 1 <=? 0
            then Returned (complete_service s (decrement t), <[r0 := decrement t]> h)
            else Returned (s, <[r0 := decrement t]> h)).
  { unfold serve. by rewrite Hb, Hc, Hr0. }
  assert (Hlt : (r0 < length h)%nat) by (by eapply lookup_lt_Some).
  destruct (Z.leb_spec (remaining_service_time t - 1) 0) as [Hle|Hgt].
  - (* the last activation *)
    assert (clocks = []) as ->.
    { destruct clocks; [done|]. simpl length in Hlen. lia. }
    split.
    + simpl. unfold ServerAgent_step. rewrite Hserve. simpl.
      destruct (take_next c _ _) as [s' h'] eqn:Ht. exists s', h'. split; [done|].
      pose proof (remaining_take_next c (complete_service s (decrement t))
                    (<[r0:=decrement t]> h)) as Hrem.
      rewrite Ht in Hrem. simpl in Hrem.
      destruct (take_next_cases _ _ _ _ _ Ht) as [(-> & -> & _)|(r & q & _ & _ & Heq)].
      * split_and!; [done..|].
        rewrite list_lookup_fmap, list_lookup_insert_eq by done. simpl. f_equal. lia.
      * injection Heq as -> _. split_and!; [done..|].
        rewrite Hrem, list_lookup_fmap, list_lookup_insert_eq by done.
        simpl. f_equal. lia.
    + intros j Hj. simpl in Hj. assert (j = 0%nat) as -> by lia.
      exists h, t. simpl. split_and!; [done..|lia].
  - (* service goes on *)
    assert (Hstep : ServerAgent_step c s h = Returned (s, <[r0 := decrement t]> h)).
    { unfold ServerAgent_step. rewrite Hserve. simpl. unfold take_next. by rewrite Hb. }
    assert (Hr1 : <[r0 := decrement t]> h !! r0 = Some (decrement t))
      by (by apply list_lookup_insert_eq).
    destruct (IH s (<[r0 := decrement t]> h) r0 (decrement t) Hb Hc Hr1)
      as [(s' & h' & Hs & Hserved & Htime & Hrem) Hbefore].
    { simpl. simpl length in Hlen. lia. }
    split.
    + exists s', h'. simpl. rewrite Hstep. simpl. split_and!; [done..|].
      rewrite Hrem. simpl. f_equal. lia.
    + intros [|j] Hj.
      * exists h, t. simpl. split_and!; [done..|lia].
      * simpl in Hj. destruct (Hbefore j ltac:(lia)) as (hj & tj & Hsj & Htj & Hrj).
        exists hj, tj. simpl. rewrite Hstep. simpl. split_and!; [done..|].
        rewrite Hrj. simpl. lia.
Qed.

End ServerPyService.

(** ** Properties of the run *)

Lemma reachable_one_server_queueing : ServerPy.reachable one_server_queueing.
Proof.
  apply (ServerPy.reachable_step (arrival 1 [0%nat])
           (ServerPy.mkModel 1 (9 # 10) (4 # 10) 100 true 1 0 0 1
              [ServerPy.mkServerAgent 0 true (Some 0%nat) 0 [] 0]
              [ServerPy.mkTaskAgent 0 3 2 (Some 0) 0 0])); [|reflexivity].
  apply (ServerPy.reachable_step (arrival 3 [0%nat]) one_server);
    [exact reachable_one_server|reflexivity].
Qed.

(** X1.  A run never adds, removes or renumbers a server, its clock
    counts the steps made, and [running] is set exactly as long as no
    step has been made or the clock is below [max_steps]. *)
Theorem run_keeps_servers_and_clock (m : ServerPy.QueueServerModel) :
  ServerPy.reachable m →
  length (ServerPy.servers m) = Z.to_nat (ServerPy.num_servers m) ∧
  (∀ i s, ServerPy.servers m !! i = Some s → ServerPy.unique_id s = Z.of_nat i) ∧
  0 ≤ ServerPy.current_step m ∧
  (ServerPy.running m = true
   ↔ ServerPy.current_step m = 0 ∨ ServerPy.current_step m < ServerPy.max_steps m).
Proof.
  intros Hm. destruct (reachable_frame _ Hm) as (Hl & Hc & Hr).
  split_and!; [done| |done..].
  exact (ServerPy.wf_ids _ _ (reachable_well_formed _ Hm)).
Qed.

Lemma run_keeps_servers_and_clock_witness :
  ServerPy.reachable one_server_queueing ∧
  length (ServerPy.servers one_server_queueing)
  = Z.to_nat (ServerPy.num_servers one_server_queueing).
Proof.
  split; [exact reachable_one_server_queueing|].
  exact (proj1 (run_keeps_servers_and_clock one_server_queueing
                  reachable_one_server_queueing)).
Defined.

(** X2.  The main loop on a constructed model, given a draw for each of
    [max(1, max_steps)] steps: it ends after exactly that many steps
    with [running] cleared, or a step raises [ZeroDivisionError] (the
    service rate is zero), [OverflowError] ([random.expovariate]
    returned an infinity) or [ValueError] ([num_servers <= 0], or
    [random.expovariate] returned NaN).  With a server, a service rate
    other than zero and floats drawn by [random.expovariate] that are
    all finite, it ends without exception. *)
Theorem main_loop_outcome (n : Z) (arrival_rate service_rate : Q) (limit : Z)
    (m0 : ServerPy.QueueServerModel) (ds : list ServerPy.Draws) :
  ServerPy.QueueServerModel_init n arrival_rate service_rate limit = Returned m0 →
  Z.max 1 limit ≤ Z.of_nat (length ds) →
  ((∃ m', ServerPy.main_loop ds m0 = Some (Returned m') ∧
          ServerPy.reachable m' ∧ ServerPy.running m' = false ∧
          ServerPy.current_step m' = Z.max 1 limit) ∨
   (ServerPy.main_loop ds m0 = Some (Raised ZeroDivisionError) ∧
    Qeq_bool service_rate 0 = true) ∨
   (ServerPy.main_loop ds m0 = Some (Raised OverflowError) ∧
    Exists (λ d, ServerPy.service_draw d = infinity) ds) ∨
   (ServerPy.main_loop ds m0 = Some (Raised ValueError) ∧
    (n ≤ 0 ∨ Exists (λ d, ServerPy.service_draw d = nan) ds))) ∧
  (0 < n → Qeq_bool service_rate 0 = false →
   Forall (λ d, ∃ x, ServerPy.service_draw d = finite x) ds →
   ∃ m', ServerPy.main_loop ds m0 = Some (Returned m') ∧
         ServerPy.reachable m' ∧ ServerPy.running m' = false ∧
         ServerPy.current_step m' = Z.max 1 limit).
Proof.
  intros Hinit Hlen.
  pose proof (ServerPy.reachable_init _ _ _ _ _ Hinit) as Hm0.
  injection Hinit as <-.
  assert (Hfin : ∀ y, Forall (λ d, ∃ x, ServerPy.service_draw d = finite x) ds →
            Exists (λ d, ServerPy.service_draw d = y) ds → (∀ x, y ≠ finite x) → False).
  { intros y Hall Hex Hy. rewrite Forall_forall in Hall. rewrite Exists_exists in Hex.
    destruct Hex as (d & Hd & Hdy). destruct (Hall d Hd) as [x Hx].
    apply (Hy x). congruence. }
  destruct (main_loop_ends ds _ Hm0)
    as [(m' & Hl & Hm' & Hr & _ & Hc)|[[Hl Hz]|[[Hl Ho]|[Hl Hv]]]].
  - simpl. intros _. lia.
  - assert (HA : ∃ m', ServerPy.main_loop ds
               (ServerPy.mkModel n arrival_rate service_rate limit true 0 0 0 0
                  ((λ i, ServerPy.ServerAgent_init (Z.of_nat i)) <$> seq 0 (Z.to_nat n)) [])
               = Some (Returned m') ∧
             ServerPy.reachable m' ∧ ServerPy.running m' = false ∧
             ServerPy.current_step m' = Z.max 1 limit).
    { exists m'. split_and!; [done..|]. rewrite (Hc eq_refl). simpl. lia. }
    split; [by left|]. by intros _ _ _.
  - simpl in Hz. split; [right; by left|]. intros _ Hrate. congruence.
  - split; [right; right; by left|]. intros _ _ Hall.
    by destruct (Hfin infinity Hall Ho).
  - simpl in Hv. split; [do 3 right; by split|]. intros Hn _ Hall.
    destruct Hv as [Hv|Hv]; [lia|]. by destruct (Hfin nan Hall Hv).
Qed.

Lemma main_loop_outcome_witness :
  ∃ m', ServerPy.main_loop [arrival 2 [0%nat]; arrival 1 [0%nat]; no_arrival [0%nat]]
          (ServerPy.mkModel 1 (9 # 10) (4 # 10) 3 true 0 0 0 0
             [ServerPy.ServerAgent_init 0] [])
        = Some (Returned m') ∧
        ServerPy.current_step m' = 3.
Proof.
  destruct (proj2 (main_loop_outcome 1 (9 # 10) (4 # 10) 3 _
                     [arrival 2 [0%nat]; arrival 1 [0%nat]; no_arrival [0%nat]]
                     eq_refl ltac:(simpl; lia)) ltac:(lia) eq_refl)
    as (m' & Hl & _ & _ & Hc).
  - repeat constructor; eexists; reflexivity.
  - exists m'. split; [exact Hl|exact Hc].
Defined.

(** X3.  In a run a step fails only at an arrival, in four ways:
    [ZeroDivisionError] when the service rate is zero, [OverflowError]
    when the float that [random.expovariate] returns is an infinity,
    [ValueError] when it is NaN, and [ValueError] when there is no
    server.  A step without arrival always returns, and so does a step
    of a model that has a server and a service rate other than zero
    when the float drawn is finite. *)
Theorem step_failure_modes (d : ServerPy.Draws) (m : ServerPy.QueueServerModel) :
  ServerPy.reachable m →
  ((∃ m', ServerPy.QueueServerModel_step d m = Returned m') ∨
   (Qltb (ServerPy.arrival_draw d) (ServerPy.task_arrival_rate m) = true ∧
    Qeq_bool (ServerPy.task_service_rate m) 0 = true ∧
    ServerPy.QueueServerModel_step d m = Raised ZeroDivisionError) ∨
   (Qltb (ServerPy.arrival_draw d) (ServerPy.task_arrival_rate m) = true ∧
    Qeq_bool (ServerPy.task_service_rate m) 0 = false ∧
    ServerPy.service_draw d = infinity ∧
    ServerPy.QueueServerModel_step d m = Raised OverflowError) ∨
   (Qltb (ServerPy.arrival_draw d) (ServerPy.task_arrival_rate m) = true ∧
    Qeq_bool (ServerPy.task_service_rate m) 0 = false ∧
    ServerPy.service_draw d = nan ∧
    ServerPy.QueueServerModel_step d m = Raised ValueError) ∨
   (Qltb (ServerPy.arrival_draw d) (ServerPy.task_arrival_rate m) = true ∧
    Qeq_bool (ServerPy.task_service_rate m) 0 = false ∧
    (∃ x, ServerPy.service_draw d = finite x) ∧
    ServerPy.servers m = [] ∧
    ServerPy.QueueServerModel_step d m = Raised ValueError)) ∧
  (Qltb (ServerPy.arrival_draw d) (ServerPy.task_arrival_rate m) = false →
   ∃ m', ServerPy.QueueServerModel_step d m = Returned m') ∧
  (ServerPy.servers m ≠ [] → Qeq_bool (ServerPy.task_service_rate m) 0 = false →
   (∃ x, ServerPy.service_draw d = finite x) →
   ∃ m', ServerPy.QueueServerModel_step d m = Returned m').
Proof.
  intros Hm.
  destruct (step_outcomes d m Hm)
    as [Hret|(Harr & [(Hrate & Hs)|[(Hrate & Hinf & Hs)|[(Hrate & Hnan & Hs)
                                                        |(Hrate & Hx & Hnil & Hs)]]])].
  - split_and!; [by left|done|done].
  - split_and!; [right; by left|congruence|congruence].
  - split_and!; [right; right; by left|congruence|].
    intros _ _ [x Hx]. congruence.
  - split_and!; [do 3 right; by left|congruence|].
    intros _ _ [x Hx]. congruence.
  - split_and!; [do 4 right; by split_and!|congruence|done].
Qed.

Lemma step_failure_modes_witness :
  ∃ m', ServerPy.QueueServerModel_step (arrival 2 [0%nat]) one_server_queueing
        = Returned m'.
Proof.
  refine (proj2 (proj2 (step_failure_modes (arrival 2 [0%nat]) one_server_queueing
                          reachable_one_server_queueing)) _ eq_refl _).
  - discriminate.
  - eexists. reflexivity.
Defined.

(** With a service rate as close to zero as 1e-320 the quotient that
    [random.expovariate] computes overflows: the float is an infinity
    and [int] raises [OverflowError]. *)
Lemma infinite_draw_raises :
  ServerPy.QueueServerModel_step (ServerPy.mkDraws 0 infinity [0%nat])
    (ServerPy.mkModel 1 (9 # 10) (1 # 10 ^ 320) 100 true 0 0 0 0
       [ServerPy.ServerAgent_init 0] [])
  = Raised OverflowError.
Proof. reflexivity. Qed.

(** X4.  Between the steps of a run a server that is not busy has no
    current task and an empty queue: a task waits only behind a task in
    service. *)
Theorem idle_server_has_empty_queue (m : ServerPy.QueueServerModel) (s : ServerPy.ServerAgent) :
  ServerPy.reachable m → s ∈ ServerPy.servers m → ServerPy.busy s = false →
  ServerPy.current_task s = None ∧ ServerPy.queue s = [].
Proof.
  intros Hm Hs Hb. apply list_elem_of_lookup in Hs. destruct Hs as [i Hi]. split.
  - destruct (ServerPy.wf_consistent _ _ (reachable_well_formed _ Hm) _ _ Hi) as [_ Hc].
    destruct (ServerPy.current_task s); [|done]. rewrite Hc in Hb; [done|eauto].
  - exact (ServerPy.od_idle _ _ _ (reachable_orderly _ Hm) _ _ Hi Hb).
Qed.

Lemma idle_server_has_empty_queue_witness :
  ServerPy.current_task (ServerPy.ServerAgent_init 0) = None ∧
  ServerPy.queue (ServerPy.ServerAgent_init 0) = [].
Proof.
  apply (idle_server_has_empty_queue one_server (ServerPy.ServerAgent_init 0)
           reachable_one_server).
  - apply list_elem_of_here.
  - reflexivity.
Defined.

(** X5.  Each server holds its tasks in the order of their arrival: along
    its current task and then its queue the tasks are ever later
    created and have ever later arrival times, so a server serves the
    tasks queued with it first in, first out. *)
Theorem queues_are_first_in_first_out (m : ServerPy.QueueServerModel)
    (s : ServerPy.ServerAgent) (a b ra rb : nat) (ta tb : ServerPy.TaskAgent) :
  ServerPy.reachable m → s ∈ ServerPy.servers m →
  ServerPy.refs s !! a = Some ra → ServerPy.refs s !! b = Some rb → (a < b)%nat →
  ServerPy.tasks m !! ra = Some ta → ServerPy.tasks m !! rb = Some tb →
  (ra < rb)%nat ∧ ServerPy.arrival_time ta < ServerPy.arrival_time tb.
Proof.
  intros Hm Hs Ha Hb Hlt Hta Htb.
  apply list_elem_of_lookup in Hs. destruct Hs as [i Hi].
  pose proof (reachable_orderly _ Hm) as Hod.
  pose proof (ServerPy.od_fifo _ _ _ Hod _ _ Hi a b ra rb Ha Hb Hlt) as Hr.
  split; [done|].
  apply (ServerPy.od_arrivals _ _ _ Hod ra rb); [..|done];
    by rewrite list_lookup_fmap, ?Hta, ?Htb.
Qed.

Lemma queues_are_first_in_first_out_witness :
  ServerPy.reachable one_server_queueing ∧
  ServerPy.arrival_time (ServerPy.mkTaskAgent 0 3 1 (Some 0) 0 0)
  < ServerPy.arrival_time (ServerPy.mkTaskAgent 1 1 1 None 1 0).
Proof.
  split; [exact reachable_one_server_queueing|].
  refine (proj2 (queues_are_first_in_first_out one_server_queueing
                   (ServerPy.mkServerAgent 0 true (Some 0%nat) 0 [1%nat] 0)
                   0 1 0 1 _ _ reachable_one_server_queueing _
                   eq_refl eq_refl _ eq_refl eq_refl)).
  - apply list_elem_of_here.
  - lia.
Defined.

(** X6.  The [unique_id] of a task is the step of its arrival, which is
    below the clock; along the store the ids increase strictly, so no
    two tasks share an id, and at most one task is created per step. *)
Theorem task_identifiers (m : ServerPy.QueueServerModel) :
  ServerPy.reachable m →
  (∀ t, t ∈ ServerPy.tasks m →
        ServerPy.task_unique_id t = ServerPy.arrival_time t ∧
        0 ≤ ServerPy.arrival_time t < ServerPy.current_step m) ∧
  (∀ a b ta tb, ServerPy.tasks m !! a = Some ta → ServerPy.tasks m !! b = Some tb →
                (a < b)%nat → ServerPy.task_unique_id ta < ServerPy.task_unique_id tb) ∧
  Z.of_nat (length (ServerPy.tasks m)) ≤ ServerPy.current_step m.
Proof.
  intros Hm. pose proof (reachable_orderly _ Hm) as Hod.
  assert (Ht : ∀ t, t ∈ ServerPy.tasks m →
            ServerPy.task_timed (ServerPy.current_step m - 1)
              (length (ServerPy.servers m)) t).
  { apply Forall_forall. by eapply ServerPy.od_tasks. }
  split_and!.
  - intros t Hin. destruct (Ht t Hin) as (H1 & H2 & _). split; [done|lia].
  - intros a b ta tb Ha Hb Hlt.
    destruct (Ht ta (list_elem_of_lookup_2 _ _ _ Ha)) as (-> & _).
    destruct (Ht tb (list_elem_of_lookup_2 _ _ _ Hb)) as (-> & _).
    apply (ServerPy.od_arrivals _ _ _ Hod a b); [..|done];
      by rewrite list_lookup_fmap, ?Ha, ?Hb.
  - destruct (reachable_counts _ Hm) as [_ <-].
    by destruct (reachable_totals _ Hm) as [[_ ?] _].
Qed.

Lemma task_identifiers_witness :
  ServerPy.reachable one_server_queueing ∧
  Z.of_nat (length (ServerPy.tasks one_server_queueing))
  ≤ ServerPy.current_step one_server_queueing.
Proof.
  split; [exact reachable_one_server_queueing|].
  exact (proj2 (proj2 (task_identifiers one_server_queueing
                         reachable_one_server_queueing))).
Defined.

(** X7.  The time a task has waited is never negative and ends before the
    clock; a task that no server has started has waited 0 and is
    assigned to none, and such are the queued tasks; a task is assigned
    to an existing server, and the current task of a server is assigned
    to that server. *)
Theorem started_tasks_and_waits (m : ServerPy.QueueServerModel) :
  ServerPy.reachable m →
  (∀ t, t ∈ ServerPy.tasks m →
        0 ≤ ServerPy.queue_wait_time t ∧
        ServerPy.arrival_time t + ServerPy.queue_wait_time t < ServerPy.current_step m ∧
        (ServerPy.assigned_server t = None → ServerPy.queue_wait_time t = 0) ∧
        (∀ u, ServerPy.assigned_server t = Some u →
              0 ≤ u < Z.of_nat (length (ServerPy.servers m)))) ∧
  (∀ s r t, s ∈ ServerPy.servers m → ServerPy.current_task s = Some r →
            ServerPy.tasks m !! r = Some t →
            ServerPy.assigned_server t = Some (ServerPy.unique_id s)) ∧
  (∀ s r t, s ∈ ServerPy.servers m → r ∈ ServerPy.queue s →
            ServerPy.tasks m !! r = Some t →
            ServerPy.assigned_server t = None ∧ ServerPy.queue_wait_time t = 0).
Proof.
  intros Hm. pose proof (reachable_orderly _ Hm) as Hod.
  pose proof (reachable_well_formed _ Hm) as Hwf.
  assert (Ht : ∀ t, t ∈ ServerPy.tasks m →
            ServerPy.task_timed (ServerPy.current_step m - 1)
              (length (ServerPy.servers m)) t).
  { apply Forall_forall. by eapply ServerPy.od_tasks. }
  split_and!.
  - intros t Hin. destruct (Ht t Hin) as (_ & _ & H3 & H4 & H5 & H6).
    split_and!; [done|lia|done..].
  - intros s r t Hs Hc Hr. apply list_elem_of_lookup in Hs. destruct Hs as [i Hi].
    exact (ServerPy.od_backref _ _ _ Hod _ _ _ _ Hi Hc Hr).
  - intros s r t Hs Hq Hr. apply list_elem_of_lookup in Hs. destruct Hs as [i Hi].
    destruct (ServerPy.wf_queued _ _ Hwf _ _ _ _ Hi Hq Hr) as [_ Hn].
    split; [done|].
    destruct (Ht t (list_elem_of_lookup_2 _ _ _ Hr)) as (_ & _ & _ & _ & H5 & _). auto.
Qed.

Lemma started_tasks_and_waits_witness :
  ServerPy.reachable one_server_queueing ∧
  ServerPy.assigned_server (ServerPy.mkTaskAgent 0 3 1 (Some 0) 0 0)
  = Some (ServerPy.unique_id (ServerPy.mkServerAgent 0 true (Some 0%nat) 0 [1%nat] 0)).
Proof.
  split; [exact reachable_one_server_queueing|].
  refine (proj1 (proj2 (started_tasks_and_waits one_server_queueing
                          reachable_one_server_queueing))
            (ServerPy.mkServerAgent 0 true (Some 0%nat) 0 [1%nat] 0) 0%nat _ _
            eq_refl eq_refl).
  apply list_elem_of_here.
Defined.

(** X8.  The service time of every task created is accounted for once:
    the [total_service_time] of the servers, plus the initial service
    times of the tasks they hold as current task or in a queue, sum to
    the initial service times of all tasks. *)
Theorem service_time_accounting (m : ServerPy.QueueServerModel) :
  ServerPy.reachable m →
  ServerPy.sumZ (ServerPy.total_service_time <$> ServerPy.servers m)
  + ServerPy.sumZ
      ((λ s, ServerPy.sumZ
               ((λ r, default 0 ((ServerPy.initial_service_time <$> ServerPy.tasks m) !! r))
                  <$> ServerPy.refs s))
         <$> ServerPy.servers m)
  = ServerPy.sumZ (ServerPy.initial_service_time <$> ServerPy.tasks m).
Proof.
  intros Hm. rewrite <- (reachable_work _ Hm). unfold ServerPy.total_work.
  induction (ServerPy.servers m) as [|s svs IH]; [done|].
  rewrite !fmap_cons.
  change (ServerPy.sumZ (?x :: ?l)) with (x + ServerPy.sumZ l).
  unfold ServerPy.work at 1. lia.
Qed.

Lemma service_time_accounting_witness :
  ServerPy.reachable one_server_queueing ∧
  ServerPy.sumZ (ServerPy.total_service_time <$> ServerPy.servers one_server_queueing)
  + ServerPy.sumZ
      ((λ s, ServerPy.sumZ
               ((λ r, default 0 ((ServerPy.initial_service_time
                                    <$> ServerPy.tasks one_server_queueing) !! r))
                  <$> ServerPy.refs s))
         <$> ServerPy.servers one_server_queueing)
  = 4.
Proof.
  split; [exact reachable_one_server_queueing|].
  exact (service_time_accounting one_server_queueing reachable_one_server_queueing).
Defined.

(** X9.  The counters of a run only grow.  A step advances the clock by
    one, counts at most one task, and adds to the total wait an amount
    that is not negative and not above what it adds to the total time
    in system; so [0 <= total_tasks <= current_step] and
    [0 <= total_queue_wait_time <= total_time_in_system] throughout. *)
Theorem counters_only_grow (d : ServerPy.Draws) (m m' : ServerPy.QueueServerModel) :
  ServerPy.reachable m → ServerPy.QueueServerModel_step d m = Returned m' →
  ServerPy.current_step m' = ServerPy.current_step m + 1 ∧
  ServerPy.total_tasks m ≤ ServerPy.total_tasks m' ≤ ServerPy.total_tasks m + 1 ∧
  0 ≤ ServerPy.total_queue_wait_time m' - ServerPy.total_queue_wait_time m
    ≤ ServerPy.total_time_in_system m' - ServerPy.total_time_in_system m ∧
  0 ≤ ServerPy.total_tasks m' ≤ ServerPy.current_step m' ∧
  0 ≤ ServerPy.total_queue_wait_time m' ≤ ServerPy.total_time_in_system m'.
Proof.
  intros Hm Hstep. destruct (step_counters _ _ _ Hm Hstep) as (Hc & Ht & Hw).
  destruct (reachable_totals _ (ServerPy.reachable_step _ _ _ Hm Hstep)) as [H1 H2].
  split_and!; lia.
Qed.

Lemma counters_only_grow_witness :
  ∃ m', ServerPy.QueueServerModel_step (no_arrival [0%nat]) one_server_queueing
        = Returned m' ∧
        ServerPy.current_step m' = 3.
Proof.
  eexists. split; [reflexivity|].
  exact (proj1 (counters_only_grow (no_arrival [0%nat]) one_server_queueing _
                  reachable_one_server_queueing eq_refl)).
Defined.

Lemma truediv_nonneg (a c : Z) :
  0 < c → 0 ≤ a → ∃ q, truediv a c = Returned q ∧ (0 <= q)%Q.
Proof.
  intros Hc Ha. unfold truediv. destruct (Z.eqb_spec c 0) as [->|_]; [lia|].
  eexists. split; [done|]. unfold Qdiv. apply Qmult_le_0_compat.
  - change (inject_Z 0 <= inject_Z a)%Q. by rewrite <- Zle_Qle.
  - apply Qlt_le_weak, Qinv_lt_0_compat.
    change (inject_Z 0 < inject_Z c)%Q. by rewrite <- Zlt_Qlt.
Qed.

(** X10.  In every state of a run [get_avg_time_in_queue] and
    [get_avg_time_in_system] return, without exception, numbers that
    are not negative, the first not above the second. *)
Theorem averages_of_a_run (m : ServerPy.QueueServerModel) :
  ServerPy.reachable m →
  ∃ q w, ServerPy.get_avg_time_in_queue m = Returned q ∧
         ServerPy.get_avg_time_in_system m = Returned w ∧
         (0 <= q)%Q ∧ (q <= w)%Q.
Proof.
  intros Hm. destruct (reachable_totals _ Hm) as [[Ht _] [Hq Hw]].
  unfold ServerPy.get_avg_time_in_queue, ServerPy.get_avg_time_in_system.
  destruct (Z.gtb_spec (ServerPy.total_tasks m) 0) as [Hpos|_].
  - assert (Hpos' : 0 < ServerPy.total_tasks m) by lia.
    destruct (truediv_bounds (ServerPy.total_queue_wait_time m)
                (ServerPy.total_time_in_system m) _ Hpos' Hw) as (q & w & Hq' & Hw' & Hle).
    destruct (truediv_nonneg (ServerPy.total_queue_wait_time m) _ Hpos' Hq)
      as (q0 & Hq0 & Hge).
    exists q, w. split_and!; [done..| |done]. congruence.
  - exists 0%Q, 0%Q. by split_and!.
Qed.

Lemma averages_of_a_run_witness :
  ∃ q w, ServerPy.get_avg_time_in_queue one_server_queueing = Returned q ∧
         ServerPy.get_avg_time_in_system one_server_queueing = Returned w ∧
         (0 <= q)%Q ∧ (q <= w)%Q.
Proof. exact (averages_of_a_run one_server_queueing reachable_one_server_queueing). Defined.

Lemma truediv_self (c : Z) : 0 < c → ∃ q, truediv c c = Returned q ∧ (q == 1)%Q.
Proof.
  intros Hc. unfold truediv. destruct (Z.eqb_spec c 0) as [->|_]; [lia|].
  eexists. split; [done|]. unfold Qdiv. apply Qmult_inv_r.
  unfold Qeq. simpl. lia.
Qed.

(** X11.  [get_avg_queue_length] and [get_avg_servers_busy] divide by
    [num_servers]: in a run they raise [ZeroDivisionError] exactly when
    [num_servers] is 0; with [num_servers > 0] the first is not
    negative and the second lies between 0 and 1; with
    [num_servers < 0] there is no server and both are 0. *)
Theorem fleet_averages (m : ServerPy.QueueServerModel) :
  ServerPy.reachable m →
  (ServerPy.num_servers m = 0 →
     ServerPy.get_avg_queue_length m = Raised ZeroDivisionError ∧
     ServerPy.get_avg_servers_busy m = Raised ZeroDivisionError) ∧
  (0 < ServerPy.num_servers m →
     ∃ q b, ServerPy.get_avg_queue_length m = Returned q ∧
            ServerPy.get_avg_servers_busy m = Returned b ∧
            (0 <= q)%Q ∧ (0 <= b)%Q ∧ (b <= 1)%Q) ∧
  (ServerPy.num_servers m < 0 →
     ∃ q b, ServerPy.get_avg_queue_length m = Returned q ∧
            ServerPy.get_avg_servers_busy m = Returned b ∧
            (q == 0)%Q ∧ (b == 0)%Q).
Proof.
  intros Hm. destruct (reachable_frame _ Hm) as (Hlen & _).
  unfold ServerPy.get_avg_queue_length, ServerPy.get_avg_servers_busy.
  split_and!.
  - intros ->. by split.
  - intros Hn.
    assert (Hbusy : Z.of_nat (ServerPy.get_busy_servers m) ≤ ServerPy.num_servers m).
    { unfold ServerPy.get_busy_servers.
      pose proof (length_filter (λ s, ServerPy.busy s = true) (ServerPy.servers m)). lia. }
    destruct (truediv_nonneg (Z.of_nat (sum_list (ServerPy.get_queue_lengths m)))
                (ServerPy.num_servers m) Hn ltac:(lia)) as (q & Hq & Hq0).
    destruct (truediv_nonneg (Z.of_nat (ServerPy.get_busy_servers m))
                (ServerPy.num_servers m) Hn ltac:(lia)) as (b & Hb & Hb0).
    destruct (truediv_bounds _ _ _ Hn Hbusy) as (b' & one & Hb' & Hone & Hle).
    destruct (truediv_self _ Hn) as (one' & Hone' & Heq).
    exists q, b. split_and!; [done..|].
    assert (b' = b) as -> by congruence. assert (one' = one) as -> by congruence.
    by rewrite <- Heq.
  - intros Hn.
    assert (Hnil : ServerPy.servers m = []).
    { apply length_zero_iff_nil. lia. }
    unfold ServerPy.get_queue_lengths, ServerPy.get_busy_servers. rewrite Hnil. simpl.
    destruct (truediv_zero (ServerPy.num_servers m) ltac:(lia)) as (q & Hq & Hq0).
    by exists q, q.
Qed.

Lemma fleet_averages_witness :
  ∃ q b, ServerPy.get_avg_queue_length one_server_queueing = Returned q ∧
         ServerPy.get_avg_servers_busy one_server_queueing = Returned b ∧
         (0 <= q)%Q ∧ (0 <= b)%Q ∧ (b <= 1)%Q.
Proof.
  apply (proj1 (proj2 (fleet_averages one_server_queueing reachable_one_server_queueing))).
  simpl. lia.
Defined.

(** X12.  [mesa.py] is [server.py] without its statistics: on the
    erasure of a model of [server.py] whose service rate is not zero,
    the constructor, [step] and the main loop of [mesa.py] return the
    erasure of what those of [server.py] return, or raise the same
    exception, when [server.py] draws the service times that [mesa.py]
    draws. *)
Theorem mesa_run_is_erased_server_run
    (m : ServerPy.QueueServerModel) (d : MesaPy.Draws) (ds : list MesaPy.Draws) :
  Qeq_bool (ServerPy.task_service_rate m) 0 = false →
  MesaPy.QueueServerModel_init (ServerPy.num_servers m) (ServerPy.task_arrival_rate m)
    (ServerPy.max_steps m)
  = result_map erase_model
      (ServerPy.QueueServerModel_init (ServerPy.num_servers m)
         (ServerPy.task_arrival_rate m) 1 (ServerPy.max_steps m)) ∧
  MesaPy.QueueServerModel_step d (erase_model m)
  = result_map erase_model (ServerPy.QueueServerModel_step (lift_draws d) m) ∧
  MesaPy.main_loop ds (erase_model m)
  = result_map erase_model <$> ServerPy.main_loop (lift_draws <$> ds) m.
Proof.
  intros Hrate. split_and!.
  - apply erase_init.
  - by apply erase_QueueServerModel_step.
  - by apply erase_main_loop.
Qed.

Lemma mesa_run_is_erased_server_run_witness :
  MesaPy.QueueServerModel_step (arrival_mesa 0 [0%nat]) (erase_model one_server_queueing)
  = result_map erase_model
      (ServerPy.QueueServerModel_step (lift_draws (arrival_mesa 0 [0%nat]))
         one_server_queueing).
Proof.
  exact (proj1 (proj2 (mesa_run_is_erased_server_run one_server_queueing
                         (arrival_mesa 0 [0%nat]) [] eq_refl))).
Defined.

(** X13.  The main loop of [mesa.py] on a constructed model, given a draw
    for each of [max(1, max_steps)] steps: it ends after exactly that
    many steps with [running] cleared, or raises [ValueError]
    ([num_servers <= 0]); with a server it ends without exception. *)
Theorem mesa_main_loop_outcome (n : Z) (arrival_rate : Q) (limit : Z)
    (m0 : MesaPy.QueueServerModel) (ds : list MesaPy.Draws) :
  MesaPy.QueueServerModel_init n arrival_rate limit = Returned m0 →
  Z.max 1 limit ≤ Z.of_nat (length ds) →
  ((∃ m', MesaPy.main_loop ds m0 = Some (Returned m') ∧
          MesaPy.running m' = false ∧ MesaPy.current_step m' = Z.max 1 limit ∧
          length (MesaPy.servers m') = Z.to_nat n) ∨
   (MesaPy.main_loop ds m0 = Some (Raised ValueError) ∧ n ≤ 0)) ∧
  (0 < n →
   ∃ m', MesaPy.main_loop ds m0 = Some (Returned m') ∧
         MesaPy.running m' = false ∧ MesaPy.current_step m' = Z.max 1 limit ∧
         length (MesaPy.servers m') = Z.to_nat n).
Proof.
  intros Hinit Hlen. rewrite erase_init in Hinit. simpl in Hinit. injection Hinit as <-.
  set (ms := ServerPy.mkModel n arrival_rate 1 limit true 0 0 0 0 _ []).
  assert (Hms : ServerPy.reachable ms) by (by apply (ServerPy.reachable_init n arrival_rate 1 limit)).
  rewrite (erase_main_loop ds ms eq_refl).
  assert (Hfin : ∀ y, Exists (λ d, ServerPy.service_draw d = y) (lift_draws <$> ds) →
            ∃ x, y = finite x).
  { intros y Hex. rewrite Exists_exists in Hex. destruct Hex as (d & Hd & <-).
    apply list_elem_of_fmap in Hd. destruct Hd as (d0 & -> & _). simpl. eauto. }
  destruct (main_loop_ends (lift_draws <$> ds) ms Hms)
    as [(m' & Hl & Hm' & Hr & Hn & Hc)|[[Hl Hz]|[[Hl Ho]|[Hl [Hv|Hv]]]]].
  - simpl. intros _. rewrite length_fmap. lia.
  - assert (HA : ∃ mm', result_map erase_model
                          <$> ServerPy.main_loop (lift_draws <$> ds) ms
                        = Some (Returned mm') ∧
               MesaPy.running mm' = false ∧ MesaPy.current_step mm' = Z.max 1 limit ∧
               length (MesaPy.servers mm') = Z.to_nat n).
    { exists (erase_model m'). rewrite Hl. simpl. split_and!; [done..| |].
      - rewrite (Hc eq_refl). simpl. lia.
      - rewrite length_fmap. destruct (reachable_frame _ Hm') as (-> & _).
        by rewrite Hn. }
    split; [by left|done].
  - done.
  - by destruct (Hfin infinity Ho).
  - simpl in Hv. rewrite Hl. simpl. split; [by right|]. lia.
  - by destruct (Hfin nan Hv).
Qed.

Lemma mesa_main_loop_outcome_witness :
  ∃ m', MesaPy.main_loop [arrival_mesa 0 [0%nat]; arrival_mesa 5 [0%nat]]
          (MesaPy.mkModel 1 (7 # 10) 2 true 0 [MesaPy.ServerAgent_init 0] [])
        = Some (Returned m') ∧
        MesaPy.current_step m' = 2.
Proof.
  destruct (proj2 (mesa_main_loop_outcome 1 (7 # 10) 2 _
                     [arrival_mesa 0 [0%nat]; arrival_mesa 5 [0%nat]]
                     eq_refl ltac:(simpl; lia)) ltac:(lia))
    as (m' & Hl & _ & Hc & _).
  exists m'. split; [exact Hl|exact Hc].
Defined.

(** X14.  A server that is busy with a task completes it at its
    [max(1, remaining_service_time)]-th activation from then on and at
    none before: until then the server is unchanged and the task loses
    one tick per activation; at that activation [total_tasks_served]
    grows by one and [total_service_time] by the task's
    [initial_service_time]. *)
Theorem service_lasts_remaining_time (clocks : list Z)
    (s : ServerPy.ServerAgent) (h : list ServerPy.TaskAgent)
    (r0 : nat) (t : ServerPy.TaskAgent) :
  ServerPy.busy s = true → ServerPy.current_task s = Some r0 → h !! r0 = Some t →
  Z.of_nat (length clocks) = Z.max 1 (ServerPy.remaining_service_time t) →
  (∃ s' h', ServerPy.ServerAgent_steps clocks s h = Returned (s', h') ∧
     ServerPy.total_tasks_served s' = ServerPy.total_tasks_served s + 1 ∧
     ServerPy.total_service_time s'
       = ServerPy.total_service_time s + ServerPy.initial_service_time t ∧
     (ServerPy.remaining_service_time <$> h') !! r0
       = Some (Z.min 0 (ServerPy.remaining_service_time t - 1))) ∧
  (∀ j, (j < length clocks)%nat →
     ∃ hj tj, ServerPy.ServerAgent_steps (take j clocks) s h = Returned (s, hj) ∧
              hj !! r0 = Some tj ∧
              ServerPy.remaining_service_time tj
                = ServerPy.remaining_service_time t - Z.of_nat j).
Proof. apply ServerAgent_steps_service. Qed.

Lemma service_lasts_remaining_time_witness :
  ∃ s' h',
    ServerPy.ServerAgent_steps [5; 6; 7]
      (ServerPy.mkServerAgent 0 true (Some 0%nat) 0 [1%nat] 0)
      [ServerPy.mkTaskAgent 4 3 3 (Some 0) 4 0; ServerPy.mkTaskAgent 5 2 2 None 5 0]
    = Returned (s', h') ∧
    ServerPy.total_tasks_served s' = 1.
Proof.
  destruct (proj1 (service_lasts_remaining_time [5; 6; 7]
                     (ServerPy.mkServerAgent 0 true (Some 0%nat) 0 [1%nat] 0)
                     [ServerPy.mkTaskAgent 4 3 3 (Some 0) 4 0;
                      ServerPy.mkTaskAgent 5 2 2 None 5 0]
                     0%nat (ServerPy.mkTaskAgent 4 3 3 (Some 0) 4 0)
                     eq_refl eq_refl eq_refl eq_refl))
    as (s' & h' & Hs & Hserved & _).
  exists s', h'. split; [exact Hs|exact Hserved].
Defined.

Lemma Qltb_nonpos_rate (u a : Q) : (0 <= u)%Q → (a <= 0)%Q → Qltb u a = false.
Proof.
  unfold Qle, Qltb. simpl. rewrite !Z.mul_1_r. intros Hu Ha.
  apply Z.ltb_ge. nia.
Qed.

(** X15.  With an arrival rate of zero or less no task is ever created,
    [random.random()] being at least 0: whatever the number of servers
    and the service rate, the main loop ends after [max(1, max_steps)]
    steps without exception, every server idle and every counter at
    zero. *)
Theorem no_arrival_without_rate (n : Z) (arrival_rate service_rate : Q) (limit : Z)
    (m0 : ServerPy.QueueServerModel) (ds : list ServerPy.Draws) :
  ServerPy.QueueServerModel_init n arrival_rate service_rate limit = Returned m0 →
  (arrival_rate <= 0)%Q →
  Forall (λ d, (0 <= ServerPy.arrival_draw d)%Q) ds →
  Z.max 1 limit ≤ Z.of_nat (length ds) →
  ∃ m', ServerPy.main_loop ds m0 = Some (Returned m') ∧
        ServerPy.untouched m' ∧ ServerPy.running m' = false ∧
        ServerPy.current_step m' = Z.max 1 limit.
Proof.
  intros Hinit Hrate Hds Hlen.
  pose proof (untouched_init _ _ _ _ _ Hinit) as Hu.
  pose proof (ServerPy.reachable_init _ _ _ _ _ Hinit) as Hm0.
  injection Hinit as <-.
  set (m0 := ServerPy.mkModel _ _ _ _ _ _ _ _ _ _ _) in *.
  assert (Hlen' : ServerPy.running m0 = true →
            Z.max 1 (ServerPy.max_steps m0 - ServerPy.current_step m0)
            ≤ Z.of_nat (length ds)).
  { simpl. intros _. lia. }
  destruct (main_loop_untouched ds m0 Hu) as (m' & Hl & Hu' & Hr); [|done|].
  { eapply Forall_impl; [exact Hds|]. intros d Hd. by apply Qltb_nonpos_rate. }
  exists m'. split_and!; [done..|].
  destruct (main_loop_ends ds m0 Hm0 Hlen')
    as [(m'' & Hl' & _ & _ & _ & Hc)|[[Hl' _]|[[Hl' _]|[Hl' _]]]]; [|congruence..].
  assert (m'' = m') as -> by congruence. rewrite (Hc eq_refl). simpl. lia.
Qed.

Lemma no_arrival_without_rate_witness :
  ∃ m', ServerPy.main_loop [no_arrival [0%nat]; no_arrival [0%nat]]
          (ServerPy.mkModel 1 0 (4 # 10) 2 true 0 0 0 0 [ServerPy.ServerAgent_init 0] [])
        = Some (Returned m') ∧
        ServerPy.current_step m' = 2.
Proof.
  destruct (no_arrival_without_rate 1 0 (4 # 10) 2 _
              [no_arrival [0%nat]; no_arrival [0%nat]] eq_refl)
    as (m' & Hl & _ & _ & Hc).
  - discriminate.
  - repeat constructor; discriminate.
  - simpl. lia.
  - exists m'. split; [exact Hl|exact Hc].
Defined.

(** X16.  In every state of a run of [mesa.py], [get_queue_lengths] has
    one entry per server, [max(0, num_servers)] in all, the entry of a
    server that is not busy is 0, and [get_busy_servers] is at most the
    number of servers. *)
Theorem mesa_queries (mm : MesaPy.QueueServerModel) :
  MesaPy.reachable mm →
  length (MesaPy.get_queue_lengths mm) = Z.to_nat (MesaPy.num_servers mm) ∧
  (MesaPy.get_busy_servers mm ≤ Z.to_nat (MesaPy.num_servers mm))%nat ∧
  (∀ i s, MesaPy.servers mm !! i = Some s → MesaPy.busy s = false →
          MesaPy.get_queue_lengths mm !! i = Some 0%nat).
Proof.
  intros Hmm. destruct (reachable_erase_bounded _ Hmm) as (ms & Hms & <- & _).
  destruct (reachable_frame _ Hms) as (Hlen & _).
  unfold MesaPy.get_queue_lengths, MesaPy.get_busy_servers. simpl.
  split_and!.
  - by rewrite !length_fmap.
  - pose proof (length_filter (λ s, MesaPy.busy s = true)
                  (erase_server <$> ServerPy.servers ms)) as Hf.
    rewrite length_fmap in Hf. lia.
  - intros i s Hi Hb. rewrite list_lookup_fmap, Hi. simpl.
    rewrite list_lookup_fmap in Hi.
    destruct (ServerPy.servers ms !! i) as [s0|] eqn:Hs0; [|done].
    injection Hi as <-. simpl in *.
    by rewrite (ServerPy.od_idle _ _ _ (reachable_orderly _ Hms) _ _ Hs0 Hb).
Qed.

Lemma mesa_queries_witness :
  length (MesaPy.get_queue_lengths one_server_mesa_serving)
  = Z.to_nat (MesaPy.num_servers one_server_mesa_serving).
Proof.
  exact (proj1 (mesa_queries one_server_mesa_serving reachable_one_server_mesa_serving)).
Defined.

Section ServerPyActivationOrder.
Import ServerPy.

Lemma insert_decrement_alter (h : list TaskAgent) r0 t :
  h !! r0 = Some t → <[r0 := decrement t]> h = alter decrement r0 h.
Proof. intros Hr. symmetry. by apply alter_as_insert. Qed.

(** An activation reads and writes the store only at the tasks its server
    holds. *)
Lemma ServerAgent_step_local clock s h g s' h' :
  consistent s → (∀ r, r ∈ refs s → g !! r = h !! r) →
  ServerAgent_step clock s h = Returned (s', h') →
  ∃ g', ServerAgent_step clock s g = Returned (s', g') ∧
        (∀ r, r ∈ refs s → g' !! r = h' !! r) ∧
        (∀ r, r ∉ refs s → g' !! r = g !! r) ∧
        (∀ r, r ∉ refs s → h' !! r = h !! r).
Proof.
  intros Hc Hag H.
  assert (Hal : ∀ (f : TaskAgent → TaskAgent) r1 (h1 g1 : list TaskAgent) r,
            g1 !! r = h1 !! r → alter f r1 g1 !! r = alter f r1 h1 !! r).
  { intros f r1 h1 g1 r Hr. rewrite !list_lookup_alter.
    destruct (decide (r1 = r)) as [->|]; by rewrite ?Hr. }
  assert (Hne : ∀ (f : TaskAgent → TaskAgent) r1 (h1 : list TaskAgent) r,
            r1 ≠ r → alter f r1 h1 !! r = h1 !! r).
  { intros f r1 h1 r Hr. by rewrite list_lookup_alter_ne. }
  destruct (ServerAgent_step_cases _ _ _ _ _ Hc H)
    as [(Hb & Hn & Hq & -> & ->)
       |[(r & q & Hb & Hn & Hq & Heq)
        |(r0 & t & Hb & Hcur & Hr0 &
            [(Hgt & -> & ->)|[(Hle & Hq & -> & ->)|(r & q & Hle & Hq & Heq)]])]].
  - exists g. split_and!; [|done..].
    unfold ServerAgent_step, serve. rewrite Hb. simpl. unfold take_next.
    by rewrite Hb, Hq.
  - injection Heq as -> ->. eexists. split_and!.
    + unfold ServerAgent_step, serve. rewrite Hb. simpl. unfold take_next.
      rewrite Hb, Hq. simpl. reflexivity.
    + intros r' Hr'. apply Hal. by apply Hag.
    + intros r' Hr'. apply Hne. intros <-. apply Hr'. apply elem_of_refs.
      right. rewrite Hq. left.
    + intros r' Hr'. apply Hne. intros <-. apply Hr'. apply elem_of_refs.
      right. rewrite Hq. left.
  - assert (Hg0 : g !! r0 = Some t).
    { rewrite Hag; [done|]. apply elem_of_refs. by left. }
    rewrite (insert_decrement_alter _ _ _ Hr0).
    exists (alter decrement r0 g). split_and!.
    + unfold ServerAgent_step, serve. rewrite Hb, Hcur, Hg0. simpl.
      destruct (Z.leb_spec (remaining_service_time t - 1) 0); [lia|]. simpl.
      unfold take_next. rewrite Hb. simpl.
      by rewrite (insert_decrement_alter _ _ _ Hg0).
    + intros r' Hr'. apply Hal. by apply Hag.
    + intros r' Hr'. apply Hne. intros <-. apply Hr'. apply elem_of_refs. by left.
    + intros r' Hr'. apply Hne. intros <-. apply Hr'. apply elem_of_refs. by left.
  - assert (Hg0 : g !! r0 = Some t).
    { rewrite Hag; [done|]. apply elem_of_refs. by left. }
    rewrite (insert_decrement_alter _ _ _ Hr0).
    exists (alter decrement r0 g). split_and!.
    + unfold ServerAgent_step, serve. rewrite Hb, Hcur, Hg0. simpl.
      destruct (Z.leb_spec (remaining_service_time t - 1) 0); [|lia]. simpl.
      unfold take_next. simpl. rewrite Hq.
      by rewrite (insert_decrement_alter _ _ _ Hg0).
    + intros r' Hr'. apply Hal. by apply Hag.
    + intros r' Hr'. apply Hne. intros <-. apply Hr'. apply elem_of_refs. by left.
    + intros r' Hr'. apply Hne. intros <-. apply Hr'. apply elem_of_refs. by left.
  - assert (Hg0 : g !! r0 = Some t).
    { rewrite Hag; [done|]. apply elem_of_refs. by left. }
    injection Heq as -> ->.
    rewrite (insert_decrement_alter _ _ _ Hr0).
    assert (Hr0s : r0 ∈ refs s) by (apply elem_of_refs; by left).
    assert (Hrs : r ∈ refs s) by (apply elem_of_refs; right; rewrite Hq; left).
    eexists. split_and!.
    + unfold ServerAgent_step, serve. rewrite Hb, Hcur, Hg0. simpl.
      destruct (Z.leb_spec (remaining_service_time t - 1) 0); [|lia]. simpl.
      unfold take_next. simpl. rewrite Hq. simpl.
      rewrite (insert_decrement_alter _ _ _ Hg0). reflexivity.
    + intros r' Hr'. apply Hal, Hal. by apply Hag.
    + intros r' Hr'. rewrite !Hne; [done|by intros <-..].
    + intros r' Hr'. rewrite !Hne; [done|by intros <-..].
Qed.

(** Two activations of different servers can be exchanged. *)
Lemma activate_commute clock j k svs h svs1 h1 svs2 h2 :
  well_formed svs h → j ≠ k →
  activate clock j svs h = Returned (svs1, h1) →
  activate clock k svs1 h1 = Returned (svs2, h2) →
  ∃ svs1' h1', activate clock k svs h = Returned (svs1', h1') ∧
               activate clock j svs1' h1' = Returned (svs2, h2).
Proof.
  intros Hwf Hjk Hj Hk.
  destruct (activate_inv _ _ _ _ _ _ Hj) as [(Hnj & -> & ->)|(sj & sj' & Hsj & Hstj & ->)].
  { exists svs2, h2. split; [done|]. unfold activate.
    destruct (activate_inv _ _ _ _ _ _ Hk) as [(_ & -> & _)|(sk & sk' & _ & _ & ->)];
      [by rewrite Hnj|].
    by rewrite list_lookup_insert_ne, Hnj by done. }
  destruct (activate_inv _ _ _ _ _ _ Hk) as [(Hnk & -> & ->)|(sk & sk' & Hsk & Hstk & ->)].
  { rewrite list_lookup_insert_ne in Hnk by done.
    exists svs, h. split; [unfold activate; by rewrite Hnk|done]. }
  rewrite list_lookup_insert_ne in Hsk by done.
  pose proof (wf_consistent _ _ Hwf _ _ Hsj) as Hcj.
  pose proof (wf_consistent _ _ Hwf _ _ Hsk) as Hck.
  assert (Hdisj : ∀ r, r ∈ refs sj → r ∈ refs sk → False).
  { intros r Hrj Hrk. apply Hjk. by eapply (wf_owner _ _ Hwf). }
  (* the step of [sj] leaves the tasks of [sk] alone *)
  destruct (ServerAgent_step_local clock sj h h sj' h1 Hcj ltac:(done) Hstj)
    as (_ & _ & _ & _ & Hout_j).
  (* so [sk] steps on [h] as it does on [h1] *)
  destruct (ServerAgent_step_local clock sk h1 h sk' h2 Hck) as (h1' & Hstk' & Hin_k & Hout_k' & Hout_k);
    [|done|].
  { intros r Hr. symmetry. apply Hout_j. intros Hrj. by eapply Hdisj. }
  (* and [sj] steps on the result as it does on [h] *)
  destruct (ServerAgent_step_local clock sj h h1' sj' h1 Hcj) as (h2' & Hstj' & Hin_j & Hout_j' & _);
    [|done|].
  { intros r Hr. apply Hout_k'. intros Hrk. by eapply Hdisj. }
  assert (h2' = h2) as ->.
  { apply list_eq. intros r.
    destruct (decide (r ∈ refs sj)) as [Hrj|Hrj].
    - rewrite (Hin_j r Hrj). symmetry. apply Hout_k. intros Hrk. by eapply Hdisj.
    - rewrite (Hout_j' r Hrj).
      destruct (decide (r ∈ refs sk)) as [Hrk|Hrk]; [by apply Hin_k|].
      by rewrite (Hout_k' r Hrk), (Hout_k r Hrk), (Hout_j r Hrj). }
  exists (<[k := sk']> svs), h1'. split.
  - unfold activate. rewrite Hsk, Hstk'. done.
  - unfold activate. rewrite list_lookup_insert_ne, Hsj, Hstj' by done. simpl.
    by rewrite list_insert_insert_ne.
Qed.

(** The servers and the store after [schedule.step()] do not depend on
    the order of the activations. *)
Lemma schedule_step_Permutation clock order1 order2 :
  order1 ≡ₚ order2 → ∀ svs h svs' h',
  well_formed svs h →
  schedule_step clock order1 svs h = Returned (svs', h') →
  schedule_step clock order2 svs h = Returned (svs', h').
Proof.
  induction 1 as [|x l1 l2 _ IH|x y l|l1 l2 l3 _ IH1 _ IH2]; intros svs h svs' h' Hwf H.
  - done.
  - simpl in *. apply bind_Returned in H. destruct H as ([svs1 h1] & Ha & H).
    rewrite Ha. simpl. eapply IH; [|done]. by eapply well_formed_activate.
  - simpl in *. apply bind_Returned in H. destruct H as ([svs1 h1] & Hy & H).
    apply bind_Returned in H. destruct H as ([svs2 h2] & Hx & H).
    destruct (decide (y = x)) as [->|Hne].
    + rewrite Hy. simpl. by rewrite Hx.
    + destruct (activate_commute _ _ _ _ _ _ _ _ _ Hwf Hne Hy Hx)
        as (svs1' & h1' & Hx' & Hy').
      rewrite Hx'. simpl. by rewrite Hy'.
  - eauto.
Qed.

End ServerPyActivationOrder.

Lemma reachable_two_servers_serving : ServerPy.reachable two_servers_serving.
Proof.
  apply (ServerPy.reachable_step (arrival 2 [1%nat; 0%nat])
           (ServerPy.mkModel 2 (9 # 10) (4 # 10) 100 true 1 0 0 1
              [ServerPy.mkServerAgent 0 true (Some 0%nat) 0 [] 0;
               ServerPy.ServerAgent_init 1]
              [ServerPy.mkTaskAgent 0 3 2 (Some 0) 0 0])); [|reflexivity].
  apply (ServerPy.reachable_step (arrival 3 [0%nat; 1%nat])
           (ServerPy.mkModel 2 (9 # 10) (4 # 10) 100 true 0 0 0 0
              [ServerPy.ServerAgent_init 0; ServerPy.ServerAgent_init 1] []));
    [|reflexivity].
  by apply (ServerPy.reachable_init 2 (9 # 10) (4 # 10) 100).
Qed.

Lemma step_Permutation (u : Q) (x : float) (o1 o2 : list nat)
    (m : ServerPy.QueueServerModel) :
  ServerPy.reachable m → o1 ≡ₚ o2 →
  ServerPy.QueueServerModel_step (ServerPy.mkDraws u x o1) m
  = ServerPy.QueueServerModel_step (ServerPy.mkDraws u x o2) m.
Proof.
  intros Hm Hp. pose proof (reachable_well_formed _ Hm) as Hwf.
  unfold ServerPy.QueueServerModel_step.
  replace (ServerPy.arrive (ServerPy.mkDraws u x o2) m)
    with (ServerPy.arrive (ServerPy.mkDraws u x o1) m) by done.
  destruct (ServerPy.arrive (ServerPy.mkDraws u x o1) m) as [[[n svs] h]|e] eqn:Ha;
    [|done].
  simpl.
  pose proof (well_formed_arrive _ _ _ _ _ Hwf Ha) as Hwf'.
  destruct (schedule_step_returns (ServerPy.current_step m) o1 svs h Hwf')
    as (svs' & h' & Hs).
  by rewrite Hs, (schedule_step_Permutation _ _ _ Hp _ _ _ _ Hwf' Hs).
Qed.

(** X17.  The outcome of a step does not depend on the order in which the
    scheduler activates the servers: in a run of [server.py] and of
    [mesa.py], two orders that are permutations of each other give the
    same result, whatever the draws. *)
Theorem step_independent_of_activation_order (o1 o2 : list nat) :
  o1 ≡ₚ o2 →
  (∀ (u : Q) (x : float) (m : ServerPy.QueueServerModel), ServerPy.reachable m →
     ServerPy.QueueServerModel_step (ServerPy.mkDraws u x o1) m
     = ServerPy.QueueServerModel_step (ServerPy.mkDraws u x o2) m) ∧
  (∀ (u : Q) (raw : Z) (m : MesaPy.QueueServerModel), MesaPy.reachable m →
     MesaPy.QueueServerModel_step (MesaPy.mkDraws u raw o1) m
     = MesaPy.QueueServerModel_step (MesaPy.mkDraws u raw o2) m).
Proof.
  intros Hp. split.
  - intros u x m Hm. by apply step_Permutation.
  - intros u raw mm Hmm.
    destruct (reachable_erase_bounded mm Hmm) as (ms & Hms & <- & Hrate & _).
    rewrite !(erase_QueueServerModel_step _ _ Hrate). f_equal.
    by apply step_Permutation.
Qed.

Lemma step_independent_of_activation_order_witness :
  [0%nat; 1%nat] ≡ₚ [1%nat; 0%nat] ∧
  ServerPy.QueueServerModel_step (no_arrival [0%nat; 1%nat]) two_servers_serving
  = ServerPy.QueueServerModel_step (no_arrival [1%nat; 0%nat]) two_servers_serving.
Proof.
  assert (Hp : [0%nat; 1%nat] ≡ₚ [1%nat; 0%nat]) by apply perm_swap.
  split; [exact Hp|].
  exact (proj1 (step_independent_of_activation_order _ _ Hp) (19 # 20)%Q (finite 0)
           two_servers_serving reachable_two_servers_serving).
Defined.
